(** * Rule engine of the filtering DNS forwarder: a shallow embedding

    The development follows [dnsfilter/src/filter.cpp],
    [dnsfilter/src/rule_utils.cpp], [common/src/file.cpp] and
    [common/src/net_utils.cpp].  Strings
    ([std::string], [std::string_view]) are lists of characters, positions
    are natural numbers with [None] standing for [npos], the khash tables
    are finite maps keyed by the 32-bit hash, and the functions that
    mutate their arguments return the new value. *)

From Stdlib Require Import ZArith NArith Lia Ascii String List Bool.
From stdpp Require Import base option list gmap strings.

Local Open Scope nat_scope.

Abbreviation str := (list ascii).

(** String literals of the source. *)
Definition lit (s : string) : str := list_ascii_of_string s.

(** ** [std::string_view] operations used by the sources *)

Module sv.

Definition front (s : str) : option ascii := head s.
Definition back (s : str) : option ascii := last s.

(** [s.front() == c] and [s.back() == c]; on an empty view the sources
    never rely on the outcome, the comparison is taken to fail. *)
Definition front_is (s : str) (c : ascii) : bool := bool_decide (front s = Some c).
Definition back_is (s : str) (c : ascii) : bool := bool_decide (back s = Some c).

(** [s[i] == c] for an index inside the view. *)
Definition at_is (s : str) (i : nat) (c : ascii) : bool := bool_decide (s !! i = Some c).

Fixpoint starts_with (s prefix : str) : bool :=
  match prefix, s with
  | [], _ => true
  | p :: prefix', c :: s' => Ascii.eqb c p && starts_with s' prefix'
  | _ :: _, [] => false
  end.

Definition ends_with (s suffix : str) : bool :=
  (length suffix <=? length s) && starts_with (drop (length s - length suffix) s) suffix.

(** [s.substr(pos, n)] and [s.substr(pos)] for [pos <= s.size()]. *)
Definition substr (s : str) (pos n : nat) : str := take n (drop pos s).
Definition substr_from (s : str) (pos : nat) : str := drop pos s.

(** A view into [s], given by its offset and its length. *)
Definition view (s : str) (slice : nat * nat) : str := take (snd slice) (drop (fst slice) s).

Definition remove_prefix (s : str) (n : nat) : str := drop n s.
Definition remove_suffix (s : str) (n : nat) : str := take (length s - n) s.

(** Scan for [needle] in [rest], the part of the view that starts at
    index [i]. *)
Fixpoint find_scan (needle rest : str) (i : nat) : option nat :=
  if starts_with rest needle then Some i
  else match rest with
       | [] => None
       | _ :: rest' => find_scan needle rest' (S i)
       end.

(** [s.find(needle, pos)]: the first index [>= pos] where [needle]
    occurs, [None] for [npos] (also when [pos > s.size()]). *)
Definition find (s needle : str) (pos : nat) : option nat :=
  if pos <=? length s then find_scan needle (drop pos s) pos else None.

Fixpoint find_if_scan (p : ascii -> bool) (rest : str) (i : nat) : option nat :=
  match rest with
  | [] => None
  | c :: rest' => if p c then Some i else find_if_scan p rest' (S i)
  end.

(** [s.find(c)] *)
Definition find_char (s : str) (c : ascii) : option nat :=
  find_if_scan (Ascii.eqb c) s 0.

Fixpoint rfind_scan (c : ascii) (rest : str) (i : nat) (last_seen : option nat) : option nat :=
  match rest with
  | [] => last_seen
  | d :: rest' => rfind_scan c rest' (S i) (if Ascii.eqb c d then Some i else last_seen)
  end.

(** [s.rfind(c)] *)
Definition rfind_char (s : str) (c : ascii) : option nat :=
  rfind_scan c s 0 None.

Definition mem (c : ascii) (set : str) : bool := existsb (Ascii.eqb c) set.

(** [s.find_first_of(set)] and [s.find_first_not_of(set)] *)
Definition find_first_of (s set : str) : option nat :=
  find_if_scan (fun c => mem c set) s 0.
Definition find_first_not_of (s set : str) : option nat :=
  find_if_scan (fun c => negb (mem c set)) s 0.

(** [s.end() == std::find_if(s.begin(), s.end(), p)] *)
Definition none_of (p : ascii -> bool) (s : str) : bool := forallb (fun c => negb (p c)) s.

End sv.

(** ** [<cctype>] in the "C" locale *)

Definition in_range (lo hi : N) (c : ascii) : bool :=
  let n := N_of_ascii c in (N.leb lo n) && (N.leb n hi).

Definition isdigit (c : ascii) : bool := in_range 48 57 c.
Definition isupper (c : ascii) : bool := in_range 65 90 c.
Definition islower (c : ascii) : bool := in_range 97 122 c.
Definition isalpha (c : ascii) : bool := isupper c || islower c.
Definition isxdigit (c : ascii) : bool :=
  isdigit c || in_range 65 70 c || in_range 97 102 c.
Definition isspace (c : ascii) : bool :=
  in_range 9 13 c || Ascii.eqb c " ".
Definition tolower (c : ascii) : ascii :=
  if isupper c then ascii_of_N (N_of_ascii c + 32) else c.

(** ** Pattern modes and the port suffix ([rule_utils.cpp]) *)

(** [rule_utils::match_pattern_mode], declared in [rule_utils.h]: three
    distinct one-bit flags.  The header is not part of the sources at
    hand; only the distinctness of the bits matters below. *)
Definition MPM_LINE_START_ASSERTED : N := 1.
Definition MPM_LINE_END_ASSERTED : N := 2.
Definition MPM_DOMAIN_START_ASSERTED : N := 4.

Definition is_valid_port (p : str) : bool :=
  (length p <=? 5) && forallb isdigit p.

(** [remove_port(std::string_view &rule)]: the pair of the returned mode
    bits and the new value of [rule].  [rule.length() - 1] and [rpos - 2]
    are only evaluated where they cannot wrap. *)
Definition remove_port (rule : str) : N * str :=
  match sv.rfind_char rule ":" with
  | None => (0%N, rule)
  | Some rpos =>
    match sv.find_char rule ":" with
    | None => (0%N, rule)
    | Some fpos =>
      if (fpos =? rpos) && negb (fpos =? length rule - 1)
         && is_valid_port (sv.substr_from rule (fpos + 1))
      then (MPM_LINE_END_ASSERTED, sv.substr rule 0 fpos)
      else if (0 <? fpos) && sv.at_is rule (fpos - 1) "]" && sv.at_is rule 0 "["
      then (N.lor MPM_LINE_START_ASSERTED MPM_LINE_END_ASSERTED, sv.substr rule 1 (rpos - 2))
      else (0%N, rule)
    end
  end.

(** ** Shortcut matching ([filter.cpp]) *)

Fixpoint match_shortcuts_from (shortcuts : list str) (domain : str)
    (seek : nat) (found : bool) : bool :=
  match shortcuts with
  | [] => found
  | sc :: rest =>
    match sv.find domain sc seek with
    | None => false
    | Some _ => match_shortcuts_from rest domain (seek + length sc) true
    end
  end.

Definition match_shortcuts (shortcuts : list str) (domain : str) : bool :=
  match_shortcuts_from shortcuts domain 0 false.

(** The reading of the specification: every part is searched from the
    position where the match of the previous part ended. *)
Fixpoint spec_parts_in_order (parts : list str) (host : str) (start : nat) : bool :=
  match parts with
  | [] => true
  | p :: rest =>
    match sv.find host p start with
    | None => false
    | Some pos => spec_parts_in_order rest host (pos + length p)
    end
  end.

(** ** Fixed-width integers *)

Definition to_uint32 (n : N) : N := (n mod 2 ^ 32)%N.
Definition to_size_t (z : Z) : N := Z.to_N (z mod 2 ^ 64).
Definition to_int (z : Z) : Z := ((z + 2 ^ 31) mod 2 ^ 32 - 2 ^ 31)%Z.

(** ** The index tables ([filter.cpp])

    [kh_hash_to_unique_index_t] maps a hash to one file offset and
    [kh_hash_to_indexes_t] maps a hash to a vector of file offsets.
    [kh_get] is the lookup [!!]; [kh_put] followed by the assignment of
    [kh_value] is an insertion; [kh_del] is [delete].  Allocation is taken
    to succeed, so the branches [ret < 0] and [positions == nullptr], which
    only log and return, are not represented. *)

Abbreviation unique_index_table := (gmap N N).
Abbreviation multi_index_table := (gmap N (list N)).

Definition put_hash_into_tables (hash file_idx : N)
    (unique_table : gmap N N) (multi_table : gmap N (list N))
    : gmap N N * gmap N (list N) :=
  let '(already_exists, stored_idx, unique_table, returned) :=
    match multi_table !! hash with
    | None =>
      (* there is no such domain in non-unique table *)
      match unique_table !! hash with
      | None => (false, 0%N, <[hash := file_idx]> unique_table, true)
      | Some stored => (true, stored, delete hash unique_table, false)
      end
    | Some _ => (false, 0%N, unique_table, false)
    end in
  if returned : bool then (unique_table, multi_table)
  else
    (* create record in non-unique table *)
    let positions := default [] (multi_table !! hash) in
    let positions := if already_exists : bool then positions ++ [stored_idx] else positions in
    (unique_table, <[hash := positions ++ [file_idx]]> multi_table).

(** ** Rules ([dnsfilter.h], [rule_utils.h])

    The two headers are not part of the sources at hand; the types below
    carry the fields and enumerators that the sources use. *)

Inductive adblock_rule_props :=
  | DARP_EXCEPTION | DARP_IMPORTANT | DARP_BADFILTER | DARP_DNSTYPE | DARP_DNSREWRITE.

Definition prop_bit (p : adblock_rule_props) : N :=
  match p with
  | DARP_EXCEPTION => 0 | DARP_IMPORTANT => 1 | DARP_BADFILTER => 2
  | DARP_DNSTYPE => 3 | DARP_DNSREWRITE => 4
  end%N.

(** [std::bitset]: [props.test(p)], [props.set(p)], [props.set(p, b)]. *)
Definition props_test (props : N) (p : adblock_rule_props) : bool :=
  N.testbit props (prop_bit p).
Definition props_set (props : N) (p : adblock_rule_props) : N :=
  N.setbit props (prop_bit p).
Definition props_set_to (props : N) (p : adblock_rule_props) (b : bool) : N :=
  if b then N.setbit props (prop_bit p) else N.clearbit props (prop_bit p).

(** [ldns_rr_type] values used by the matcher. *)
Definition LDNS_RR_TYPE_A : N := 1.
Definition LDNS_RR_TYPE_CNAME : N := 5.
Definition LDNS_RR_TYPE_PTR : N := 12.
Definition LDNS_RR_TYPE_MX : N := 15.
Definition LDNS_RR_TYPE_AAAA : N := 28.

Record dnsrewrite_info := {
  dr_rcode : N;
  dr_rrtype : N;
  dr_value : str;
}.

Record adblock_rule_info := {
  props : N;
  params_dnsrewrite : option dnsrewrite_info;
}.

Record etc_hosts_rule_info := { ip : str }.

Inductive rule_content :=
  | adblock_content (info : adblock_rule_info)
  | etc_hosts_content (info : etc_hosts_rule_info).

(** [ag::dnsfilter::rule] *)
Record dnsfilter_rule := {
  filter_id : Z;
  text : str;
  content : rule_content;
}.

Inductive match_method_id :=
  | MMID_EXACT | MMID_SUBDOMAINS | MMID_SHORTCUTS | MMID_SHORTCUTS_AND_REGEX | MMID_REGEX.

Inductive dnstype_match_mode := DTMM_ENABLE | DTMM_EXCLUDE.

Record dnstype_info := {
  types : list N;
  mode : dnstype_match_mode;
}.

(** [rule_utils::rule] *)
Record rule := {
  public_part : dnsfilter_rule;
  match_method : match_method_id;
  matching_parts : list str;
  dnstype : option dnstype_info;
}.

Record match_info := {
  mi_text : str;
  is_regex_rule : bool;
  has_wildcard : bool;
  pattern_mode : N;
}.

#[global] Instance adblock_rule_props_eq_dec : EqDecision adblock_rule_props.
Proof. solve_decision. Defined.
#[global] Instance match_method_id_eq_dec : EqDecision match_method_id.
Proof. solve_decision. Defined.
#[global] Instance dnstype_match_mode_eq_dec : EqDecision dnstype_match_mode.
Proof. solve_decision. Defined.
#[global] Instance dnsrewrite_info_eq_dec : EqDecision dnsrewrite_info.
Proof. solve_decision. Defined.
#[global] Instance adblock_rule_info_eq_dec : EqDecision adblock_rule_info.
Proof. solve_decision. Defined.
#[global] Instance etc_hosts_rule_info_eq_dec : EqDecision etc_hosts_rule_info.
Proof. solve_decision. Defined.
#[global] Instance rule_content_eq_dec : EqDecision rule_content.
Proof. solve_decision. Defined.
#[global] Instance dnsfilter_rule_eq_dec : EqDecision dnsfilter_rule.
Proof. solve_decision. Defined.

(** Is the rule an adblock rule with the given property?
    [std::get_if<adblock_rule_info>(&content) != nullptr && props.test(p)] *)
Definition adblock_info (r : dnsfilter_rule) : option adblock_rule_info :=
  match content r with
  | adblock_content info => Some info
  | etc_hosts_content _ => None
  end.

Definition adblock_has_prop (r : dnsfilter_rule) (p : adblock_rule_props) : bool :=
  match adblock_info r with
  | Some info => props_test (props info) p
  | None => false
  end.

(** ** The helpers outside the sources at hand

    [ag_utils.h], [ag_regex.h], [ag_socket_address.h], ldns and the rest of
    [rule_utils] are used by the three sources but are not among them.
    The development is parametric in them: every field is one such
    function, with the type at which the sources call it. *)

Class Externals := {
  (** [ag::utils::hash]: a 32-bit hash of the bytes *)
  hash : str -> N;
  (** [ag::utils::trim], [ag::utils::rtrim], [ag::utils::to_lower] *)
  trim : str -> str;
  rtrim : str -> str;
  to_lower : str -> str;
  (** [ag::utils::split_by], [ag::utils::split_by_any_of] *)
  split_by : str -> ascii -> list str;
  split_by_any_of : str -> str -> list str;
  (** [ag::utils::rsplit2_by]: the two views it returns, each as the
      offset and the length of a slice of the argument *)
  rsplit2_by : str -> ascii -> (nat * nat) * (nat * nat);
  (** [ag::utils::split2_by]: the two parts around the first delimiter *)
  split2_by : str -> ascii -> str * str;
  (** [ag::utils::is_valid_ip4], [ag::utils::is_valid_ip6] *)
  is_valid_ip4 : str -> bool;
  is_valid_ip6 : str -> bool;
  (** [ag::utils::str_to_socket_address(str).valid()] *)
  str_to_socket_address_valid : str -> bool;
  (** [ag::socket_address{text, 0}]: [None] when not [valid()], else
      [ag::utils::addr_to_str(addr.addr())] *)
  socket_address_text : str -> option str;
  (** [ldns_get_rr_type_by_name], 0 for an unknown name *)
  ldns_get_rr_type_by_name : str -> N;
  (** [rule_utils::is_comment] *)
  is_comment : str -> bool;
  (** [rule_utils::parse_dnsrewrite_modifier]: [None] for [false], else
      the rule as the call leaves it *)
  parse_dnsrewrite_modifier : rule -> str -> match_info -> option rule;
  (** [ag::regex]: [ag::regex(re).is_valid()], [ag::regex(re).match(s)],
      [ag::regex(re).replace(s, fmt)] *)
  regex_is_valid : str -> bool;
  regex_match : str -> str -> bool;
  regex_replace : str -> str -> str -> str;
  (** [ag::utils::read_line(blob, pos)] *)
  utils_read_line : str -> N -> option str;
  (** the lines, with their offsets, that [ag::utils::for_each_line]
      hands to its action *)
  blob_lines : str -> list (N * str);
  (** the memory layout behind the estimate of [load_line]:
      [sizeof(std::vector<uint32_t>)], [sizeof(leftover_entry)], the
      capacity of a [std::vector<uint32_t>] that [push_back] grew from
      empty to a given size, the capacity of [leftovers_table] after
      [reserve(n)] and growth to a given size, and the multiplication
      by [APPROX_FRAGMENTATION_COEF] in [double] arithmetic *)
  sizeof_vector : N;
  sizeof_leftover_entry : N;
  vector_capacity : nat -> N;
  leftovers_capacity : nat -> nat -> N;
  mul_fragmentation_coef : N -> N;
  (** [rule_utils::REVERSE_DNS_DOMAIN_SUFFIX] and
      [rule_utils::REVERSE_IPV6_DNS_DOMAIN_SUFFIX], constants of
      [rule_utils.h] *)
  REVERSE_DNS_DOMAIN_SUFFIX : str;
  REVERSE_IPV6_DNS_DOMAIN_SUFFIX : str;
}.

(** ** Rule parsing ([rule_utils.cpp]) *)

Section RuleUtils.
Context `{Externals}.

Definition MODIFIERS_MARKER : ascii := "$".
Definition MODIFIERS_DELIMITER : ascii := ",".
Definition EXCEPTION_MARKER : str := lit "@@".
Definition SKIPPABLE_PREFIXES : list str :=
  [lit "https://"; lit "http://"; lit "http*://"; lit "ws://"; lit "wss://";
   lit "ws*://"; lit "://"; lit "//"].
Definition SPECIAL_SUFFIXES : list str := [lit "|"; lit "^"; lit "/"].
Definition SPECIAL_REGEX_CHARACTERS : str := lit "\^$*+?.()|[]{}".

Definition SHORTCUT_REGEXES : list str :=
  [lit "([^\\]*)\([^\\]*\)"; lit "([^\\]*)\{[^\\]*\}"; lit "([^\\]*)\[[^\\]*\]";
   lit "([^\\]*)\[a-zA-Z]"].

Definition MAX_DOMAIN_LENGTH : nat := 255.
Definition MAX_LABEL_LENGTH : nat := 63.
Definition MAX_IPADDR_LENTH : nat := 45.

(** Updates of the nested fields of a [rule_utils::rule]. *)
Definition set_text (r : rule) (t : str) : rule :=
  {| public_part := {| filter_id := filter_id (public_part r); text := t;
                       content := content (public_part r) |};
     match_method := match_method r; matching_parts := matching_parts r;
     dnstype := dnstype r |}.

Definition set_content (r : rule) (c : rule_content) : rule :=
  {| public_part := {| filter_id := filter_id (public_part r);
                       text := text (public_part r); content := c |};
     match_method := match_method r; matching_parts := matching_parts r;
     dnstype := dnstype r |}.

Definition set_match (r : rule) (m : match_method_id) (parts : list str) : rule :=
  {| public_part := public_part r; match_method := m; matching_parts := parts;
     dnstype := dnstype r |}.

Definition set_dnstype (r : rule) (d : dnstype_info) : rule :=
  {| public_part := public_part r; match_method := match_method r;
     matching_parts := matching_parts r; dnstype := Some d |}.

(** [std::get<adblock_rule_info>(rule.public_part.content)]; the sources
    only call it on adblock rules. *)
Definition rule_info (r : rule) : adblock_rule_info :=
  default {| props := 0; params_dnsrewrite := None |} (adblock_info (public_part r)).

Definition set_prop (r : rule) (p : adblock_rule_props) : rule :=
  set_content r (adblock_content
    {| props := props_set (props (rule_info r)) p;
       params_dnsrewrite := params_dnsrewrite (rule_info r) |}).

(** [rule r = { .public_part = { .content = adblock_rule_info{} } }]; the
    remaining members are value-initialised. *)
Definition new_adblock_rule : rule :=
  {| public_part := {| filter_id := 0; text := [];
                       content := adblock_content {| props := 0; params_dnsrewrite := None |} |};
     match_method := MMID_EXACT; matching_parts := []; dnstype := None |}.

Definition pattern_exact (pattern_mode : N) : bool :=
  N.eqb pattern_mode (N.lor MPM_LINE_START_ASSERTED MPM_LINE_END_ASSERTED).

Definition pattern_subdomains (pattern_mode : N) : bool :=
  N.eqb pattern_mode (N.lor MPM_DOMAIN_START_ASSERTED MPM_LINE_END_ASSERTED).

Definition check_domain_pattern_labels (domain : str) : bool :=
  forallb (fun label => length label <=? MAX_LABEL_LENGTH) (split_by domain ".").

Definition check_domain_pattern_charset (domain : str) : bool :=
  sv.none_of (fun c => negb (isalpha c || isdigit c || Ascii.eqb c "." || Ascii.eqb c "-"
                             || Ascii.eqb c "*" || Ascii.eqb c "_")) domain.

Definition is_valid_domain_pattern (domain : str) : bool :=
  (length domain <=? MAX_DOMAIN_LENGTH)
  && check_domain_pattern_charset domain
  && check_domain_pattern_labels domain.

Definition is_valid_ip_pattern (s : str) : bool :=
  if bool_decide (s = []) || (MAX_IPADDR_LENTH <? length s) then false
  else sv.none_of (fun c => negb (isxdigit c || Ascii.eqb c "." || Ascii.eqb c ":"
                                  || Ascii.eqb c "[" || Ascii.eqb c "]" || Ascii.eqb c "*")) s.

Definition is_ip (s : str) : bool := str_to_socket_address_valid s.

Definition has_char (s : str) (c : ascii) : bool :=
  bool_decide (is_Some (sv.find_char s c)).

Definition is_domain_name (s : str) : bool :=
  negb (bool_decide (s = []))
  && negb (is_ip s)
  && negb (sv.back_is s ".")
  && negb (sv.front_is s ".")
  && is_valid_domain_pattern s
  && negb (has_char s "*").

(** The loop of [parse_host_file_rule] over [parts[1..]]: [None] when a
    token is rejected, else the tokens appended to [acc]. *)
Fixpoint host_rule_parts (domains : list str) (acc : list str) : option (list str) :=
  match domains with
  | [] => Some acc
  | domain :: rest =>
    if bool_decide (domain = []) then host_rule_parts rest acc
    else if negb (is_valid_domain_pattern domain) && negb (has_char domain "*") then None
    else host_rule_parts rest (acc ++ [to_lower domain])
  end.

Definition parse_host_file_rule (s : str) : option rule :=
  let s := rtrim (match sv.find_char s "#" with
                  | Some n => sv.substr s 0 n
                  | None => s
                  end) in
  let parts := split_by_any_of s [" "%char; "009"%char] in
  match parts with
  | ip0 :: ((_ :: _) as domains) =>
    if negb (is_valid_ip4 ip0) && negb (is_valid_ip6 ip0) then None
    else match host_rule_parts domains [] with
         | None => None
         | Some [] => None
         | Some mparts =>
           Some {| public_part := {| filter_id := 0; text := s;
                                     content := etc_hosts_content {| ip := ip0 |} |};
                   match_method := MMID_SUBDOMAINS; matching_parts := mparts;
                   dnstype := None |}
         end
  | _ => None
  end.

Definition mem_N (x : N) (l : list N) : bool := existsb (N.eqb x) l.

(** [list.end() != std::unique(list.begin(), list.end())]: two adjacent
    elements are equal. *)
Fixpoint has_adjacent_equal (l : list N) : bool :=
  match l with
  | x :: ((y :: _) as tl) => N.eqb x y || has_adjacent_equal tl
  | _ => false
  end.

(** The loop of [parse_dnstype_modifier] over the type names. *)
Fixpoint dnstype_types (names : list str) (enabled_types excluded_types : list N)
    : option (list N * list N) :=
  match names with
  | [] => Some (enabled_types, excluded_types)
  | t :: rest =>
    let enabled := negb (sv.front_is t "~") in
    let t := if enabled then t else sv.remove_prefix t 1 in
    let type := ldns_get_rr_type_by_name t in
    if N.eqb type 0 then None
    else if enabled then
      if mem_N type excluded_types then None
      else let enabled_types := enabled_types ++ [type] in
           if has_adjacent_equal enabled_types then None
           else dnstype_types rest enabled_types excluded_types
    else
      if mem_N type enabled_types then None
      else let excluded_types := excluded_types ++ [type] in
           if has_adjacent_equal excluded_types then None
           else dnstype_types rest enabled_types excluded_types
  end.

Definition parse_dnstype_modifier (r : rule) (params_str : str) (mi : match_info)
    : option rule :=
  if bool_decide (params_str = []) && negb (props_test (props (rule_info r)) DARP_EXCEPTION)
  then None
  else
    let names := split_by params_str "|" in
    if bool_decide (names = []) && negb (bool_decide (params_str = [])) then None
    else match dnstype_types names [] [] with
         | None => None
         | Some (enabled_types, excluded_types) =>
           Some (set_dnstype r
                   (if negb (bool_decide (enabled_types = []))
                    then {| types := enabled_types; mode := DTMM_ENABLE |}
                    else {| types := excluded_types; mode := DTMM_EXCLUDE |}))
         end.

Record supported_modifier_descriptor := {
  name : str;
  id : adblock_rule_props;
  parse_modifier_params : option (rule -> str -> match_info -> option rule);
}.

Definition SUPPORTED_MODIFIERS : list supported_modifier_descriptor :=
  [ {| name := lit "important"; id := DARP_IMPORTANT; parse_modifier_params := None |};
    {| name := lit "badfilter"; id := DARP_BADFILTER; parse_modifier_params := None |};
    {| name := lit "dnstype"; id := DARP_DNSTYPE;
       parse_modifier_params := Some parse_dnstype_modifier |};
    {| name := lit "dnsrewrite"; id := DARP_DNSREWRITE;
       parse_modifier_params := Some parse_dnsrewrite_modifier |} ].

(** The inner loop of [extract_modifiers] over the descriptors. *)
Inductive modifier_lookup :=
  | ML_error                                   (* [return false] *)
  | ML_unknown                                 (* [found == nullptr] *)
  | ML_found (descr : supported_modifier_descriptor) (r : rule).

Fixpoint find_modifier (descrs : list supported_modifier_descriptor)
    (r : rule) (modifier : str) (mi : match_info) : modifier_lookup :=
  match descrs with
  | [] => ML_unknown
  | descr :: rest =>
    if negb (sv.starts_with modifier (name descr)) then find_modifier rest r modifier mi
    else
      let longer := length (name descr) <? length modifier in
      if longer && negb (sv.at_is modifier (length (name descr)) "=")
      then find_modifier rest r modifier mi
      else
        match parse_modifier_params descr with
        | None => if longer then ML_error else ML_found descr r
        | Some parse_params =>
          if length modifier =? length (name descr) + 1 then ML_error
          else
            let start_pos := if longer then length (name descr) + 1 else length (name descr) in
            match parse_params r (sv.substr_from modifier start_pos) mi with
            | None => ML_error
            | Some r' => ML_found descr r'
            end
        end
  end.

(** The outer loop of [extract_modifiers]. *)
Fixpoint extract_modifiers_loop (modifiers : list str) (r : rule) (mi : match_info)
    : option rule :=
  match modifiers with
  | [] => Some r
  | modifier :: rest =>
    match find_modifier SUPPORTED_MODIFIERS r modifier mi with
    | ML_error | ML_unknown => None
    | ML_found found r' =>
      if props_test (props (rule_info r')) (id found) then None
      else extract_modifiers_loop rest (set_prop r' (id found)) mi
    end
  end.

Definition extract_modifiers (r : rule) (modifiers_str : str) (mi : match_info)
    : option rule :=
  if bool_decide (modifiers_str = []) then Some r
  else extract_modifiers_loop (split_by modifiers_str MODIFIERS_DELIMITER) r mi.

Definition check_regex (s : str) : bool :=
  (1 <? length s) && sv.front_is s "/" && sv.back_is s "/".

Definition remove_skippable_prefixes (rule : str) : N * str :=
  match List.find (sv.starts_with rule) SKIPPABLE_PREFIXES with
  | Some prefix => (MPM_DOMAIN_START_ASSERTED, sv.remove_prefix rule (length prefix))
  | None => (0%N, rule)
  end.

Definition remove_special_prefixes (rule : str) : N * str :=
  if sv.starts_with rule (lit "||") then (MPM_DOMAIN_START_ASSERTED, sv.remove_prefix rule 2)
  else if sv.front_is rule "|" then (MPM_LINE_START_ASSERTED, sv.remove_prefix rule 1)
  else (0%N, rule).

(** [v.erase(iter)] for the iterator that [std::find_if] returned. *)
Fixpoint erase_first (x : str) (l : list str) : list str :=
  match l with
  | [] => []
  | y :: l' => if bool_decide (x = y) then l' else y :: erase_first x l'
  end.

(** The [while] loop of [remove_special_suffixes]: each round erases one
    element of [suffixes_to_remove], so [fuel = suffixes_to_remove.size()]
    rounds are enough. *)
Fixpoint remove_special_suffixes_loop (fuel : nat) (suffixes_to_remove : list str)
    (rule : str) (r : N) : N * str :=
  match fuel with
  | 0 => (r, rule)
  | S fuel' =>
    match List.find (sv.ends_with rule) suffixes_to_remove with
    | None => (r, rule)
    | Some suffix =>
      remove_special_suffixes_loop fuel'
        (erase_first suffix suffixes_to_remove)
        (sv.remove_suffix rule (length suffix)) MPM_LINE_END_ASSERTED
    end
  end.

Definition remove_special_suffixes (rule : str) : N * str :=
  remove_special_suffixes_loop (length SPECIAL_SUFFIXES) SPECIAL_SUFFIXES rule 0.

Definition extract_match_info (rule : str) : match_info :=
  if check_regex rule then
    {| mi_text := sv.remove_suffix (sv.remove_prefix rule 1) 1;
       is_regex_rule := true; has_wildcard := false; pattern_mode := 0 |}
  else
    let '(m1, t) := remove_special_prefixes rule in
    let '(m2, t) := remove_skippable_prefixes t in
    let pm := N.lor m1 m2 in
    let pm := if negb (N.eqb (N.land pm MPM_DOMAIN_START_ASSERTED) 0)
                 && negb (N.eqb (N.land pm MPM_LINE_START_ASSERTED) 0)
              then N.lxor pm MPM_DOMAIN_START_ASSERTED else pm in
    let '(m3, t) := remove_special_suffixes t in
    let pm := N.lor pm m3 in
    let '(m4, t) := remove_port t in
    let pm := N.lor pm m4 in
    {| mi_text := t; is_regex_rule := false; has_wildcard := has_char t "*";
       pattern_mode := pm |}.

Definition is_host_rule (s : str) : bool :=
  match split_by_any_of s [" "%char; "009"%char] with
  | ip0 :: _ :: _ => is_valid_ip4 ip0 || is_valid_ip6 ip0
  | _ => false
  end.

Definition make_exact_domain_name_rule (name : str) : rule :=
  {| public_part := {| filter_id := 0; text := name;
                       content := adblock_content {| props := 0; params_dnsrewrite := None |} |};
     match_method := MMID_EXACT; matching_parts := [to_lower name]; dnstype := None |}.

Definition SPEC_SEQS : list str :=
  [lit "\n"; lit "\r"; lit "\t"; lit "\d"; lit "\D"; lit "\w"; lit "\W"; lit "\s"; lit "\S";
   lit "\b"; lit "\B"; lit "\<"; lit "\>"; lit "\A"; lit "\Z"].

Definition skip_special_chars (s : str) : str :=
  if bool_decide (s = []) then s
  else
    let seq := default [] (List.find (sv.starts_with s) SPEC_SEQS) in
    sv.remove_prefix s (Nat.max (length seq) 1).

(** The [while] loop of [extract_regex_shortcuts]: every round removes at
    least one character, so [fuel = text.length()] rounds are enough. *)
Fixpoint extract_regex_shortcuts_loop (fuel : nat) (text : str) (shortcuts : list str)
    : list str :=
  match fuel with
  | 0 => shortcuts
  | S fuel' =>
    if bool_decide (text = []) then shortcuts
    else
      let seek := sv.find_first_of text SPECIAL_REGEX_CHARACTERS in
      let shortcuts :=
        match seek with
        | Some 0 => shortcuts
        | Some n => shortcuts ++ [sv.substr text 0 n]
        | None => shortcuts ++ [text]
        end in
      let tail := sv.substr_from text (Nat.min (length text) (default (length text) seek)) in
      extract_regex_shortcuts_loop fuel' (skip_special_chars tail) shortcuts
  end.

Definition extract_regex_shortcuts (text : str) : list str :=
  extract_regex_shortcuts_loop (length text) text [].

Definition is_too_wide_rule (info : adblock_rule_info) (mi : match_info) : bool :=
  negb (props_test (props info) DARP_DNSTYPE)
  && negb (props_test (props info) DARP_DNSREWRITE)
  && ((length (mi_text mi) <? 3)
      || bool_decide (sv.find_first_not_of (mi_text mi) (lit ".*") = None)).

(** [rule_utils::get_regex] *)
Definition get_regex (r : rule) : str :=
  let text := text (public_part r) in
  let text := if sv.starts_with text EXCEPTION_MARKER
              then sv.remove_prefix text (length EXCEPTION_MARKER) else text in
  let text := if negb (sv.front_is text "/") || negb (sv.back_is text "/")
              then sv.view text (fst (rsplit2_by text MODIFIERS_MARKER)) else text in
  let info := extract_match_info text in
  if is_regex_rule info then mi_text info
  else
    let assert_line_start := negb (N.eqb (N.land (pattern_mode info) MPM_LINE_START_ASSERTED) 0) in
    let assert_domain_start := negb (N.eqb (N.land (pattern_mode info) MPM_DOMAIN_START_ASSERTED) 0) in
    let assert_end := negb (N.eqb (N.land (pattern_mode info) MPM_LINE_END_ASSERTED) 0) in
    let re := (if assert_line_start then lit "^"
               else if assert_domain_start then lit "^(*.)?" else [])
              ++ mi_text info ++ (if assert_end then lit "$" else []) in
    flat_map (fun ch => if Ascii.eqb ch "*" then ["."%char; ch]
                        else if Ascii.eqb ch "." then ["\"%char; ch]
                        else [ch]) re.

Definition SPECIAL_CHAR_PLACEHOLDER : str := lit "...".

(** The head of [parse_adblock_rule]: the exception marker is taken off
    and, unless what is left is a regex, the modifiers are split off at
    the last marker.  The result is [is_exception], the pattern and the
    modifiers ([parts[0]] and [parts[1]]). *)
Definition adblock_split (s : str) : bool * str * str :=
  let is_exception := sv.starts_with s EXCEPTION_MARKER in
  let s := if is_exception then sv.remove_prefix s (length EXCEPTION_MARKER) else s in
  if negb (check_regex s)
  then (is_exception, sv.view s (fst (rsplit2_by s MODIFIERS_MARKER)),
        sv.view s (snd (rsplit2_by s MODIFIERS_MARKER)))
  else (is_exception, s, []).

Definition parse_adblock_rule (s : str) : option rule :=
  let orig_str := s in
  let '(is_exception, pattern, modifiers) := adblock_split s in
  let mi := extract_match_info pattern in
  let s := mi_text mi in
  if negb (is_regex_rule mi) && negb (is_valid_domain_pattern s) && negb (is_valid_ip_pattern s)
  then None
  else
    let r := set_content new_adblock_rule
               (adblock_content {| props := props_set_to 0 DARP_EXCEPTION is_exception;
                                   params_dnsrewrite := None |}) in
    match extract_modifiers r modifiers mi with
    | None => None
    | Some r =>
      if is_too_wide_rule (rule_info r) mi then None
      else
        let r := set_text r orig_str in
        if props_test (props (rule_info r)) DARP_BADFILTER then Some r
        else
          let exact_pattern := pattern_exact (pattern_mode mi) in
          let subdomains_pattern := pattern_subdomains (pattern_mode mi) in
          let addr := socket_address_text (mi_text mi) in
          if negb (is_regex_rule mi) && exact_pattern && bool_decide (is_Some addr)
          then Some (set_match r MMID_EXACT [default [] addr])
          else if negb (is_regex_rule mi) && negb (has_wildcard mi)
                  && (exact_pattern || subdomains_pattern)
          then Some (set_match r (if exact_pattern then MMID_EXACT else MMID_SUBDOMAINS)
                               [to_lower s])
          else if negb (is_regex_rule mi) && N.eqb (pattern_mode mi) 0
          then Some (set_match r MMID_SHORTCUTS (map to_lower (split_by s "*")))
          else
            let r :=
              if has_char s "?" then set_match r MMID_REGEX (matching_parts r)
              else
                let text :=
                  fold_left (fun text re =>
                               if regex_is_valid re
                               then regex_replace re text (lit "$1" ++ SPECIAL_CHAR_PLACEHOLDER)
                               else text)
                            SHORTCUT_REGEXES s in
                let shortcuts := extract_regex_shortcuts text in
                if negb (bool_decide (shortcuts = []))
                then set_match r MMID_SHORTCUTS_AND_REGEX (map to_lower shortcuts)
                else set_match r MMID_REGEX (matching_parts r) in
            if negb (regex_is_valid (get_regex r)) then None else Some r
    end.

(** [rule_utils::parse] *)
Definition parse (s : str) : option rule :=
  if is_comment s then None
  else
    let s := trim s in
    if bool_decide (s = []) then None
    else if is_domain_name s then Some (make_exact_domain_name_rule s)
    else if is_host_rule s then parse_host_file_rule s
    else parse_adblock_rule s.

(** [rule_utils::get_text_without_badfilter].  The two views that
    [rsplit2_by] returns point into [r.text]; [prefix] starts where the
    first view starts and spans [parts[0].length() + 1 + bf_pos] characters
    of [r.text], [suffix] starts [after_bf_pos] characters into the second
    view.  [find] gives the first place in the second view where the
    characters of the name occur.  When there is none [bf_pos] is [npos],
    the largest [size_t], and the sizes wrap around: [after_bf_pos] is 8,
    [prefix] is the first view and [suffix] is the second view from its
    ninth character on; for a second view of fewer than 8 characters the
    length of [suffix] wraps as well and the view runs past the end of the
    text, of which the model keeps what the text holds. *)
Definition get_text_without_badfilter (r : dnsfilter_rule) : str :=
  let BADFILTER_MODIFIER := lit "badfilter" in
  let '(part0, part1) := rsplit2_by (text r) MODIFIERS_MARKER in
  let '(prefix, suffix) :=
    match sv.find (sv.view (text r) part1) BADFILTER_MODIFIER 0 with
    | Some bf_pos =>
      let after_bf_pos := bf_pos + length BADFILTER_MODIFIER in
      (sv.view (text r) (fst part0, snd part0 + 1 + bf_pos),
       sv.view (text r) (fst part1 + after_bf_pos, snd part1 - after_bf_pos))
    | None =>
      let npos := (2 ^ 64 - 1)%Z in
      let after_bf_pos := to_size_t (npos + Z.of_nat (length BADFILTER_MODIFIER)) in
      (sv.view (text r)
         (fst part0, N.to_nat (to_size_t (Z.of_nat (snd part0) + 1 + npos))),
       sv.view (text r)
         (fst part1 + N.to_nat after_bf_pos,
          N.to_nat (to_size_t (Z.of_nat (snd part1) - Z.of_N after_bf_pos))))
    end in
  if sv.back_is prefix "," || (bool_decide (suffix = []) && sv.back_is prefix "$")
  then sv.remove_suffix prefix 1 ++ suffix
  else if sv.front_is suffix "," && sv.back_is prefix "$"
  then prefix ++ sv.remove_prefix suffix 1
  else prefix ++ suffix.

End RuleUtils.

(** ** Reading a file by lines ([file.cpp])

    An open file is given by its content.  [file::read] is taken to fill
    the buffer as far as the file goes and never to fail, so its result
    [r] is the number of bytes left, capped by the buffer size. *)

Section File.
Context `{Externals}.

Definition MAX_CHUNK_SIZE : nat := 64 * 1024.
Definition CHUNK_SIZE : nat := 4 * 1024.

Definition is_newline (c : ascii) : bool := Ascii.eqb c "013" || Ascii.eqb c "010".

(** The [for] loop of [for_each_line] over one buffer of [r] bytes.  The
    result is [inl (line, line_idx, arg)] when the loop runs to its end and
    [inr arg] when the action returns [false] (the function then returns
    0).  The action takes a [uint32_t] offset. *)
Fixpoint for_each_line_buffer {A : Type} (action : N -> str -> A -> bool * A)
    (buffer : str) (i file_idx : nat) (line : str) (line_idx : nat) (arg : A)
    : (str * nat * A) + A :=
  match buffer with
  | [] => inl (line, line_idx, arg)
  | c :: buffer' =>
    if negb (is_newline c)
    then for_each_line_buffer action buffer' (S i) file_idx (line ++ [c]) line_idx arg
    else
      let '(go_on, arg) := action (to_uint32 (N.of_nat line_idx)) (trim line) arg in
      if go_on : bool
      then for_each_line_buffer action buffer' (S i) file_idx [] (file_idx + i + 1) arg
      else inr arg
  end.

(** The [while] loop of [for_each_line] over the reads; [rest] is the
    part of the file after the read position.  Every round with [0 < r]
    consumes at least one byte, so [fuel = 1 + file size] rounds are
    enough. *)
Fixpoint for_each_line_reads {A : Type} (fuel : nat) (action : N -> str -> A -> bool * A)
    (chunk_size : nat) (rest : str) (file_idx : nat) (line : str) (line_idx : nat) (arg : A)
    : (str * nat * A) + A :=
  match fuel with
  | 0 => inl (line, line_idx, arg)
  | S fuel' =>
    let buffer := take chunk_size rest in
    let r := length buffer in
    if r =? 0 then inl (line, line_idx, arg)
    else
      match for_each_line_buffer action buffer 0 file_idx line line_idx arg with
      | inl (line, line_idx, arg) =>
        for_each_line_reads fuel' action chunk_size (drop chunk_size rest)
          (file_idx + r) line line_idx arg
      | inr arg => inr arg
      end
  end.

(** [ag::file::for_each_line]: the returned [int] and the argument as the
    calls of the action leave it. *)
Definition for_each_line {A : Type} (content : str)
    (action : N -> str -> A -> bool * A) (arg : A) : Z * A :=
  let file_size := to_int (Z.of_nat (length content)) in
  if (file_size <? 0)%Z then ((-1)%Z, arg)
  else
    let chunk_size := Nat.min MAX_CHUNK_SIZE (Z.to_nat file_size) in
    match for_each_line_reads (S (length content)) action chunk_size content 0 [] 0 arg with
    | inr arg => (0%Z, arg)
    | inl (line, line_idx, arg) =>
      if (N.of_nat line_idx <? to_size_t (file_size - 1))%N
      then (0%Z, snd (action (to_uint32 (N.of_nat line_idx)) (trim line) arg))
      else (0%Z, arg)
    end.

(** The scan of one buffer in [read_line]: the bytes before the first
    line break, and whether one was found ([i < r]). *)
Fixpoint read_line_buffer (buffer : str) : str * bool :=
  match buffer with
  | [] => ([], false)
  | c :: buffer' =>
    if is_newline c then ([], true)
    else let '(l, found) := read_line_buffer buffer' in (c :: l, found)
  end.

Fixpoint read_line_reads (fuel : nat) (rest : str) (line : str) : str :=
  match fuel with
  | 0 => line
  | S fuel' =>
    let buffer := take CHUNK_SIZE rest in
    if length buffer =? 0 then line
    else
      let '(l, found) := read_line_buffer buffer in
      if found : bool then line ++ l
      else read_line_reads fuel' (drop CHUNK_SIZE rest) (line ++ buffer)
  end.

(** [ag::file::set_position]: the result of [lseek(f, pos, SEEK_SET)],
    narrowed to [int].  [lseek] takes the offset as a signed 64-bit
    number: it returns -1 for a negative one and the offset itself
    otherwise, also behind the end of the file. *)
Definition set_position (pos : N) : Z :=
  if (pos <? 2 ^ 63)%N then to_int (Z.of_N pos) else to_int (-1).

(** [ag::file::read_line]: no line when [set_position] returns a negative
    number; else the reads start at the offset. *)
Definition read_line (content : str) (pos : N) : option str :=
  if (set_position pos <? 0)%Z then None
  else
    let rest := drop (N.to_nat pos) content in
    Some (trim (read_line_reads (S (length rest)) rest [])).

(** The calls that a line iterator makes on a list of lines, up to the
    first one for which the action returns [false]. *)
Fixpoint iterate_lines {A : Type} (action : N -> str -> A -> bool * A)
    (lines : list (N * str)) (arg : A) : bool * A :=
  match lines with
  | [] => (true, arg)
  | (idx, line) :: rest =>
    let '(go_on, arg) := action idx line arg in
    if go_on : bool then iterate_lines action rest arg else (false, arg)
  end.

(** Modelled from the spec: [ag::utils::for_each_line], the line iterator
    over an in-memory blob, is outside the sources at hand.  Loading
    "consumes a source line-by-line": the action is called on the lines of
    the blob in order ([blob_lines]) until it returns [false]. *)
Definition utils_for_each_line {A : Type} (data : str)
    (action : N -> str -> A -> bool * A) (arg : A) : Z * A :=
  (0%Z, snd (iterate_lines action (blob_lines data) arg)).

(** The lines of a file as [for_each_line] cuts them: the offset and the
    raw bytes of every line that a line break ends, and the offset
    and bytes of the unfinished last line. *)
Fixpoint file_lines_from (bytes : str) (pos : nat) (line : str) (line_idx : nat)
    : list (nat * str) * (nat * str) :=
  match bytes with
  | [] => ([], (line_idx, line))
  | c :: bytes' =>
    if negb (is_newline c) then file_lines_from bytes' (S pos) (line ++ [c]) line_idx
    else let '(ls, last) := file_lines_from bytes' (S pos) [] (S pos) in
         ((line_idx, line) :: ls, last)
  end.

Definition file_lines (content : str) : list (nat * str) * (nat * str) :=
  file_lines_from content 0 [] 0.

End File.

(** ** The filter ([filter.cpp], [filter.h]) *)

Inductive load_result := LR_OK | LR_ERROR | LR_MEM_LIMIT_REACHED.

(** [ag::dnsfilter::filter_params], with the [mtime] that [load] stores. *)
Record filter_params := {
  id_ : Z;
  data : str;
  in_memory : bool;
  mtime : Z;
}.

Record leftover_entry := {
  shortcuts : list str;
  regex : option str;
  file_idx : N;
}.

(** [filter::impl]; [leftovers_reserved] is the capacity that [load]
    requested for [leftovers_table]. *)
Record impl := {
  unique_domains_table : gmap N N;
  domains_table : gmap N (list N);
  shortcuts_table : gmap N (list N);
  leftovers_table : list leftover_entry;
  leftovers_reserved : nat;
  badfilter_table : gmap N N;
  approx_mem : N;
}.

Record filter := {
  params : filter_params;
  pimpl : impl;
}.

Record load_line_arg := {
  la_filter : impl;
  la_approx_mem : N;
  la_mem_limit : N;
  la_result : load_result;
}.

Record rules_stat := {
  simple_domain_rules : nat;
  shortcut_rules : nat;
  leftover_rules : nat;
  badfilter_rules : nat;
}.

Record match_context := {
  host : str;
  subdomains : list str;
  matched_rules : list dnsfilter_rule;
  rr_type : N;
  reverse_lookup_fqdn : str;
}.

(** [match_arg]: the context, the content behind [file] ([None] for
    [INVALID_HANDLE]) and the [outdated] flag; the filter [f] is passed
    along separately since no search changes it. *)
Record match_arg := {
  ctx : match_context;
  file : option str;
  outdated : bool;
}.

(** The files as the program sees them: [fs_open path] is the content
    when [ag::file::open] succeeds, [fs_mtime path] is the result of
    [ag::file::get_modification_time], 0 when [stat] fails. *)
Record file_system := {
  fs_open : str -> option str;
  fs_mtime : str -> Z;
}.

Inductive adblock_modifiers_match_status :=
  | AMMS_NOT_MATCHED | AMMS_MATCH_CANDIDATE | AMMS_MATCHED_SURELY.

#[global] Instance load_result_eq_dec : EqDecision load_result.
Proof. solve_decision. Defined.
#[global] Instance adblock_modifiers_match_status_eq_dec :
  EqDecision adblock_modifiers_match_status.
Proof. solve_decision. Defined.

Section Filter.
Context `{Externals}.

Definition APPROX_COMPILED_REGEX_BYTES : N := 1024.
Definition SHORTCUT_LENGTH : nat := 5.
Definition sizeof_uint32_t : N := 4.

Definition hash32 (s : str) : N := to_uint32 (hash s).
Definition wrap_size_t (n : Z) : N := to_size_t n.

(** [impl()] *)
Definition new_impl : impl :=
  {| unique_domains_table := ∅; domains_table := ∅; shortcuts_table := ∅;
     leftovers_table := []; leftovers_reserved := 0; badfilter_table := ∅;
     approx_mem := 0 |}.

Definition count_rules (_ : N) (line : str) (stat : rules_stat) : bool * rules_stat :=
  match parse line with
  | None => (true, stat)
  | Some rule =>
    if adblock_has_prop (public_part rule) DARP_BADFILTER
    then (true, {| simple_domain_rules := simple_domain_rules stat;
                   shortcut_rules := shortcut_rules stat;
                   leftover_rules := leftover_rules stat;
                   badfilter_rules := S (badfilter_rules stat) |})
    else
      match match_method rule with
      | MMID_EXACT | MMID_SUBDOMAINS =>
        (true, {| simple_domain_rules := simple_domain_rules stat + length (matching_parts rule);
                  shortcut_rules := shortcut_rules stat;
                  leftover_rules := leftover_rules stat;
                  badfilter_rules := badfilter_rules stat |})
      | MMID_SHORTCUTS | MMID_SHORTCUTS_AND_REGEX =>
        (true, {| simple_domain_rules := simple_domain_rules stat;
                  shortcut_rules := S (shortcut_rules stat);
                  leftover_rules := leftover_rules stat;
                  badfilter_rules := badfilter_rules stat |})
      | MMID_REGEX =>
        (true, {| simple_domain_rules := simple_domain_rules stat;
                  shortcut_rules := shortcut_rules stat;
                  leftover_rules := S (leftover_rules stat);
                  badfilter_rules := badfilter_rules stat |})
      end
  end.

Definition check_filter_outdated (fs : file_system) (f : filter) : bool :=
  if in_memory (params f) then false
  else
    let file_mtime := fs_mtime fs (data (params f)) in
    if (file_mtime =? 0)%Z || negb (file_mtime =? mtime (params f))%Z then true else false.

(** The condition of the macro [CHECK_MEM]. *)
Definition CHECK_MEM (a : load_line_arg) (approx_rule_mem : N) : bool :=
  negb (la_mem_limit a =? 0)%N
  && (la_mem_limit a <? wrap_size_t (Z.of_N (la_approx_mem a) + Z.of_N approx_rule_mem))%N.

(** The two exits of [load_line] after a rule was parsed. *)
Definition mem_limit_reached (a : load_line_arg) (self : impl) : bool * load_line_arg :=
  (false, {| la_filter := self; la_approx_mem := la_approx_mem a;
             la_mem_limit := la_mem_limit a; la_result := LR_MEM_LIMIT_REACHED |}).

Definition next_line (a : load_line_arg) (self : impl) (approx_rule_mem : N)
    : bool * load_line_arg :=
  (true, {| la_filter := self;
            la_approx_mem := wrap_size_t (Z.of_N (la_approx_mem a) + Z.of_N approx_rule_mem);
            la_mem_limit := la_mem_limit a; la_result := LR_OK |}).

Definition with_badfilter_table (self : impl) (t : gmap N N) : impl :=
  {| unique_domains_table := unique_domains_table self; domains_table := domains_table self;
     shortcuts_table := shortcuts_table self; leftovers_table := leftovers_table self;
     leftovers_reserved := leftovers_reserved self; badfilter_table := t;
     approx_mem := approx_mem self |}.

Definition with_domain_tables (self : impl) (t : gmap N N * gmap N (list N)) : impl :=
  {| unique_domains_table := fst t; domains_table := snd t;
     shortcuts_table := shortcuts_table self; leftovers_table := leftovers_table self;
     leftovers_reserved := leftovers_reserved self; badfilter_table := badfilter_table self;
     approx_mem := approx_mem self |}.

Definition with_shortcuts_table (self : impl) (t : gmap N (list N)) : impl :=
  {| unique_domains_table := unique_domains_table self; domains_table := domains_table self;
     shortcuts_table := t; leftovers_table := leftovers_table self;
     leftovers_reserved := leftovers_reserved self; badfilter_table := badfilter_table self;
     approx_mem := approx_mem self |}.

Definition with_leftovers_table (self : impl) (t : list leftover_entry) : impl :=
  {| unique_domains_table := unique_domains_table self; domains_table := domains_table self;
     shortcuts_table := shortcuts_table self; leftovers_table := t;
     leftovers_reserved := leftovers_reserved self; badfilter_table := badfilter_table self;
     approx_mem := approx_mem self |}.

Definition with_leftovers_reserved (self : impl) (n : nat) : impl :=
  {| unique_domains_table := unique_domains_table self; domains_table := domains_table self;
     shortcuts_table := shortcuts_table self; leftovers_table := leftovers_table self;
     leftovers_reserved := n; badfilter_table := badfilter_table self;
     approx_mem := approx_mem self |}.

Definition with_approx_mem (self : impl) (n : N) : impl :=
  {| unique_domains_table := unique_domains_table self; domains_table := domains_table self;
     shortcuts_table := shortcuts_table self; leftovers_table := leftovers_table self;
     leftovers_reserved := leftovers_reserved self; badfilter_table := badfilter_table self;
     approx_mem := n |}.

(** The values that [approx_rule_mem] has when [CHECK_MEM] reads it. *)
Definition badfilter_rule_mem : N := (4 * sizeof_uint32_t)%N.

Definition domain_rule_mem (rule : rule) : N :=
  to_size_t (Z.of_nat (length (matching_parts rule)) * 4 * Z.of_N sizeof_uint32_t).

Definition shortcut_rule_mem (self : impl) (hash : N) : N :=
  let '(positions, approx_rule_mem) :=
    match shortcuts_table self !! hash with
    | None =>
      ([], (2 * (sizeof_uint32_t + sizeof_vector + vector_capacity 0 * sizeof_uint32_t))%N)
    | Some positions => (positions, 0%N)
    end in
  let approx_rule_mem :=
    wrap_size_t (Z.of_N approx_rule_mem
                 - Z.of_N (vector_capacity (length positions) * sizeof_uint32_t)) in
  let approx_rule_mem :=
    wrap_size_t (Z.of_N approx_rule_mem
                 + Z.of_N (vector_capacity (S (length positions)) * sizeof_uint32_t)) in
  mul_fragmentation_coef approx_rule_mem.

Definition leftover_rule_mem (self : impl) (entry : leftover_entry) : N :=
  let capacity n := leftovers_capacity (leftovers_reserved self) n in
  let approx_rule_mem :=
    wrap_size_t (0 - Z.of_N (capacity (length (leftovers_table self)) * sizeof_leftover_entry)) in
  let approx_rule_mem :=
    wrap_size_t (Z.of_N approx_rule_mem
                 + Z.of_N (capacity (S (length (leftovers_table self))) * sizeof_leftover_entry)) in
  let approx_rule_mem :=
    fold_left (fun m s => wrap_size_t (Z.of_N m + Z.of_nat (length s)))
              (shortcuts entry) approx_rule_mem in
  let approx_rule_mem :=
    if bool_decide (is_Some (regex entry))
    then wrap_size_t (Z.of_N approx_rule_mem + Z.of_N APPROX_COMPILED_REGEX_BYTES)
    else approx_rule_mem in
  mul_fragmentation_coef approx_rule_mem.

(** The [badfilter] branch of [load_line]. *)
Definition load_badfilter_rule (fidx : N) (rule : rule) (a : load_line_arg)
    : bool * load_line_arg :=
  let self := la_filter a in
  let text := get_text_without_badfilter (public_part rule) in
  let hash := hash32 text in
  let approx_rule_mem := badfilter_rule_mem in
  if CHECK_MEM a approx_rule_mem then mem_limit_reached a self
  else next_line a (with_badfilter_table self (<[hash := fidx]> (badfilter_table self)))
                 approx_rule_mem.

(** The [MMID_EXACT] / [MMID_SUBDOMAINS] case. *)
Definition load_domain_rule (fidx : N) (rule : rule) (a : load_line_arg)
    : bool * load_line_arg :=
  let self := la_filter a in
  let approx_rule_mem := domain_rule_mem rule in
  if CHECK_MEM a approx_rule_mem then mem_limit_reached a self
  else
    let tables :=
      fold_left (fun t d => put_hash_into_tables (hash32 d) fidx (fst t) (snd t))
                (matching_parts rule)
                (unique_domains_table self, domains_table self) in
    next_line a (with_domain_tables self tables) approx_rule_mem.

(** The entry that the leftovers case builds. *)
Definition make_leftover_entry (fidx : N) (rule : rule) : leftover_entry :=
  {| shortcuts := map to_lower (matching_parts rule);
     regex := if bool_decide (match_method rule = MMID_SHORTCUTS) then None
              else Some (get_regex rule);
     file_idx := fidx |}.

(** The leftovers case, also reached by fallthrough: the entry is in the
    table when [CHECK_MEM] runs. *)
Definition load_leftover_rule (fidx : N) (rule : rule) (a : load_line_arg)
    : bool * load_line_arg :=
  let self := la_filter a in
  let entry := make_leftover_entry fidx rule in
  let approx_rule_mem := leftover_rule_mem self entry in
  let self := with_leftovers_table self (leftovers_table self ++ [entry]) in
  if CHECK_MEM a approx_rule_mem then mem_limit_reached a self
  else next_line a self approx_rule_mem.

(** The first part that is long enough for a shortcut. *)
Definition find_shortcut (rule : rule) : option str :=
  List.find (fun part => SHORTCUT_LENGTH <=? length part) (matching_parts rule).

(** The [MMID_SHORTCUTS] / [MMID_SHORTCUTS_AND_REGEX] case: the offset is
    in the table when [CHECK_MEM] runs. *)
Definition load_shortcut_rule (fidx : N) (rule : rule) (a : load_line_arg)
    : bool * load_line_arg :=
  let self := la_filter a in
  match find_shortcut rule with
  | Some sc =>
    let hash := hash32 (sv.substr sc 0 SHORTCUT_LENGTH) in
    let approx_rule_mem := shortcut_rule_mem self hash in
    let positions := default [] (shortcuts_table self !! hash) ++ [fidx] in
    let self := with_shortcuts_table self (<[hash := positions]> (shortcuts_table self)) in
    if CHECK_MEM a approx_rule_mem then mem_limit_reached a self
    else next_line a self approx_rule_mem
  | None => load_leftover_rule fidx rule a
  end.

(** [filter::impl::load_line] *)
Definition load_line (fidx : N) (line : str) (a : load_line_arg) : bool * load_line_arg :=
  match parse line with
  | None => (true, a)
  | Some rule =>
    if adblock_has_prop (public_part rule) DARP_BADFILTER
    then load_badfilter_rule fidx rule a
    else
      match match_method rule with
      | MMID_EXACT | MMID_SUBDOMAINS => load_domain_rule fidx rule a
      | MMID_SHORTCUTS | MMID_SHORTCUTS_AND_REGEX => load_shortcut_rule fidx rule a
      | MMID_REGEX => load_leftover_rule fidx rule a
      end
  end.

(** The line iteration of [load] over the rule source: the open file
    when there is one, the blob otherwise. *)
Definition load_for_each_line {A : Type} (fd : option str) (p : filter_params)
    (action : N -> str -> A -> bool * A) (arg : A) : Z * A :=
  match fd with
  | Some content => for_each_line content action arg
  | None => utils_for_each_line (data p) action arg
  end.

(** [load_line_arg] as [load] sets it up after the counting pass, which
    reserves room in [leftovers_table]. *)
Definition new_load_line_arg (f : impl) (stat : rules_stat) (mem_limit : N) : load_line_arg :=
  {| la_filter := with_leftovers_reserved f
                    (Nat.max (leftovers_reserved f) (leftover_rules stat));
     la_approx_mem := 0; la_mem_limit := mem_limit; la_result := LR_OK |}.

Definition new_rules_stat : rules_stat :=
  {| simple_domain_rules := 0; shortcut_rules := 0; leftover_rules := 0; badfilter_rules := 0 |}.

(** The handle that [load] iterates over: [None] for an in-memory
    source and for a file that cannot be opened. *)
Definition load_fd (fs : file_system) (p : filter_params) : option str :=
  if in_memory p then None else fs_open fs (data p).

(** The argument of the second pass of [load]. *)
Definition load_start (fs : file_system) (this : filter) (p : filter_params) (mem_limit : N)
    : load_line_arg :=
  new_load_line_arg (pimpl this)
    (snd (load_for_each_line (load_fd fs p) p count_rules new_rules_stat)) mem_limit.

(** [filter::load]: the returned pair and the filter afterwards.  The
    [kh_resize] calls do not change the content of the tables. *)
Definition load (fs : file_system) (this : filter) (p : filter_params) (mem_limit : N)
    : (load_result * N) * filter :=
  let fd := load_fd fs p in
  if negb (in_memory p) && bool_decide (fd = None) then ((LR_ERROR, 0%N), this)
  else
    let a := load_start fs this p mem_limit in
    let rc_a := load_for_each_line fd p load_line a in
    let rc := fst rc_a in
    let a := snd rc_a in
    let params' := if (rc =? 0)%Z then p else params this in
    let params' := {| id_ := id_ params'; data := data params'; in_memory := in_memory params';
                      mtime := fs_mtime fs (data p) |} in
    ((la_result a, la_approx_mem a),
     {| params := params'; pimpl := with_approx_mem (la_filter a) (la_approx_mem a) |}).

(** *** Matching *)

Definition match_adblock_modifiers (rule : rule) (ctx : match_context)
    : adblock_modifiers_match_status :=
  let info := rule_info rule in
  if props_test (props info) DARP_BADFILTER then AMMS_MATCHED_SURELY
  else if props_test (props info) DARP_DNSTYPE then
    match dnstype rule with
    | Some dt =>
      match mode dt with
      | DTMM_ENABLE =>
        if mem_N (rr_type ctx) (types dt) then AMMS_MATCH_CANDIDATE else AMMS_NOT_MATCHED
      | DTMM_EXCLUDE =>
        if negb (mem_N (rr_type ctx) (types dt)) then AMMS_MATCH_CANDIDATE else AMMS_NOT_MATCHED
      end
    | None =>
      (* [rule.dnstype.value()] throws; the parser sets [dnstype] together with the property *)
      AMMS_NOT_MATCHED
    end
  else if props_test (props info) DARP_DNSREWRITE then
    match params_dnsrewrite info with
    | Some dnsrewrite =>
      let rt := rr_type ctx in
      if ((dr_rrtype dnsrewrite =? LDNS_RR_TYPE_A)%N && negb (rt =? LDNS_RR_TYPE_A)%N)
         || ((dr_rrtype dnsrewrite =? LDNS_RR_TYPE_AAAA)%N && negb (rt =? LDNS_RR_TYPE_AAAA)%N)
         || ((dr_rrtype dnsrewrite =? LDNS_RR_TYPE_PTR)%N && negb (rt =? LDNS_RR_TYPE_PTR)%N)
         || ((dr_rrtype dnsrewrite =? LDNS_RR_TYPE_CNAME)%N
             && negb (rt =? LDNS_RR_TYPE_A)%N && negb (rt =? LDNS_RR_TYPE_AAAA)%N)
      then AMMS_NOT_MATCHED
      else AMMS_MATCH_CANDIDATE
    | None => AMMS_MATCH_CANDIDATE
    end
  else AMMS_MATCH_CANDIDATE.

Definition str_eqb (a b : str) : bool := bool_decide (a = b).

Definition match_pattern (rule : rule) (host : str) (subdomains : list str) : bool :=
  match match_method rule with
  | MMID_EXACT => existsb (fun part => str_eqb part host) (matching_parts rule)
  | MMID_SUBDOMAINS =>
    existsb (fun part => existsb (fun subdomain => str_eqb subdomain part) subdomains)
            (matching_parts rule)
  | MMID_SHORTCUTS => match_shortcuts (matching_parts rule) host
  | MMID_SHORTCUTS_AND_REGEX =>
    if match_shortcuts (matching_parts rule) host
    then regex_match (get_regex rule) host else false
  | MMID_REGEX => existsb (fun subdomain => regex_match (get_regex rule) subdomain) subdomains
  end.

Definition push_matched (m : match_arg) (r : dnsfilter_rule) : match_arg :=
  {| ctx := {| host := host (ctx m); subdomains := subdomains (ctx m);
               matched_rules := matched_rules (ctx m) ++ [r];
               rr_type := rr_type (ctx m);
               reverse_lookup_fqdn := reverse_lookup_fqdn (ctx m) |};
     file := file m; outdated := outdated m |}.

(** [filter::impl::match_against_line] *)
Definition match_against_line (m : match_arg) (line : str) : bool * match_arg :=
  match parse line with
  | None => (false, m)
  | Some rule =>
    let matched :=
      match adblock_info (public_part rule) with
      | Some _ =>
        match match_adblock_modifiers rule (ctx m) with
        | AMMS_NOT_MATCHED => false
        | AMMS_MATCH_CANDIDATE => match_pattern rule (host (ctx m)) (subdomains (ctx m))
        | AMMS_MATCHED_SURELY => true
        end
      | None => match_pattern rule (host (ctx m)) (subdomains (ctx m))
      end in
    if matched then (true, push_matched m (public_part rule)) else (false, m)
  end.

Definition is_unique_rule (rules : list dnsfilter_rule) (line : str) : bool :=
  forallb (fun rule => negb (str_eqb line (text rule))) rules.

Definition set_outdated (m : match_arg) : match_arg :=
  {| ctx := ctx m; file := file m; outdated := true |}.

Definition set_file (m : match_arg) (content : option str) : match_arg :=
  {| ctx := ctx m; file := content; outdated := outdated m |}.

(** [filter::impl::match_by_file_position] *)
Definition match_by_file_position (fs : file_system) (f : filter) (m : match_arg) (idx : N)
    : match_arg :=
  if negb (in_memory (params f)) then
    if outdated m || check_filter_outdated fs f then set_outdated m
    else
      let m := if bool_decide (file m = None)
               then set_file m (fs_open fs (data (params f))) else m in
      match file m with
      | None => m
      | Some content =>
        match read_line content idx with
        | None => m
        | Some line =>
          if negb (is_unique_rule (matched_rules (ctx m)) line) then m
          else snd (match_against_line m line)
        end
      end
  else
    match utils_read_line (data (params f)) idx with
    | None => m
    | Some line =>
      if negb (is_unique_rule (matched_rules (ctx m)) line) then m
      else snd (match_against_line m line)
    end.

Definition match_positions (fs : file_system) (f : filter) (m : match_arg)
    (positions : list N) : match_arg :=
  fold_left (match_by_file_position fs f) positions m.

Definition search_by_domain (fs : file_system) (f : filter) (m : match_arg) (domain : str)
    : match_arg :=
  let hash := hash32 domain in
  match unique_domains_table (pimpl f) !! hash with
  | Some position => match_by_file_position fs f m position
  | None =>
    match domains_table (pimpl f) !! hash with
    | Some positions => match_positions fs f m positions
    | None => m
    end
  end.

Definition search_by_domains (fs : file_system) (f : filter) (m : match_arg) : match_arg :=
  if outdated m then m
  else fold_left (search_by_domain fs f) (subdomains (ctx m)) m.

(** The windows [{ &host[i], SHORTCUT_LENGTH }] for
    [i <= host.length() - SHORTCUT_LENGTH]. *)
Definition shortcut_windows (host : str) : list str :=
  map (fun i => sv.substr host i SHORTCUT_LENGTH) (seq 0 (length host - SHORTCUT_LENGTH + 1)).

Definition search_by_shortcuts (fs : file_system) (f : filter) (m : match_arg) : match_arg :=
  if (length (host (ctx m)) <? SHORTCUT_LENGTH) || outdated m then m
  else
    fold_left (fun m window =>
                 match shortcuts_table (pimpl f) !! hash32 window with
                 | Some positions => match_positions fs f m positions
                 | None => m
                 end)
              (shortcut_windows (host (ctx m))) m.

Definition search_in_leftovers (fs : file_system) (f : filter) (m : match_arg) : match_arg :=
  if outdated m then m
  else
    fold_left (fun m entry =>
                 if negb (bool_decide (shortcuts entry = []))
                    && negb (match_shortcuts (shortcuts entry) (host (ctx m)))
                 then m
                 else
                   match regex entry with
                   | Some re =>
                     if regex_match re (host (ctx m))
                     then match_by_file_position fs f m (file_idx entry) else m
                   | None => match_by_file_position fs f m (file_idx entry)
                   end)
              (leftovers_table (pimpl f)) m.

(** [filter::impl::search_badfilter_rules].  The range-based [for] fixes
    its end when the loop starts, so the loop visits the rules that
    are in [matched_rules] at that time while the calls append to the same
    vector. *)
Definition search_badfilter_rules (fs : file_system) (f : filter) (m : match_arg)
    : match_arg :=
  if outdated m then m
  else
    fold_left (fun m rule =>
                 match badfilter_table (pimpl f) !! hash32 (text rule) with
                 | Some position => match_by_file_position fs f m position
                 | None => m
                 end)
              (matched_rules (ctx m)) m.

Definition set_filter_id (r : dnsfilter_rule) (i : Z) : dnsfilter_rule :=
  {| filter_id := i; text := text r; content := content r |}.

(** [filter::match]: the returned flag and the context afterwards. *)
Definition filter_match (fs : file_system) (f : filter) (c : match_context)
    : bool * match_context :=
  let m := {| ctx := c; file := None; outdated := false |} in
  let matched_rule_pos := length (matched_rules c) in
  let m := search_by_domains fs f m in
  let m := search_by_shortcuts fs f m in
  let m := search_in_leftovers fs f m in
  let m := search_badfilter_rules fs f m in
  let rules := matched_rules (ctx m) in
  let rules := take matched_rule_pos rules
               ++ map (fun r => set_filter_id r (id_ (params f))) (drop matched_rule_pos rules) in
  (negb (outdated m),
   {| host := host (ctx m); subdomains := subdomains (ctx m); matched_rules := rules;
      rr_type := rr_type (ctx m); reverse_lookup_fqdn := reverse_lookup_fqdn (ctx m) |}).

(** The loop of [filter::create_match_context] that adds the suffixes. *)
Fixpoint add_subdomains (n : nat) (last : str) : list str :=
  match n with
  | 0 => []
  | S n' => let next := snd (split2_by last ".") in next :: add_subdomains n' next
  end.

(** [filter::create_match_context].  The two suffixes are the constants
    of [rule_utils.h] without their last character; [reverse_lookup_fqdn]
    is the host with a dot for a PTR query on a name that ends in one of
    them and not in a dot, and stays empty otherwise. *)
Definition create_match_context (domain : str) (rr : N) : match_context :=
  let host := to_lower domain in
  let n := length (List.filter (fun c => bool_decide (c = "."%char)) host) in
  let n := if 0 <? n then n - 1 else n in
  let suffix := sv.substr REVERSE_DNS_DOMAIN_SUFFIX 0
                  (length REVERSE_DNS_DOMAIN_SUFFIX - 1) in
  let suffix_ipv6 := sv.substr REVERSE_IPV6_DNS_DOMAIN_SUFFIX 0
                       (length REVERSE_IPV6_DNS_DOMAIN_SUFFIX - 1) in
  {| host := host; subdomains := host :: add_subdomains n host; matched_rules := [];
     rr_type := rr;
     reverse_lookup_fqdn :=
       if (rr =? LDNS_RR_TYPE_PTR)%N
          && negb (sv.back_is host ".")
          && (sv.ends_with host suffix || sv.ends_with host suffix_ipv6)
       then host ++ lit "." else [] |}.

End Filter.

(** ** A concrete choice of the helpers

    The theorems below hold for every instance of [Externals].  To run
    the model on concrete rule lists, the helpers are fixed here in their
    plainest form: white space is trimmed at both ends, splitting drops
    empty pieces, an IPv4 literal is four decimal numbers up to 255, the
    hash is a 32-bit multiplicative hash.  No regular expression engine
    is modelled: every pattern is taken as valid and as matching nothing,
    and the examples stay clear of regex rules. *)

Module Reference.

(** Modelled from the spec: [ag::utils::trim] and [ag::utils::rtrim]
    ("empty after trimming") strip the white space at both ends, or at the
    end. *)
Fixpoint ltrim (s : str) : str :=
  match s with
  | c :: s' => if isspace c then ltrim s' else s
  | [] => []
  end.

Definition rtrim (s : str) : str := rev (ltrim (rev s)).
Definition trim (s : str) : str := rtrim (ltrim s).

(** Modelled from the spec: [ag::utils::split_by] and
    [ag::utils::split_by_any_of] cut a string at a delimiter
    ("comma-separated tokens", "whitespace-delimited token", "splitting on
    [*]"); [parse_dnstype_modifier] expects that a string of delimiters
    gives no piece, so empty pieces are dropped. *)
Fixpoint split_on (p : ascii -> bool) (s : str) (piece : str) : list str :=
  match s with
  | [] => [piece]
  | c :: s' => if p c then piece :: split_on p s' [] else split_on p s' (piece ++ [c])
  end.

Definition non_empty (s : str) : bool := negb (bool_decide (s = [])).

Definition split_by (s : str) (delim : ascii) : list str :=
  List.filter non_empty (split_on (Ascii.eqb delim) s []).

Definition split_by_any_of (s : str) (delims : str) : list str :=
  List.filter non_empty (split_on (fun c => sv.mem c delims) s []).

(** Modelled from the spec: [ag::utils::rsplit2_by] splits "at the last
    [$]", [ag::utils::split2_by] at the first delimiter; without the
    delimiter the second part is empty. *)
Definition rsplit2_by (s : str) (delim : ascii) : (nat * nat) * (nat * nat) :=
  match sv.rfind_char s delim with
  | Some seek => ((0, seek), (seek + 1, length s - seek - 1))
  | None => ((0, length s), (length s, 0))
  end.

Definition split2_by (s : str) (delim : ascii) : str * str :=
  match sv.find_char s delim with
  | Some seek => (take seek s, drop (seek + 1) s)
  | None => (s, [])
  end.

(** Modelled from the spec: [ag::utils::is_valid_ip4] and
    [ag::utils::is_valid_ip6] accept "a literal IPv4 or IPv6"; here four
    decimal numbers up to 255, and up to 39 hexadecimal digits and colons
    with two colons or more. *)
Definition decimal (s : str) : N :=
  fold_left (fun n c => (10 * n + (N_of_ascii c - 48))%N) s 0%N.

Definition is_valid_ip4 (s : str) : bool :=
  let pieces := split_on (Ascii.eqb ".") s [] in
  (length pieces =? 4)
  && forallb (fun p => non_empty p && (length p <=? 3) && forallb isdigit p
                       && (decimal p <=? 255)%N) pieces.

Definition is_valid_ip6 (s : str) : bool :=
  forallb (fun c => isxdigit c || Ascii.eqb c ":") s
  && (2 <=? length (List.filter (Ascii.eqb ":") s))
  && (length s <=? 39).

(** Modelled from the spec: [ag::utils::hash] is a "32-bit hash". *)
Definition hash (s : str) : N :=
  fold_left (fun h c => N.lxor (h * 33 mod 2 ^ 32) (N_of_ascii c)) s 5381%N.

(** Modelled from the spec: [ldns_get_rr_type_by_name] on the type names
    that the scenarios use. *)
Definition rr_type_names : list (str * N) :=
  [(lit "A", 1%N); (lit "NS", 2%N); (lit "CNAME", 5%N); (lit "PTR", 12%N);
   (lit "MX", 15%N); (lit "TXT", 16%N); (lit "AAAA", 28%N)].

Definition ldns_get_rr_type_by_name (s : str) : N :=
  match List.find (fun e => bool_decide (fst e = s)) rr_type_names with
  | Some e => snd e
  | None => 0%N
  end.

(** Modelled from the spec: [rule_utils::is_comment], "a comment line
    (prefix [!] or [#], or empty after trimming)". *)
Definition is_comment (s : str) : bool :=
  bool_decide (s = []) || sv.front_is s "!" || sv.front_is s "#".

(** A host name as the value of a rewrite: letters, digits, [-], [_]
    and dots. *)
Definition is_host_name_value (s : str) : bool :=
  non_empty s
  && forallb (fun c => isalpha c || isdigit c || Ascii.eqb c "-" || Ascii.eqb c "_"
                       || Ascii.eqb c ".") s.

(** Modelled from the spec: [rule_utils::parse_dnsrewrite_modifier], for
    the short form [dnsrewrite=<value>] only ("[value] or
    [RCODE;RRTYPE;value]"): an address gives a rewrite of type A or AAAA,
    a host name one of type CNAME ("the rewrite target is of type
    A/AAAA/PTR/CNAME"), as in [example.com$dnsrewrite=ietf.org] of
    [proxy/test/dnsproxy_test.cpp]. *)
Definition parse_dnsrewrite_modifier (r : rule) (params_str : str) (mi : match_info)
    : option rule :=
  let rrtype := if is_valid_ip4 params_str then Some 1%N
                else if is_valid_ip6 params_str then Some 28%N
                else if is_host_name_value params_str then Some 5%N else None in
  match rrtype, content (public_part r) with
  | Some t, adblock_content info =>
    Some {| public_part :=
              {| filter_id := filter_id (public_part r); text := text (public_part r);
                 content := adblock_content
                   {| props := props info;
                      params_dnsrewrite :=
                        Some {| dr_rcode := 0; dr_rrtype := t; dr_value := params_str |} |} |};
            match_method := match_method r; matching_parts := matching_parts r;
            dnstype := dnstype r |}
  | _, _ => None
  end.

(** Modelled from the spec: [ag::utils::read_line] gives the line at an
    offset of the blob ("rule-source lines are re-read on every match by
    offset"), trimmed like the lines of a file. *)
Fixpoint until_newline (s : str) : str :=
  match s with
  | [] => []
  | c :: s' => if Ascii.eqb c "013" || Ascii.eqb c "010" then [] else c :: until_newline s'
  end.

Definition utils_read_line (blob : str) (pos : N) : option str :=
  if (N.of_nat (length blob) <? pos)%N then None
  else Some (trim (until_newline (drop (N.to_nat pos) blob))).

(** Modelled from the spec: the lines of [ag::utils::for_each_line],
    every line of the blob with its offset, trimmed. *)
Fixpoint blob_lines_from (bytes : str) (pos : nat) (line : str) (line_idx : nat)
    : list (N * str) :=
  match bytes with
  | [] => if non_empty line then [(N.of_nat line_idx, trim line)] else []
  | c :: bytes' =>
    if Ascii.eqb c "013" || Ascii.eqb c "010"
    then (N.of_nat line_idx, trim line) :: blob_lines_from bytes' (S pos) [] (S pos)
    else blob_lines_from bytes' (S pos) (line ++ [c]) line_idx
  end.

Definition blob_lines (blob : str) : list (N * str) := blob_lines_from blob 0 [] 0.

(** A vector that doubles its capacity when it is full. *)
Fixpoint next_power_of_two (fuel : nat) (p n : N) : N :=
  match fuel with
  | 0 => p
  | S fuel' => if (n <=? p)%N then p else next_power_of_two fuel' (2 * p) n
  end.

Definition vector_capacity (n : nat) : N :=
  if n =? 0 then 0%N else next_power_of_two n 1 (N.of_nat n).

Definition leftovers_capacity (reserved n : nat) : N :=
  if n <=? reserved then N.of_nat reserved
  else N.max (N.of_nat (2 * reserved)) (vector_capacity n).

(** Modelled from the spec: [rule_utils::REVERSE_DNS_DOMAIN_SUFFIX] and
    [rule_utils::REVERSE_IPV6_DNS_DOMAIN_SUFFIX]; the match context tells
    whether the request is a reverse lookup, and the names of reverse
    lookups end in these two zones. *)
Definition REVERSE_DNS_DOMAIN_SUFFIX : str := lit "in-addr.arpa.".
Definition REVERSE_IPV6_DNS_DOMAIN_SUFFIX : str := lit "ip6.arpa.".

#[global] Instance externals : Externals :=
  Build_Externals
    hash trim rtrim (map tolower) split_by split_by_any_of rsplit2_by split2_by
    is_valid_ip4 is_valid_ip6
    (fun s => is_valid_ip4 s || is_valid_ip6 s)
    (fun s => if is_valid_ip4 s || is_valid_ip6 s then Some s else None)
    ldns_get_rr_type_by_name is_comment parse_dnsrewrite_modifier
    (fun _ => true) (fun _ _ => false) (fun _ text _ => text)
    utils_read_line blob_lines
    24 64 vector_capacity leftovers_capacity (fun n => (n * 3 / 2)%N)
    REVERSE_DNS_DOMAIN_SUFFIX REVERSE_IPV6_DNS_DOMAIN_SUFFIX.

End Reference.

(** ** Notions used to state the properties *)

(** The lines that [ag::file::for_each_line] hands to an action that
    always returns [true], in the order of the calls. *)
Definition record_call (idx : N) (line : str) (calls : list (N * str))
    : bool * list (N * str) :=
  (true, calls ++ [(idx, line)]).

Definition for_each_line_calls `{Externals} (content : str) : list (N * str) :=
  snd (for_each_line content record_call []).

(** The call that [for_each_line] makes for a line of the file. *)
Definition call_of `{Externals} (l : nat * str) : N * str :=
  (to_uint32 (N.of_nat (fst l)), trim (snd l)).

(** The outcome of a loop of [for_each_line] in terms of the outcome of
    the calls made in it. *)
Definition loop_outcome {A : Type} (r : bool * A) (line : str) (line_idx : nat)
    : (str * nat * A) + A :=
  if fst r then inl (line, line_idx, snd r) else inr (snd r).

(** The lines that [load] iterates over. *)
Definition source_lines `{Externals} (fd : option str) (p : filter_params) : list (N * str) :=
  match fd with
  | Some content => for_each_line_calls content
  | None => blob_lines (data p)
  end.

(** A sequence of calls of [put_hash_into_tables] on a pair of tables. *)
Definition put_all (ops : list (N * N)) (t : gmap N N * gmap N (list N))
    : gmap N N * gmap N (list N) :=
  fold_left (fun t op => put_hash_into_tables (fst op) (snd op) (fst t) (snd t)) ops t.

Definition tables_disjoint (t : gmap N N * gmap N (list N)) : Prop :=
  forall h : N, ~ (is_Some (fst t !! h) /\ is_Some (snd t !! h)).

Definition example_ops : list (N * N) := [(7, 100); (9, 120)]%N.

(** The value of [approx_rule_mem] that [load_line] compares with the
    limit for a parsed rule, given the index so far. *)
Definition approx_rule_mem_of `{Externals} (self : impl) (rule : rule) : N :=
  if adblock_has_prop (public_part rule) DARP_BADFILTER then badfilter_rule_mem
  else
    match match_method rule with
    | MMID_EXACT | MMID_SUBDOMAINS => domain_rule_mem rule
    | MMID_SHORTCUTS | MMID_SHORTCUTS_AND_REGEX =>
      match find_shortcut rule with
      | Some sc => shortcut_rule_mem self (hash32 (sv.substr sc 0 SHORTCUT_LENGTH))
      | None => leftover_rule_mem self (make_leftover_entry 0 rule)
      end
    | MMID_REGEX => leftover_rule_mem self (make_leftover_entry 0 rule)
    end.

(** A modifier token names [name]: it is [name] or starts with [name=]. *)
Definition names_modifier (name modifier : str) : bool :=
  sv.starts_with modifier name
  && ((length modifier =? length name) || sv.at_is modifier (length name) "=").

(** The modifier section carries a modifier called [name]. *)
Definition carries_modifier `{Externals} (name modifiers_str : str) : bool :=
  negb (bool_decide (modifiers_str = []))
  && existsb (names_modifier name) (split_by modifiers_str MODIFIERS_DELIMITER).

(** The rule carries neither [DNSTYPE] nor [DNSREWRITE]; the token names
    neither modifier. *)
Definition no_dns_props (r : rule) : Prop :=
  props_test (props (rule_info r)) DARP_DNSTYPE = false
  /\ props_test (props (rule_info r)) DARP_DNSREWRITE = false.

Definition names_no_dns_modifier (modifier : str) : Prop :=
  names_modifier (lit "dnstype") modifier = false
  /\ names_modifier (lit "dnsrewrite") modifier = false.

(** The pattern body of an adblock line after the prefixes, the suffixes
    and the port were taken off, and its modifier section. *)
Definition pattern_body `{Externals} (s : str) : str :=
  mi_text (extract_match_info (snd (fst (adblock_split s)))).

Definition modifier_section `{Externals} (s : str) : str := snd (adblock_split s).

(** The line goes to [parse_adblock_rule]. *)
Definition is_adblock_line `{Externals} (line : str) : bool :=
  negb (is_comment line)
  && negb (bool_decide (trim line = []))
  && negb (is_domain_name (trim line))
  && negb (is_host_rule (trim line)).

(** Does [filter::match] reach [match_by_file_position] at all?  One of
    the four searches finds an offset to probe for the context as it is on
    entry. *)
Definition domain_candidates `{Externals} (f : filter) (c : match_context) : bool :=
  existsb (fun domain =>
             bool_decide (is_Some (unique_domains_table (pimpl f) !! hash32 domain))
             || negb (bool_decide (default [] (domains_table (pimpl f) !! hash32 domain) = [])))
          (subdomains c).

Definition shortcut_candidates `{Externals} (f : filter) (c : match_context) : bool :=
  negb (length (host c) <? SHORTCUT_LENGTH)
  && existsb (fun window =>
                negb (bool_decide (default [] (shortcuts_table (pimpl f) !! hash32 window) = [])))
             (shortcut_windows (host c)).

Definition leftover_candidates `{Externals} (f : filter) (c : match_context) : bool :=
  existsb (fun entry =>
             (bool_decide (shortcuts entry = []) || match_shortcuts (shortcuts entry) (host c))
             && match regex entry with
                | Some re => regex_match re (host c)
                | None => true
                end)
          (leftovers_table (pimpl f)).

Definition badfilter_candidates `{Externals} (f : filter) (c : match_context) : bool :=
  existsb (fun rule => bool_decide (is_Some (badfilter_table (pimpl f) !! hash32 (text rule))))
          (matched_rules c).

Definition has_candidate `{Externals} (f : filter) (c : match_context) : bool :=
  domain_candidates f c || shortcut_candidates f c || leftover_candidates f c
  || badfilter_candidates f c.

(** No two rules of the accumulator have the same text. *)
Definition texts_unique (rules : list dnsfilter_rule) : Prop := NoDup (map text rules).

(** The characters of an IPv6 literal. *)
Definition is_ipv6_char (c : ascii) : bool :=
  isxdigit c || Ascii.eqb c ":" || Ascii.eqb c ".".

(** A fresh filter, as [filter()] constructs it. *)
Definition new_filter `{Externals} : filter :=
  {| params := {| id_ := 0; data := []; in_memory := false; mtime := 0 |};
     pimpl := new_impl |}.

(** The line that [match_by_file_position] reads at an offset of the
    rule source. *)
Definition source_line `{Externals} (fs : file_system) (f : filter) (pos : N) : option str :=
  if in_memory (params f) then utils_read_line (data (params f)) pos
  else match fs_open fs (data (params f)) with
       | Some content => read_line content pos
       | None => None
       end.

(** The handle of the match is closed or is the rule file of the filter. *)
Definition file_ok (fs : file_system) (f : filter) (m : match_arg) : Prop :=
  file m = None \/ file m = fs_open fs (data (params f)).

(** The flag [outdated] is only raised for a file-backed filter whose
    check fails. *)
Definition outdated_justified `{Externals} (fs : file_system) (f : filter) (m : match_arg)
    : Prop :=
  outdated m = true -> in_memory (params f) = false /\ check_filter_outdated fs f = true.

(** *** Concrete rule lists *)

Module Examples.
Import Reference.

Definition A : N := LDNS_RR_TYPE_A.
Definition MX : N := LDNS_RR_TYPE_MX.

Definition parsed (line : string) : rule := default new_adblock_rule (parse (lit line)).

Definition start (c : match_context) : match_arg :=
  {| ctx := c; file := None; outdated := false |}.

Definition with_matched (c : match_context) (rules : list dnsfilter_rule) : match_context :=
  {| host := host c; subdomains := subdomains c; matched_rules := rules;
     rr_type := rr_type c; reverse_lookup_fqdn := reverse_lookup_fqdn c |}.

(** One file with the given content and modification time. *)
Definition one_file (path content : str) (time : Z) : file_system :=
  {| fs_open := fun p => if bool_decide (p = path) then Some content else None;
     fs_mtime := fun p => if bool_decide (p = path) then time else 0%Z |}.

Definition file_params (path : str) : filter_params :=
  {| id_ := 1; data := path; in_memory := false; mtime := 0 |}.

Definition blob_params (blob : str) : filter_params :=
  {| id_ := 1; data := blob; in_memory := true; mtime := 0 |}.

Definition loaded (fs : file_system) (p : filter_params) (mem_limit : N) : filter :=
  snd (load fs new_filter p mem_limit).

Definition NL : str := ["010"%char].

(** A rule with [dnstype] and the same rule with [badfilter] added. *)
Definition dnstype_rule : rule := parsed "example.com$dnstype=A".
Definition dnstype_badfilter_line : str := lit "example.com$dnstype=A,badfilter".
Definition dnstype_badfilter_rule : rule := parsed "example.com$dnstype=A,badfilter".
Definition mx_query : match_context := create_match_context (lit "example.com") MX.

(** A hosts line with two names and a comment. *)
Definition hosts_path : str := lit "hosts.txt".
Definition hosts_file : str := lit "1.2.3.4 a.example.com example.com # both" ++ NL.
Definition hosts_fs : file_system := one_file hosts_path hosts_file 100.
Definition hosts_filter : filter := loaded hosts_fs (file_params hosts_path) 0.
Definition hosts_query : match_context := create_match_context (lit "a.example.com") A.

(** A rule file whose modification time is the epoch. *)
Definition epoch_path : str := lit "rules.txt".
Definition epoch_fs : file_system := one_file epoch_path (lit "example.org" ++ NL) 0.
Definition epoch_filter : filter := loaded epoch_fs (file_params epoch_path) 0.
Definition org_query : match_context := create_match_context (lit "example.org") A.

(** A [badfilter] rule in a file that is touched after the load. *)
Definition bad_path : str := lit "bad.txt".
Definition bad_file : str := lit "example.org$badfilter" ++ NL.
Definition bad_fs : file_system := one_file bad_path bad_file 100.
Definition bad_fs_touched : file_system := one_file bad_path bad_file 200.
Definition bad_filter : filter := loaded bad_fs (file_params bad_path) 0.
Definition rule_B : dnsfilter_rule := public_part (parsed "example.org$badfilter").
Definition rule_R : dnsfilter_rule := public_part (parsed "example.org").

(** Three domain rules in a blob, loaded under a limit of 20 bytes. *)
Definition three_rules : str :=
  lit "example.org" ++ NL ++ lit "example.com" ++ NL ++ lit "example.net" ++ NL.

(** An in-memory filter. *)
Definition blob_filter : filter := loaded hosts_fs (blob_params three_rules) 0.

End Examples.

(** ** Host and port of an address ([net_utils.cpp]) *)

(** [ag::utils::split_host_port]: the host and the port, each a view
    into the argument.  [pos - 1] and [size() - 2] are only evaluated
    where they cannot wrap; [rfind] gives [npos] only together with
    [find]. *)
Definition split_host_port (address_string : str) : str * str :=
  if negb (bool_decide (address_string = [])) && sv.front_is address_string "["
  then
    match sv.find address_string (lit "]:") 0 with
    | Some pos =>
      (sv.substr address_string 1 (pos - 1), sv.substr_from address_string (pos + 2))
    | None =>
      if sv.back_is address_string "]"
      then (sv.substr address_string 1 (length address_string - 2), [])
      else (address_string, [])
    end
  else
    match sv.find_char address_string ":" with
    | Some pos =>
      if negb (bool_decide (sv.rfind_char address_string ":" = Some pos))
      then (address_string, [])               (* an IPv6 address without a port *)
      else (sv.substr address_string 0 pos, sv.substr_from address_string (pos + 1))
    | None => (address_string, [])
    end.

(** [ag::utils::join_host_port] *)
Definition join_host_port (host port : str) : str :=
  if bool_decide (is_Some (sv.find_char host ":"))
  then lit "[" ++ host ++ lit "]:" ++ port
  else host ++ lit ":" ++ port.



(** ** Reloading a filter ([filter.cpp]) *)

Section Update.
Context `{Externals}.

(** [filter::update]: the new value of the shared [mem_limit] and the
    filter afterwards.  The old index is dropped before [load] runs on a
    fresh one; [load] takes [params] by reference to the filter's own
    member. *)
Definition update (fs : file_system) (this : filter) (mem_limit : N) : N * filter :=
  let freed_mem := approx_mem (pimpl this) in
  let mem_limit := wrap_size_t (Z.of_N mem_limit + Z.of_N freed_mem) in
  let this := {| params := params this; pimpl := new_impl |} in
  let loaded := load fs this (params this) mem_limit in
  (wrap_size_t (Z.of_N mem_limit - Z.of_N (snd (fst loaded))), snd loaded).

End Update.

(** ** Further notions used to state the properties *)

(** The offsets that a sequence of insertions gives for a hash, in the
    order of the insertions. *)
Definition offsets_of (h : N) (ops : list (N * N)) : list N :=
  map snd (List.filter (fun op => N.eqb (fst op) h) ops).

(** The pair of tables holds the offsets [l] for the hash [h]: a single
    offset sits in the unique table, two or more sit in the multi table,
    and the hash is a key of no table that does not hold its offsets. *)
Definition holds_offsets (t : gmap N N * gmap N (list N)) (h : N) (l : list N) : Prop :=
  match l with
  | [] => fst t !! h = None /\ snd t !! h = None
  | [i] => fst t !! h = Some i /\ snd t !! h = None
  | _ => fst t !! h = None /\ snd t !! h = Some l
  end.

(** The insertions that [load_line] makes into the domain tables for the
    lines of a source: one for every matching part of every rule that is
    not a [badfilter] rule and matches by [MMID_EXACT] or
    [MMID_SUBDOMAINS]. *)
Definition domain_ops_of_line `{Externals} (il : N * str) : list (N * N) :=
  match parse (snd il) with
  | Some r =>
    if adblock_has_prop (public_part r) DARP_BADFILTER then []
    else match match_method r with
         | MMID_EXACT | MMID_SUBDOMAINS => map (fun d => (hash32 d, fst il)) (matching_parts r)
         | _ => []
         end
  | None => []
  end.

Definition domain_ops `{Externals} (lines : list (N * str)) : list (N * N) :=
  flat_map domain_ops_of_line lines.

(** The offsets of the [badfilter] rules of a source, each under the
    hash of its text without the modifier. *)
Definition badfilter_ops_of_line `{Externals} (il : N * str) : list (N * N) :=
  match parse (snd il) with
  | Some r =>
    if adblock_has_prop (public_part r) DARP_BADFILTER
    then [(hash32 (get_text_without_badfilter (public_part r)), fst il)]
    else []
  | None => []
  end.

Definition badfilter_ops `{Externals} (lines : list (N * str)) : list (N * N) :=
  flat_map badfilter_ops_of_line lines.

(** The offset that [load_line] puts into the shortcuts table for a
    line: the rule is no [badfilter] rule, matches by shortcuts and has a
    part of [SHORTCUT_LENGTH] characters or more, whose first characters
    give the hash. *)
Definition shortcut_ops_of_line `{Externals} (il : N * str) : list (N * N) :=
  match parse (snd il) with
  | Some r =>
    if adblock_has_prop (public_part r) DARP_BADFILTER then []
    else match match_method r with
         | MMID_SHORTCUTS | MMID_SHORTCUTS_AND_REGEX =>
           match find_shortcut r with
           | Some sc => [(hash32 (sv.substr sc 0 SHORTCUT_LENGTH), fst il)]
           | None => []
           end
         | _ => []
         end
  | None => []
  end.

Definition shortcut_ops `{Externals} (lines : list (N * str)) : list (N * N) :=
  flat_map shortcut_ops_of_line lines.

(** The entry that [load_line] appends to the leftovers table for a
    line: the rule is no [badfilter] rule and matches by a regex alone, or
    by shortcuts that are all shorter than [SHORTCUT_LENGTH]. *)
Definition leftovers_of_line `{Externals} (il : N * str) : list leftover_entry :=
  match parse (snd il) with
  | Some r =>
    if adblock_has_prop (public_part r) DARP_BADFILTER then []
    else match match_method r with
         | MMID_EXACT | MMID_SUBDOMAINS => []
         | MMID_SHORTCUTS | MMID_SHORTCUTS_AND_REGEX =>
           match find_shortcut r with
           | Some _ => []
           | None => [make_leftover_entry (fst il) r]
           end
         | MMID_REGEX => [make_leftover_entry (fst il) r]
         end
  | None => []
  end.

(** The domain tables of an index. *)
Definition domain_tables (self : impl) : gmap N N * gmap N (list N) :=
  (unique_domains_table self, domains_table self).

(** The offsets that the domain tables give for a name: what
    [search_by_domains] probes for it. *)
Definition domain_positions `{Externals} (f : filter) (domain : str) : list N :=
  match unique_domains_table (pimpl f) !! hash32 domain with
  | Some position => [position]
  | None => default [] (domains_table (pimpl f) !! hash32 domain)
  end.

(** Every rule that the source of the filter gives has the line it was
    parsed from as its text. *)
Definition rule_texts_are_lines `{Externals} (fs : file_system) (f : filter) : Prop :=
  forall (pos : N) (line : str) (r : rule),
    source_line fs f pos = Some line -> parse line = Some r -> text (public_part r) = line.

(** The same for the offsets up to a bound, as a test. *)
Definition rule_text_is_line_at `{Externals} (fs : file_system) (f : filter) (pos : nat) : bool :=
  match source_line fs f (N.of_nat pos) with
  | Some line =>
    match parse line with
    | Some r => bool_decide (text (public_part r) = line)
    | None => true
    end
  | None => true
  end.

(** The text of an adblock rule: the pattern, and the modifiers after the
    marker when there are any. *)
Fixpoint join_modifiers (modifiers : list str) : str :=
  match modifiers with
  | [] => []
  | [m] => m
  | m :: rest => m ++ ","%char :: join_modifiers rest
  end.

Definition rule_text (pattern : str) (modifiers : list str) : str :=
  match modifiers with
  | [] => pattern
  | _ => pattern ++ "$"%char :: join_modifiers modifiers
  end.

(** The characters that end a shortcut of a regex. *)
Definition is_special_regex_char (c : ascii) : bool := sv.mem c (lit "\^$*+?.()|[]{}").

(** The context [c'] is the context [c] with rules added at the end of
    the accumulator: the query is the same. *)
Definition ctx_extends (c c' : match_context) : Prop :=
  host c' = host c /\ subdomains c' = subdomains c /\ rr_type c' = rr_type c
  /\ reverse_lookup_fqdn c' = reverse_lookup_fqdn c
  /\ exists added, matched_rules c' = matched_rules c ++ added.

(** The state of a match of a filter that is not outdated, on the way
    through the searches for the query [c]. *)
Definition probe_state (fs : file_system) (f : filter) (c : match_context) (m : match_arg)
    : Prop :=
  outdated m = false /\ file_ok fs f m /\ ctx_extends c (ctx m).

(** The rule [r] of the line [line] was added after the rules of [c], or
    a rule with the line as its text is in the accumulator. *)
Definition probe_found (c : match_context) (line : str) (r : rule) (m : match_arg) : Prop :=
  exists added,
    matched_rules (ctx m) = matched_rules c ++ added
    /\ (public_part r ∈ added
        \/ exists r0, r0 ∈ matched_rules c ++ added /\ text r0 = line).

(** Does the entry of the leftovers table pass the tests that
    [search_in_leftovers] makes before it probes the offset? *)
Definition leftover_passes `{Externals} (host : str) (entry : leftover_entry) : bool :=
  (bool_decide (shortcuts entry = []) || match_shortcuts (shortcuts entry) host)
  && match regex entry with
     | Some re => regex_match re host
     | None => true
     end.

(** The offsets that the index gives for a query: those of the domain
    tables for the names of the query, those of the shortcuts table for
    the windows of the host, and those of the leftover entries that pass
    their tests. *)
Definition probed_positions `{Externals} (f : filter) (c : match_context) : list N :=
  flat_map (domain_positions f) (subdomains c)
  ++ (if length (host c) <? SHORTCUT_LENGTH then []
      else flat_map (fun window => default [] (shortcuts_table (pimpl f) !! hash32 window))
                    (shortcut_windows (host c)))
  ++ map file_idx (List.filter (leftover_passes (host c)) (leftovers_table (pimpl f))).

Module MoreExamples.
Import Reference.

(** Two lines and a last line without a line break. *)
Definition three_lines : str :=
  lit "example.org" ++ Examples.NL ++ lit "  ||example.com^ " ++ Examples.NL ++ lit "last".

(** A rule file with a modification time, and the filter loaded from
    it. *)
Definition rules_path : str := lit "rules.txt".
Definition rules_file : str :=
  lit "example.org" ++ Examples.NL ++ lit "||example.com^" ++ Examples.NL
  ++ lit "1.2.3.4 example.org" ++ Examples.NL.
Definition rules_fs : file_system := Examples.one_file rules_path rules_file 100.
Definition rules_filter : filter := Examples.loaded rules_fs (Examples.file_params rules_path) 0.

(** A filter whose file is gone. *)
Definition no_fs : file_system := {| fs_open := fun _ => None; fs_mtime := fun _ => 0%Z |}.

(** A rule that rewrites to a host whose name holds the characters of
    [badfilter], and the same rule with the modifier added, in one
    file. *)
Definition rewrite_line : str := lit "example.org$dnsrewrite=badfilter.example".
Definition rewrite_badfilter_line : str :=
  lit "example.org$dnsrewrite=badfilter.example,badfilter".
Definition rewrite_rule : dnsfilter_rule :=
  public_part (Examples.parsed "example.org$dnsrewrite=badfilter.example").
Definition rewrite_badfilter_rule : dnsfilter_rule :=
  public_part (Examples.parsed "example.org$dnsrewrite=badfilter.example,badfilter").
Definition rewrite_path : str := lit "rewrite.txt".
Definition rewrite_file : str :=
  rewrite_line ++ Examples.NL ++ rewrite_badfilter_line ++ Examples.NL.
Definition rewrite_fs : file_system := Examples.one_file rewrite_path rewrite_file 100.
Definition rewrite_filter : filter :=
  Examples.loaded rewrite_fs (Examples.file_params rewrite_path) 0.

End MoreExamples.

(** * Properties *)

(** ** Searching in strings *)

Section StringFacts.

Lemma find_if_scan_Some p s i j :
  sv.find_if_scan p s i = Some j ->
  i <= j /\ (exists c, s !! (j - i) = Some c /\ p c = true)
  /\ forall k c, k < j - i -> s !! k = Some c -> p c = false.
Proof.
  revert i. induction s as [|d s IH]; intros i; simpl; [discriminate|].
  destruct (p d) eqn:Hp.
  - intros [= <-]. rewrite Nat.sub_diag. split; [lia|]. split; [eauto|]. intros; lia.
  - intros Hs. destruct (IH _ Hs) as (Hle & (c & Hc & Hpc) & Hbefore).
    split; [lia|]. replace (j - i) with (S (j - S i)) by lia. split; [eauto|].
    intros [|k] c' Hk; simpl; [intros [= <-]; done|]. intros Hl. eapply Hbefore; [|done]. lia.
Qed.

Lemma find_if_scan_None p s i :
  sv.find_if_scan p s i = None <-> forall c, c ∈ s -> p c = false.
Proof.
  revert i. induction s as [|d s IH]; intros i; simpl.
  - split; [intros _ c Hc; inversion Hc|done].
  - destruct (p d) eqn:Hp.
    + split; [discriminate|]. intros Hall. specialize (Hall d (list_elem_of_here _ _)). congruence.
    + rewrite IH. split.
      * intros Hall c Hc. apply elem_of_cons in Hc as [->|Hc]; auto.
      * intros Hall c Hc. apply Hall. by apply list_elem_of_further.
Qed.

Lemma find_if_scan_is_Some p s i c :
  c ∈ s -> p c = true -> is_Some (sv.find_if_scan p s i).
Proof.
  intros Hc Hp. destruct (sv.find_if_scan p s i) eqn:E; [eauto|].
  pose proof (proj1 (find_if_scan_None _ _ _) E c Hc). congruence.
Qed.

Lemma rfind_scan_spec c s i last_seen j :
  sv.rfind_scan c s i last_seen = Some j ->
  (last_seen = Some j /\ c ∉ s)
  \/ (i <= j /\ s !! (j - i) = Some c /\ forall k, j - i < k -> s !! k <> Some c).
Proof.
  revert i last_seen. induction s as [|d s IH]; intros i last_seen; simpl.
  - intros ->. left. split; [done|]. intros Hc; inversion Hc.
  - intros Hs. destruct (IH _ _ Hs) as [[Hl Hnot]|(Hle & Hat & Hafter)].
    + destruct (Ascii.eqb c d) eqn:Hcd.
      * apply Ascii.eqb_eq in Hcd as <-. injection Hl as <-. right.
        rewrite Nat.sub_diag. split; [lia|]. split; [done|].
        intros [|k] Hk; [lia|]. simpl. intros Hk'. apply Hnot.
        eapply list_elem_of_lookup_2. exact Hk'.
      * left. split; [done|]. apply Ascii.eqb_neq in Hcd.
        intros Hin. apply elem_of_cons in Hin as [?|?]; done.
    + right. split; [lia|]. replace (j - i) with (S (j - S i)) by lia. split; [done|].
      intros [|k] Hk; [lia|]. simpl. apply Hafter. lia.
Qed.

Lemma rfind_scan_seen c s i k : is_Some (sv.rfind_scan c s i (Some k)).
Proof.
  revert i k. induction s as [|e s IH]; intros i k; simpl; [eauto|].
  destruct (Ascii.eqb c e); apply IH.
Qed.

Lemma rfind_scan_is_Some c s i last_seen :
  c ∈ s -> is_Some (sv.rfind_scan c s i last_seen).
Proof.
  revert i last_seen. induction s as [|d s IH]; intros i last_seen Hc; [inversion Hc|].
  simpl. destruct (Ascii.eqb c d) eqn:Hcd; [apply rfind_scan_seen|].
  apply elem_of_cons in Hc as [->|Hc]; [by rewrite Ascii.eqb_refl in Hcd|]. by apply IH.
Qed.

End StringFacts.

(** ** [remove_port] *)

Section RemovePort.

Lemma is_ipv6_char_not_bracket c : is_ipv6_char c = true -> c <> "]"%char.
Proof. intros Hc ->. vm_compute in Hc. discriminate. Qed.

Lemma is_valid_port_no_colon port : is_valid_port port = true -> ":"%char ∉ port.
Proof.
  unfold is_valid_port. intros Hp%andb_prop. destruct Hp as [_ Hd].
  intros Hin. rewrite forallb_forall in Hd. apply list_elem_of_In in Hin.
  specialize (Hd _ Hin). vm_compute in Hd. discriminate.
Qed.

(** The port is taken off a pattern [host:port] with a single colon. *)
Lemma remove_port_host_port (host port : str) :
  ":"%char ∉ host -> port <> [] -> is_valid_port port = true ->
  remove_port (host ++ ":"%char :: port) = (MPM_LINE_END_ASSERTED, host).
Proof.
  intros Hhost Hne Hport. pose proof (is_valid_port_no_colon _ Hport) as Hnc.
  unfold remove_port.
  assert (Hin : ":"%char ∈ host ++ ":"%char :: port).
  { apply elem_of_app. right. apply list_elem_of_here. }
  destruct (rfind_scan_is_Some ":" _ 0 None Hin) as [rpos Hr].
  unfold sv.rfind_char. rewrite Hr.
  destruct (find_if_scan_is_Some (Ascii.eqb ":") _ 0 ":" Hin eq_refl) as [fpos Hf].
  unfold sv.find_char. rewrite Hf.
  apply rfind_scan_spec in Hr as [[? _]|(_ & Hrat & _)]; [done|].
  apply find_if_scan_Some in Hf as (_ & (c & Hfat & Hc) & _).
  apply Ascii.eqb_eq in Hc as <-. rewrite !Nat.sub_0_r in *.
  assert (Hpos : forall k, (host ++ ":"%char :: port) !! k = Some ":"%char -> k = length host).
  { intros k Hk. destruct (lt_eq_lt_dec k (length host)) as [[Hlt|?]|Hgt]; [|done|].
    - rewrite lookup_app_l in Hk by done. apply list_elem_of_lookup_2 in Hk. done.
    - rewrite lookup_app_r in Hk by lia.
      destruct (k - length host) as [|n] eqn:E; [lia|]. simpl in Hk.
      apply list_elem_of_lookup_2 in Hk. done. }
  apply Hpos in Hrat as ->. apply Hpos in Hfat as ->.
  rewrite Nat.eqb_refl. simpl.
  rewrite length_app. simpl.
  destruct port as [|p0 port']; [done|]. simpl.
  replace (length host =? length host + S (S (length port')) - 1) with false
    by (symmetry; apply Nat.eqb_neq; lia).
  simpl. unfold sv.substr_from, sv.substr.
  rewrite drop_app_ge by lia. replace (length host + 1 - length host) with 1 by lia.
  simpl. rewrite Hport. rewrite drop_0, take_app_length. done.
Qed.

End RemovePort.

(** C9. The code checks the character before the first colon, not the one
    before the last: for a bracketed IPv6 literal followed by a port, whose
    first colon is inside the brackets, [remove_port] returns no mode bits
    and leaves the pattern as it is, brackets and port included. *)
Theorem remove_port_keeps_bracketed_ipv6 (addr port : str) :
  forallb is_ipv6_char addr = true ->
  ":"%char ∈ addr ->
  remove_port ("["%char :: addr ++ "]"%char :: ":"%char :: port)
  = (0%N, "["%char :: addr ++ "]"%char :: ":"%char :: port).
Proof.
  intros Hchars Hcolon. set (rule := "["%char :: addr ++ "]"%char :: ":"%char :: port).
  assert (Hin : ":"%char ∈ rule).
  { apply list_elem_of_further, elem_of_app. by left. }
  unfold remove_port.
  destruct (rfind_scan_is_Some ":" _ 0 None Hin) as [rpos Hr].
  unfold sv.rfind_char. rewrite Hr.
  destruct (find_if_scan_is_Some (Ascii.eqb ":") _ 0 ":" Hin eq_refl) as [fpos Hf].
  unfold sv.find_char. rewrite Hf.
  apply rfind_scan_spec in Hr as [[? _]|(_ & _ & Hafter)]; [done|].
  apply find_if_scan_Some in Hf as (_ & (c & Hfat & Hc) & Hbefore).
  apply Ascii.eqb_eq in Hc as <-. rewrite !Nat.sub_0_r in *.
  apply list_elem_of_lookup_1 in Hcolon as [k Hk].
  pose proof (lookup_lt_Some _ _ _ Hk) as Hklen.
  assert (Hfle : fpos <= S k).
  { destruct (le_lt_dec fpos (S k)) as [?|Hlt]; [done|].
    specialize (Hbefore (S k) ":"%char Hlt). simpl in Hbefore.
    rewrite lookup_app_l in Hbefore by done. specialize (Hbefore Hk). done. }
  assert (Hrge : S (S (length addr)) <= rpos).
  { destruct (le_lt_dec (S (S (length addr))) rpos) as [?|Hlt]; [done|].
    exfalso. apply (Hafter (S (S (length addr)))); [lia|]. unfold rule. simpl.
    rewrite lookup_app_r by lia. replace (S (length addr) - length addr) with 1 by lia. done. }
  replace (fpos =? rpos) with false by (symmetry; apply Nat.eqb_neq; lia). simpl.
  assert (Hnot : sv.at_is rule (fpos - 1) "]" = false).
  { unfold sv.at_is. apply bool_decide_eq_false. intros Hat.
    destruct fpos as [|[|n]]; [done|done|]. simpl in Hat.
    rewrite lookup_app_l in Hat by lia.
    apply list_elem_of_lookup_2, list_elem_of_In in Hat.
    rewrite forallb_forall in Hchars. apply Hchars in Hat.
    by apply is_ipv6_char_not_bracket in Hat. }
  rewrite Hnot. by rewrite andb_false_r.
Qed.

Lemma remove_port_keeps_bracketed_ipv6_witness :
  remove_port (lit "[::1]:53") = (0%N, lit "[::1]:53").
Proof.
  apply (remove_port_keeps_bracketed_ipv6 (lit "::1") (lit "53")).
  - reflexivity.
  - apply list_elem_of_here.
Defined.

(** ** Shortcut matching *)

Section Shortcuts.

(** What [match_shortcuts] computes: the list is not empty and every part
    occurs at or after the sum of the lengths of the parts before it. *)
Lemma match_shortcuts_from_spec (shortcuts : list str) (domain : str) (seek : nat) (found : bool) :
  match_shortcuts_from shortcuts domain seek found = true <->
  (shortcuts = [] /\ found = true)
  \/ (shortcuts <> []
      /\ forall i sc, shortcuts !! i = Some sc ->
           is_Some (sv.find domain sc (seek + length (concat (take i shortcuts))))).
Proof.
  revert seek found. induction shortcuts as [|sc rest IH]; intros seek found; simpl.
  - split; [intros ->; by left|]. intros [[_ ->]|[? _]]; done.
  - destruct (sv.find domain sc seek) as [pos|] eqn:Hfind.
    + rewrite IH. split.
      * intros Hrest. right. split; [done|]. intros [|i] sc' Hi; simpl in *.
        { injection Hi as <-. rewrite Nat.add_0_r, Hfind. eauto. }
        destruct Hrest as [[-> _]|[_ Hrest]]; [done|].
        rewrite length_app, Nat.add_assoc. by apply Hrest.
      * intros [[? _]|[_ Hall]]; [done|]. destruct rest as [|sc2 rest]; [by left|].
        right. split; [done|]. intros i sc' Hi.
        specialize (Hall (S i) sc' Hi). simpl in Hall.
        by rewrite length_app, Nat.add_assoc in Hall.
    + split; [done|]. intros [[? _]|[_ Hall]]; [done|].
      specialize (Hall 0 sc eq_refl). simpl in Hall.
      rewrite Nat.add_0_r, Hfind in Hall. by destruct Hall.
Qed.

Lemma find_scan_Some needle rest i j :
  sv.find_scan needle rest i = Some j ->
  i <= j /\ j - i <= length rest /\ sv.starts_with (drop (j - i) rest) needle = true.
Proof.
  revert i. induction rest as [|c rest IH]; intros i; cbn [sv.find_scan].
  - destruct (sv.starts_with [] needle) eqn:Hs; [|done].
    intros [= <-]. rewrite Nat.sub_diag. cbn [drop length]. repeat split; try lia. done.
  - destruct (sv.starts_with (c :: rest) needle) eqn:Hs.
    + intros [= <-]. rewrite Nat.sub_diag. cbn [drop length]. repeat split; try lia. done.
    + intros Hj. destruct (IH _ Hj) as (Hle & Hlen & Hstart).
      replace (j - i) with (S (j - S i)) by lia. cbn [drop length].
      repeat split; try lia. done.
Qed.

Lemma find_scan_occurrence needle rest i k :
  k <= length rest -> sv.starts_with (drop k rest) needle = true ->
  exists j, sv.find_scan needle rest i = Some j /\ j <= i + k.
Proof.
  revert i k. induction rest as [|c rest IH]; intros i k Hk Hocc; cbn [sv.find_scan length] in *.
  - assert (k = 0) as -> by lia. cbn [drop] in Hocc. rewrite Hocc. exists i. split; [done|lia].
  - destruct (sv.starts_with (c :: rest) needle) eqn:Hs.
    + exists i. split; [done|lia].
    + destruct k as [|k]; [cbn [drop] in Hocc; congruence|]. cbn [drop] in Hocc.
      destruct (IH (S i) k) as (j & Hj & Hle); [lia|done|].
      exists j. split; [done|lia].
Qed.

(** A search from an earlier position finds an occurrence that is not
    later. *)
Lemma find_from_earlier s needle seek start pos :
  seek <= start -> sv.find s needle start = Some pos ->
  exists pos', sv.find s needle seek = Some pos' /\ pos' <= pos.
Proof.
  unfold sv.find. intros Hle. destruct (start <=? length s) eqn:Hstart; [|done].
  apply Nat.leb_le in Hstart. intros Hfind.
  apply find_scan_Some in Hfind as (Hge & Hlen & Hocc).
  rewrite length_drop in Hlen. rewrite drop_drop in Hocc.
  replace (seek <=? length s) with true by (symmetry; apply Nat.leb_le; lia).
  destruct (find_scan_occurrence needle (drop seek s) seek (pos - seek)) as (j & Hj & Hjle).
  - rewrite length_drop. lia.
  - rewrite drop_drop. by replace (seek + (pos - seek)) with (start + (pos - start)) by lia.
  - exists j. split; [done|lia].
Qed.

(** The test of the code is implied by the in-order test of the
    specification on a list of parts that is not empty; the converse
    fails, as the rule [cd*ab] and the host [xxabcd] show. *)
Lemma spec_parts_in_order_match_shortcuts (parts : list str) (host : str) :
  parts <> [] -> spec_parts_in_order parts host 0 = true -> match_shortcuts parts host = true.
Proof.
  unfold match_shortcuts. intros Hne.
  assert (Hgen : forall parts seek start found,
            seek <= start -> (parts <> [] \/ found = true) ->
            spec_parts_in_order parts host start = true ->
            match_shortcuts_from parts host seek found = true).
  { clear. induction parts as [|p parts IH]; intros seek start found Hle Hor; simpl.
    - intros _. by destruct Hor.
    - destruct (sv.find host p start) as [pos|] eqn:Hfind; [|done].
      destruct (find_from_earlier _ _ _ _ _ Hle Hfind) as (pos' & -> & _).
      apply IH; [|by right].
      unfold sv.find in Hfind. destruct (start <=? length host); [|done].
      apply find_scan_Some in Hfind. lia. }
  apply Hgen; [lia|by left].
Qed.

End Shortcuts.

(** C1. The search for a part starts at the sum of the lengths of the
    parts before it, whatever the position of their matches.  For a
    [SHORTCUTS] rule with the parts [a] and [b] and a host [x ++ b ++ a] in
    which [a] first occurs at the very end and [x] is at least as long as
    [a], the code reports a match, although [b] does not occur after the
    end of the match of [a].  The rule [cd*ab] and the host [xxabcd] are
    such a pair. *)
Theorem shortcuts_rule_matches_out_of_order `{Externals} (r : rule) (a b x : str)
    (subdomains : list str) :
  match_method r = MMID_SHORTCUTS ->
  matching_parts r = [a; b] ->
  b <> [] ->
  length a <= length x ->
  sv.find (x ++ b ++ a) a 0 = Some (length x + length b) ->
  match_pattern r (x ++ b ++ a) subdomains = true
  /\ spec_parts_in_order (matching_parts r) (x ++ b ++ a) 0 = false.
Proof.
  intros Hmethod Hparts Hb Hlen Hfind. unfold match_pattern. rewrite Hmethod, Hparts.
  split.
  - unfold match_shortcuts. cbn [match_shortcuts_from]. rewrite Hfind. cbn [Nat.add].
    assert (Hocc : exists pos, sv.find (x ++ b ++ a) b (length a) = Some pos).
    { unfold sv.find.
      replace (length a <=? length (x ++ b ++ a)) with true
        by (symmetry; apply Nat.leb_le; rewrite !length_app; lia).
      destruct (find_scan_occurrence b (drop (length a) (x ++ b ++ a)) (length a)
                  (length x - length a)) as (j & Hj & _).
      - rewrite length_drop, !length_app. lia.
      - rewrite drop_drop. replace (length a + (length x - length a)) with (length x) by lia.
        rewrite drop_app_length. clear.
        induction b as [|c b IH]; simpl; [by destruct a|]. by rewrite Ascii.eqb_refl.
      - eauto. }
    destruct Hocc as [pos ->]. done.
  - cbn [spec_parts_in_order]. rewrite Hfind.
    assert (Hnone : sv.find (x ++ b ++ a) b (length x + length b + length a) = None).
    { unfold sv.find.
      replace (length x + length b + length a <=? length (x ++ b ++ a)) with true
        by (symmetry; apply Nat.leb_le; rewrite !length_app; lia).
      rewrite drop_ge by (rewrite !length_app; lia).
      destruct b; [done|]. done. }
    by rewrite Hnone.
Qed.

Lemma shortcuts_rule_matches_out_of_order_witness :
  @parse Reference.externals (lit "cd*ab") = Some (Examples.parsed "cd*ab")
  /\ @match_pattern Reference.externals (Examples.parsed "cd*ab") (lit "xxabcd") [lit "xxabcd"]
     = true
  /\ spec_parts_in_order (matching_parts (Examples.parsed "cd*ab")) (lit "xxabcd") 0 = false.
Proof.
  split; [vm_compute; reflexivity|].
  apply (@shortcuts_rule_matches_out_of_order Reference.externals (Examples.parsed "cd*ab")
           (lit "cd") (lit "ab") (lit "xx") [lit "xxabcd"]).
  - vm_compute. reflexivity.
  - vm_compute. reflexivity.
  - discriminate.
  - simpl. lia.
  - vm_compute. reflexivity.
Defined.

(** ** The two domain tables *)

Section DomainTables.

Lemma put_hash_into_tables_disjoint hash file_idx (u : gmap N N) (m : gmap N (list N)) :
  tables_disjoint (u, m) -> tables_disjoint (put_hash_into_tables hash file_idx u m).
Proof.
  intros Hdis h. specialize (Hdis h). simpl in Hdis. unfold put_hash_into_tables.
  destruct (m !! hash) as [positions|] eqn:Hm; simpl.
  - destruct (decide (hash = h)) as [->|Hne].
    + rewrite lookup_insert_eq. intros [Hu _]. apply Hdis. rewrite Hm. eauto.
    + by rewrite lookup_insert_ne.
  - destruct (u !! hash) as [stored|] eqn:Hu; simpl.
    + destruct (decide (hash = h)) as [->|Hne].
      * rewrite lookup_delete_eq. intros [[? ?] _]. done.
      * by rewrite lookup_delete_ne, lookup_insert_ne.
    + destruct (decide (hash = h)) as [->|Hne].
      * rewrite Hm. intros [_ [? ?]]. done.
      * by rewrite lookup_insert_ne.
Qed.

Lemma put_all_disjoint ops t : tables_disjoint t -> tables_disjoint (put_all ops t).
Proof.
  revert t. induction ops as [|[h i] ops IH]; intros [u m] Hdis; simpl; [done|].
  apply IH. by apply put_hash_into_tables_disjoint.
Qed.

Lemma empty_tables_disjoint : tables_disjoint (∅, ∅).
Proof. intros h [[? Hu] _]. simpl in Hu. by rewrite lookup_empty in Hu. Qed.

(** An insertion of a key that the multi table holds appends the
    offset. *)
Lemma put_hash_into_tables_append hash file_idx (u : gmap N N) (m : gmap N (list N)) positions :
  m !! hash = Some positions ->
  put_hash_into_tables hash file_idx u m = (u, <[hash := positions ++ [file_idx]]> m).
Proof. intros Hm. unfold put_hash_into_tables. by rewrite Hm. Qed.

End DomainTables.

(** The offsets that the two tables hold under a hash after a sequence
    of insertions. *)
Section Offsets.

Lemma holds_offsets_put hash file_idx (u : gmap N N) (m : gmap N (list N)) h l :
  holds_offsets (u, m) h l ->
  holds_offsets (put_hash_into_tables hash file_idx u m) h
    (if N.eqb hash h then l ++ [file_idx] else l).
Proof.
  intros Hl. destruct (N.eqb_spec hash h) as [->|Hne].
  - unfold put_hash_into_tables.
    destruct l as [|i [|j l]]; simpl in Hl; destruct Hl as [Hu Hm]; rewrite Hm; simpl.
    + rewrite Hu. simpl. by rewrite lookup_insert_eq.
    + rewrite Hu. simpl. by rewrite lookup_delete_eq, lookup_insert_eq.
    + by rewrite lookup_insert_eq.
  - assert (Hsame : fst (put_hash_into_tables hash file_idx u m) !! h = u !! h
                    /\ snd (put_hash_into_tables hash file_idx u m) !! h = m !! h).
    { unfold put_hash_into_tables. destruct (m !! hash); simpl.
      - by rewrite lookup_insert_ne.
      - destruct (u !! hash); simpl.
        + by rewrite lookup_delete_ne, lookup_insert_ne.
        + by rewrite lookup_insert_ne. }
    destruct Hsame as [Hu Hm]. unfold holds_offsets in *. rewrite Hu, Hm. exact Hl.
Qed.

Lemma put_all_holds_offsets ops t h l :
  holds_offsets t h l -> holds_offsets (put_all ops t) h (l ++ offsets_of h ops).
Proof.
  revert t l. induction ops as [|[hash i] ops IH]; intros [u m] l Hl.
  - simpl. by rewrite app_nil_r.
  - cbn [put_all fold_left fst snd]. unfold offsets_of. cbn [List.filter fst].
    pose proof (holds_offsets_put hash i u m h l Hl) as Hstep.
    destruct (put_hash_into_tables hash i u m) as [u' m'] eqn:E.
    specialize (IH (u', m') _ Hstep).
    destruct (N.eqb hash h); cbn [map snd].
    + rewrite <- app_assoc in IH. exact IH.
    + exact IH.
Qed.

Lemma offsets_of_app h ops1 ops2 :
  offsets_of h (ops1 ++ ops2) = offsets_of h ops1 ++ offsets_of h ops2.
Proof. unfold offsets_of. by rewrite List.filter_app, map_app. Qed.

Lemma put_all_app ops1 ops2 t : put_all (ops1 ++ ops2) t = put_all ops2 (put_all ops1 t).
Proof. unfold put_all. apply fold_left_app. Qed.

(** An insertion leaves the entries of the other hashes as they are. *)
Lemma put_hash_into_tables_other hash file_idx (u : gmap N N) (m : gmap N (list N)) h :
  h <> hash ->
  fst (put_hash_into_tables hash file_idx u m) !! h = u !! h
  /\ snd (put_hash_into_tables hash file_idx u m) !! h = m !! h.
Proof.
  intros Hne. unfold put_hash_into_tables. destruct (m !! hash); simpl.
  - by rewrite lookup_insert_ne.
  - destruct (u !! hash); simpl.
    + by rewrite lookup_delete_ne, lookup_insert_ne.
    + by rewrite lookup_insert_ne.
Qed.

Lemma offsets_of_cons_eq h i ops : offsets_of h ((h, i) :: ops) = i :: offsets_of h ops.
Proof. unfold offsets_of. cbn [List.filter fst]. by rewrite N.eqb_refl. Qed.

End Offsets.

(** C2. After any sequence of insertions into empty tables no hash is a
    key of both tables.  The first insertion of a hash, one that comes
    after insertions of other hashes only, stores its offset in the unique
    table, where it stays while other hashes are inserted, and the multi
    table has no entry for the hash.  The second insertion of the hash
    removes it from the unique table and stores the previous offset
    followed by the new one in the multi table; the entries of every
    other hash stay as they were. *)
Theorem put_hash_into_tables_promotes (ops1 ops2 : list (N * N)) (hash i1 i2 : N) :
  offsets_of hash ops1 = [] ->
  offsets_of hash ops2 = [] ->
  (forall (ops : list (N * N)) (h : N),
     ~ (is_Some (fst (put_all ops (∅, ∅)) !! h) /\ is_Some (snd (put_all ops (∅, ∅)) !! h)))
  /\ fst (put_all (ops1 ++ (hash, i1) :: ops2) (∅, ∅)) !! hash = Some i1
  /\ snd (put_all (ops1 ++ (hash, i1) :: ops2) (∅, ∅)) !! hash = None
  /\ fst (put_all (ops1 ++ (hash, i1) :: ops2 ++ [(hash, i2)]) (∅, ∅)) !! hash = None
  /\ snd (put_all (ops1 ++ (hash, i1) :: ops2 ++ [(hash, i2)]) (∅, ∅)) !! hash
     = Some [i1; i2]
  /\ (forall h : N, h <> hash ->
        fst (put_all (ops1 ++ (hash, i1) :: ops2 ++ [(hash, i2)]) (∅, ∅)) !! h
        = fst (put_all (ops1 ++ (hash, i1) :: ops2) (∅, ∅)) !! h
        /\ snd (put_all (ops1 ++ (hash, i1) :: ops2 ++ [(hash, i2)]) (∅, ∅)) !! h
           = snd (put_all (ops1 ++ (hash, i1) :: ops2) (∅, ∅)) !! h).
Proof.
  intros Hops1 Hops2.
  assert (Hempty : forall h, holds_offsets (∅, ∅) h []).
  { intros h. simpl. by rewrite !lookup_empty. }
  split.
  { intros ops h. apply (put_all_disjoint ops (∅, ∅) empty_tables_disjoint h). }
  pose proof (put_all_holds_offsets (ops1 ++ (hash, i1) :: ops2) (∅, ∅) hash [] (Hempty hash))
    as Hfirst.
  rewrite offsets_of_app, offsets_of_cons_eq, Hops1, Hops2 in Hfirst.
  cbn [app holds_offsets] in Hfirst. destruct Hfirst as [Hu1 Hm1].
  split; [exact Hu1|]. split; [exact Hm1|].
  replace (ops1 ++ (hash, i1) :: ops2 ++ [(hash, i2)])
    with ((ops1 ++ (hash, i1) :: ops2) ++ [(hash, i2)])
    by (by rewrite <- app_assoc).
  rewrite put_all_app.
  destruct (put_all (ops1 ++ (hash, i1) :: ops2) (∅, ∅)) as [u m].
  cbn [fst snd] in *. cbn [put_all fold_left fst snd].
  split; [|split].
  - unfold put_hash_into_tables. rewrite Hm1, Hu1. cbn [fst]. apply lookup_delete_eq.
  - unfold put_hash_into_tables. rewrite Hm1, Hu1. cbn [snd]. by rewrite lookup_insert_eq.
  - intros h Hne. by apply put_hash_into_tables_other.
Qed.

Lemma put_hash_into_tables_promotes_witness :
  (forall (ops : list (N * N)) (h : N),
     ~ (is_Some (fst (put_all ops (∅, ∅)) !! h) /\ is_Some (snd (put_all ops (∅, ∅)) !! h)))
  /\ fst (put_all (example_ops ++ (11, 130)%N :: [(7, 140)%N]) (∅, ∅)) !! 11%N = Some 130%N
  /\ snd (put_all (example_ops ++ (11, 130)%N :: [(7, 140)%N]) (∅, ∅)) !! 11%N = None
  /\ fst (put_all (example_ops ++ (11, 130)%N :: [(7, 140)%N] ++ [(11, 150)%N]) (∅, ∅)) !! 11%N
     = None
  /\ snd (put_all (example_ops ++ (11, 130)%N :: [(7, 140)%N] ++ [(11, 150)%N]) (∅, ∅)) !! 11%N
     = Some [130; 150]%N
  /\ (forall h : N, h <> 11%N ->
        fst (put_all (example_ops ++ (11, 130)%N :: [(7, 140)%N] ++ [(11, 150)%N]) (∅, ∅)) !! h
        = fst (put_all (example_ops ++ (11, 130)%N :: [(7, 140)%N]) (∅, ∅)) !! h
        /\ snd (put_all (example_ops ++ (11, 130)%N :: [(7, 140)%N] ++ [(11, 150)%N]) (∅, ∅))
             !! h
           = snd (put_all (example_ops ++ (11, 130)%N :: [(7, 140)%N]) (∅, ∅)) !! h).
Proof.
  apply (put_hash_into_tables_promotes example_ops [(7, 140)%N] 11 130 150).
  - vm_compute. reflexivity.
  - vm_compute. reflexivity.
Defined.

(** ** Line iteration *)

Section ForEachLine.
Context `{Externals}.

Lemma iterate_lines_app {A : Type} (action : N -> str -> A -> bool * A) calls1 calls2 arg :
  iterate_lines action (calls1 ++ calls2) arg
  = if fst (iterate_lines action calls1 arg)
    then iterate_lines action calls2 (snd (iterate_lines action calls1 arg))
    else iterate_lines action calls1 arg.
Proof.
  revert arg. induction calls1 as [|[idx line] calls1 IH]; intros arg; simpl; [done|].
  destruct (action idx line arg) as [[|] arg']; simpl; [apply IH|done].
Qed.

Lemma iterate_lines_record calls acc :
  iterate_lines record_call calls acc = (true, acc ++ calls).
Proof.
  revert acc. induction calls as [|[idx line] calls IH]; intros acc; simpl.
  - by rewrite app_nil_r.
  - rewrite IH. by rewrite <- app_assoc.
Qed.

Lemma file_lines_from_app b1 b2 pos line line_idx :
  file_lines_from (b1 ++ b2) pos line line_idx
  = (fst (file_lines_from b1 pos line line_idx)
       ++ fst (file_lines_from b2 (pos + length b1)
                 (snd (snd (file_lines_from b1 pos line line_idx)))
                 (fst (snd (file_lines_from b1 pos line line_idx)))),
     snd (file_lines_from b2 (pos + length b1)
            (snd (snd (file_lines_from b1 pos line line_idx)))
            (fst (snd (file_lines_from b1 pos line line_idx))))).
Proof.
  revert pos line line_idx. induction b1 as [|c b1 IH]; intros pos line line_idx; simpl.
  - rewrite Nat.add_0_r. by destruct (file_lines_from b2 pos line line_idx).
  - replace (pos + S (length b1)) with (S pos + length b1) by lia.
    destruct (is_newline c); simpl.
    + rewrite IH. by destruct (file_lines_from b1 (S pos) [] (S pos)) as [ls [i l]].
    + apply IH.
Qed.

(** The loop over one buffer makes the calls for the lines that end in
    the buffer. *)
Lemma for_each_line_buffer_spec {A : Type} (action : N -> str -> A -> bool * A)
    buffer i file_idx line line_idx arg :
  for_each_line_buffer action buffer i file_idx line line_idx arg
  = loop_outcome
      (iterate_lines action
         (map call_of (fst (file_lines_from buffer (file_idx + i) line line_idx))) arg)
      (snd (snd (file_lines_from buffer (file_idx + i) line line_idx)))
      (fst (snd (file_lines_from buffer (file_idx + i) line line_idx))).
Proof.
  revert i line line_idx arg. induction buffer as [|c buffer IH]; intros i line line_idx arg; simpl.
  - done.
  - replace (S (file_idx + i)) with (file_idx + S i) by lia.
    destruct (is_newline c); simpl.
    + destruct (file_lines_from buffer (file_idx + S i) [] (file_idx + S i)) as [ls [li l]] eqn:E.
      simpl. unfold call_of at 1. simpl.
      destruct (action _ _ arg) as [[|] arg']; simpl; [|done].
      replace (file_idx + i + 1) with (file_idx + S i) by lia.
      rewrite IH, E. done.
    + apply IH.
Qed.

(** Whatever the fuel and the chunk size, the reads make a sequence of
    calls that does not depend on the action. *)
Lemma for_each_line_reads_trace fuel chunk_size rest file_idx line line_idx :
  exists calls line' line_idx',
    forall (A : Type) (action : N -> str -> A -> bool * A) (arg : A),
      for_each_line_reads fuel action chunk_size rest file_idx line line_idx arg
      = loop_outcome (iterate_lines action calls arg) line' line_idx'.
Proof.
  revert rest file_idx line line_idx.
  induction fuel as [|fuel IH]; intros rest file_idx line line_idx; simpl.
  - by exists [], line, line_idx.
  - destruct (length (take chunk_size rest) =? 0) eqn:Hr.
    + by exists [], line, line_idx.
    + set (fl := file_lines_from (take chunk_size rest) (file_idx + 0) line line_idx).
      destruct (IH (drop chunk_size rest) (file_idx + length (take chunk_size rest))
                   (snd (snd fl)) (fst (snd fl))) as (calls2 & line' & line_idx' & Hrest).
      exists (map call_of (fst fl) ++ calls2), line', line_idx'.
      intros A action arg. rewrite for_each_line_buffer_spec. fold fl.
      rewrite iterate_lines_app. unfold loop_outcome at 1.
      destruct (iterate_lines action (map _ (fst fl)) arg) as [[|] arg'] eqn:E; simpl.
      * apply Hrest.
      * done.
Qed.

(** With enough fuel and a chunk size that is not zero, the reads make
    the calls for the lines that end in the file. *)
Lemma for_each_line_reads_spec {A : Type} (action : N -> str -> A -> bool * A)
    fuel chunk_size rest file_idx line line_idx arg :
  0 < chunk_size -> length rest < fuel ->
  for_each_line_reads fuel action chunk_size rest file_idx line line_idx arg
  = loop_outcome
      (iterate_lines action (map call_of (fst (file_lines_from rest file_idx line line_idx))) arg)
      (snd (snd (file_lines_from rest file_idx line line_idx)))
      (fst (snd (file_lines_from rest file_idx line line_idx))).
Proof.
  intros Hchunk. revert rest file_idx line line_idx arg.
  induction fuel as [|fuel IH]; intros rest file_idx line line_idx arg Hfuel; [lia|]. simpl.
  destruct (length (take chunk_size rest) =? 0) eqn:Hr.
  - apply Nat.eqb_eq in Hr. rewrite length_take in Hr.
    assert (rest = []) as -> by (destruct rest; [done|simpl in Hr; lia]). done.
  - apply Nat.eqb_neq in Hr.
    rewrite for_each_line_buffer_spec, Nat.add_0_r.
    rewrite <- (take_drop chunk_size rest) at 4 5 6.
    rewrite file_lines_from_app.
    set (fl := file_lines_from (take chunk_size rest) file_idx line line_idx).
    simpl. rewrite map_app, iterate_lines_app. unfold loop_outcome at 1.
    destruct (iterate_lines action (map _ (fst fl)) arg) as [[|] arg'] eqn:E; simpl.
    + apply IH. rewrite length_drop. rewrite length_take in Hr. lia.
    + done.
Qed.

(** [for_each_line] calls the action on the recorded lines, in order, up
    to the first call that returns [false]. *)
Lemma for_each_line_iterate {A : Type} (content : str)
    (action : N -> str -> A -> bool * A) (arg : A) :
  snd (for_each_line content action arg)
  = snd (iterate_lines action (for_each_line_calls content) arg).
Proof.
  unfold for_each_line_calls, for_each_line.
  destruct (to_int (Z.of_nat (length content)) <? 0)%Z; [done|].
  destruct (for_each_line_reads_trace (S (length content))
              (Nat.min MAX_CHUNK_SIZE (Z.to_nat (to_int (Z.of_nat (length content)))))
              content 0 [] 0) as (calls & line' & line_idx' & Htrace).
  rewrite !Htrace, iterate_lines_record. simpl.
  destruct (iterate_lines action calls arg) as [[|] arg'] eqn:E; simpl.
  - destruct (_ <? _)%N; simpl.
    + rewrite iterate_lines_app, E. simpl. by destruct (action _ _ arg') as [[|] ?].
    + by rewrite E.
  - destruct (_ <? _)%N; simpl.
    + by rewrite iterate_lines_app, E.
    + by rewrite E.
Qed.

Lemma to_int_small (n : nat) : (Z.of_nat n < 2 ^ 31)%Z -> to_int (Z.of_nat n) = Z.of_nat n.
Proof. intros Hn. unfold to_int. rewrite Z.mod_small; lia. Qed.

(** For a file below 2 GiB the recorded calls are the lines that a line
    break ends, followed by the unfinished last line when its offset is
    below [file_size - 1]. *)
Lemma for_each_line_calls_spec (content : str) :
  (Z.of_nat (length content) < 2 ^ 31)%Z ->
  for_each_line_calls content
  = map call_of (fst (file_lines content))
    ++ (if (N.of_nat (fst (snd (file_lines content)))
            <? to_size_t (Z.of_nat (length content) - 1))%N
        then [call_of (snd (file_lines content))] else []).
Proof.
  intros Hsize. unfold for_each_line_calls, for_each_line.
  rewrite to_int_small by done.
  destruct (Z.of_nat (length content) <? 0)%Z eqn:Hneg; [lia|].
  rewrite Nat2Z.id.
  destruct content as [|c content].
  - simpl. done.
  - rewrite for_each_line_reads_spec; [| |lia].
    + fold (file_lines (c :: content)). rewrite iterate_lines_record. simpl.
      destruct (file_lines (c :: content)) as [ls [li l]]. simpl.
      destruct (_ <? _)%N; simpl; [done|]. by rewrite app_nil_r.
    + apply Nat.min_glb_lt_iff. split; [unfold MAX_CHUNK_SIZE; lia|simpl; lia].
Qed.

Lemma file_lines_from_newline_end pre nl pos line line_idx :
  is_newline nl = true ->
  snd (file_lines_from (pre ++ [nl]) pos line line_idx) = (pos + length pre + 1, []).
Proof.
  intros Hnl. rewrite file_lines_from_app. simpl. rewrite Hnl. simpl.
  f_equal. lia.
Qed.

End ForEachLine.

(** C3. A last line of one byte that no line break ends is never handed
    to the action: its offset is [file_size - 1], which the final test
    [(size_t)(file_size - 1) > line_idx] excludes.  The calls made for
    such a file are the calls for the lines before it. *)
Theorem for_each_line_drops_one_byte_last_line `{Externals} (content : str) (c : ascii) :
  (Z.of_nat (length content) + 1 < 2 ^ 31)%Z ->
  is_newline c = false ->
  (content = [] \/ exists pre nl, content = pre ++ [nl] /\ is_newline nl = true) ->
  for_each_line_calls (content ++ [c]) = map call_of (fst (file_lines content))
  /\ forall (A : Type) (action : N -> str -> A -> bool * A) (arg : A),
       snd (for_each_line (content ++ [c]) action arg)
       = snd (iterate_lines action (map call_of (fst (file_lines content))) arg).
Proof.
  intros Hsize Hc Hshape.
  assert (Hcalls : for_each_line_calls (content ++ [c]) = map call_of (fst (file_lines content))).
  { rewrite for_each_line_calls_spec by (rewrite length_app; simpl; lia).
    unfold file_lines. rewrite file_lines_from_app. simpl. rewrite Hc. simpl.
    rewrite app_nil_r.
    assert (Hidx : fst (snd (file_lines_from content 0 [] 0)) = length content).
    { destruct Hshape as [->|(pre & nl & -> & Hnl)]; [done|].
      rewrite file_lines_from_newline_end by done. rewrite length_app. simpl. lia. }
    rewrite Hidx, length_app. simpl.
    replace (to_size_t (Z.of_nat (length content + 1) - 1)) with (N.of_nat (length content)).
    - rewrite N.ltb_irrefl. apply app_nil_r.
    - unfold to_size_t. rewrite Z.mod_small by lia. lia. }
  split; [exact Hcalls|]. intros A action arg. by rewrite for_each_line_iterate, Hcalls.
Qed.

Lemma for_each_line_drops_one_byte_last_line_witness :
  @for_each_line_calls Reference.externals (lit "ab" ++ ["010"%char] ++ [ "c"%char ])
  = [(0%N, lit "ab")].
Proof.
  apply (@for_each_line_drops_one_byte_last_line Reference.externals
           (lit "ab" ++ ["010"%char]) "c"%char).
  - simpl. lia.
  - reflexivity.
  - right. exists (lit "ab"), "010"%char. split; reflexivity.
Defined.

(** ** Modifiers of a rule *)

Section Modifiers.
Context `{Externals}.

Lemma mem_N_elem_of (x : N) (l : list N) : mem_N x l = true <-> x ∈ l.
Proof.
  unfold mem_N. rewrite existsb_exists. split.
  - intros (y & Hin & Heq). apply N.eqb_eq in Heq as ->. by apply list_elem_of_In.
  - intros Hin. exists x. split; [by apply list_elem_of_In|apply N.eqb_refl].
Qed.

Lemma mem_N_not_elem_of (x : N) (l : list N) : mem_N x l = false <-> x ∉ l.
Proof.
  rewrite <- mem_N_elem_of. destruct (mem_N x l); split; intros; try done.
Qed.

Lemma props_test_set_ne (props : N) (p q : adblock_rule_props) :
  p <> q -> props_test (props_set props p) q = props_test props q.
Proof.
  intros Hne. unfold props_test, props_set. apply N.setbit_neq.
  by destruct p, q.
Qed.

Lemma rule_info_set_prop (r : rule) (p : adblock_rule_props) :
  props (rule_info (set_prop r p)) = props_set (props (rule_info r)) p.
Proof. done. Qed.

Lemma starts_with_length (s prefix : str) :
  sv.starts_with s prefix = true -> length prefix <= length s.
Proof.
  revert s. induction prefix as [|p prefix IH]; intros [|c s]; simpl; try done; try lia.
  intros Hs%andb_prop. destruct Hs as [_ Hs]. apply IH in Hs. lia.
Qed.

(** A descriptor is only found for a token that names it, and a
    descriptor without a parameter parser leaves the rule as it is. *)
Lemma find_modifier_found descrs r modifier mi descr r' :
  find_modifier descrs r modifier mi = ML_found descr r' ->
  descr ∈ descrs
  /\ names_modifier (name descr) modifier = true
  /\ (parse_modifier_params descr = None -> r' = r).
Proof.
  induction descrs as [|d descrs IH]; simpl; [done|].
  destruct (sv.starts_with modifier (name d)) eqn:Hstart; simpl.
  2: { intros Hf. destruct (IH Hf) as (? & ? & ?). split; [by apply list_elem_of_further|done]. }
  destruct (length (name d) <? length modifier) eqn:Hlonger; simpl.
  - destruct (sv.at_is modifier (length (name d)) "=") eqn:Hat; simpl.
    2: { intros Hf. destruct (IH Hf) as (? & ? & ?).
         split; [by apply list_elem_of_further|done]. }
    destruct (parse_modifier_params d) as [parse_params|] eqn:Hparse; [|done].
    destruct (length modifier =? length (name d) + 1); [done|].
    destruct (parse_params r _ mi) as [r1|]; [|done].
    intros [= <- <-]. split; [apply list_elem_of_here|]. split; [|by rewrite Hparse].
    unfold names_modifier. by rewrite Hstart, Hat, orb_true_r.
  - assert (Hlen : length modifier = length (name d)).
    { apply starts_with_length in Hstart. apply Nat.ltb_ge in Hlonger. lia. }
    assert (Hnames : names_modifier (name d) modifier = true).
    { unfold names_modifier. by rewrite Hstart, Hlen, Nat.eqb_refl. }
    destruct (parse_modifier_params d) as [parse_params|] eqn:Hparse.
    + destruct (length modifier =? length (name d) + 1); [done|].
      destruct (parse_params r _ mi) as [r1|]; [|done].
      intros [= <- <-]. split; [apply list_elem_of_here|]. split; [done|by rewrite Hparse].
    + intros [= <- <-]. split; [apply list_elem_of_here|]. done.
Qed.

Lemma extract_modifiers_loop_no_dns_props modifiers r mi r' :
  Forall names_no_dns_modifier modifiers ->
  no_dns_props r ->
  extract_modifiers_loop modifiers r mi = Some r' ->
  no_dns_props r'.
Proof.
  intros Hall. revert r.
  induction Hall as [|modifier modifiers [Hty Hrw] Hall IH]; intros r Hr;
    cbn [extract_modifiers_loop].
  - intros [= <-]. exact Hr.
  - destruct (find_modifier SUPPORTED_MODIFIERS r modifier mi) as [| |found r1] eqn:Hfind.
    1,2: done.
    apply find_modifier_found in Hfind as (Hin & Hnames & Hsame).
    destruct (props_test _ (id found)); [done|].
    apply IH. unfold SUPPORTED_MODIFIERS in Hin.
    repeat (apply elem_of_cons in Hin as [->|Hin]); simpl in *.
    + rewrite (Hsame eq_refl). destruct Hr as [H1 H2]. split.
      * by rewrite rule_info_set_prop, props_test_set_ne.
      * by rewrite rule_info_set_prop, props_test_set_ne.
    + rewrite (Hsame eq_refl). destruct Hr as [H1 H2]. split.
      * by rewrite rule_info_set_prop, props_test_set_ne.
      * by rewrite rule_info_set_prop, props_test_set_ne.
    + rewrite Hnames in Hty. discriminate.
    + rewrite Hnames in Hrw. discriminate.
    + inversion Hin.
Qed.

Lemma extract_modifiers_no_dns_props modifiers_str r mi r' :
  carries_modifier (lit "dnstype") modifiers_str = false ->
  carries_modifier (lit "dnsrewrite") modifiers_str = false ->
  no_dns_props r ->
  extract_modifiers r modifiers_str mi = Some r' ->
  no_dns_props r'.
Proof.
  unfold carries_modifier, extract_modifiers. intros Hty Hrw Hr.
  destruct (bool_decide (modifiers_str = [])); [intros [= <-]; exact Hr|].
  change (existsb (names_modifier (lit "dnstype")) (split_by modifiers_str MODIFIERS_DELIMITER)
          = false) in Hty.
  change (existsb (names_modifier (lit "dnsrewrite")) (split_by modifiers_str MODIFIERS_DELIMITER)
          = false) in Hrw.
  apply extract_modifiers_loop_no_dns_props; [|exact Hr].
  apply Forall_forall. intros modifier Hin. apply list_elem_of_In in Hin. split.
  - destruct (names_modifier (lit "dnstype") modifier) eqn:E; [|done].
    assert (existsb (names_modifier (lit "dnstype")) (split_by modifiers_str MODIFIERS_DELIMITER)
            = true) by (apply existsb_exists; eauto).
    congruence.
  - destruct (names_modifier (lit "dnsrewrite") modifier) eqn:E; [|done].
    assert (existsb (names_modifier (lit "dnsrewrite")) (split_by modifiers_str MODIFIERS_DELIMITER)
            = true) by (apply existsb_exists; eauto).
    congruence.
Qed.

Lemma find_first_not_of_None (s set : str) :
  (forall c, c ∈ s -> c ∈ set) -> sv.find_first_not_of s set = None.
Proof.
  intros Hall. apply find_if_scan_None. intros c Hc. apply negb_false_iff.
  unfold sv.mem. apply existsb_exists. exists c.
  split; [by apply list_elem_of_In, Hall|apply Ascii.eqb_refl].
Qed.

End Modifiers.

(** C8. A line that goes to [parse_adblock_rule], whose pattern body is
    shorter than three characters or made of dots and stars only, and
    whose modifier section carries neither [dnstype] nor [dnsrewrite],
    yields no rule. *)
Theorem parse_drops_too_wide_rule `{Externals} (line : str) :
  is_adblock_line line = true ->
  (length (pattern_body (trim line)) < 3
   \/ forall c, c ∈ pattern_body (trim line) -> c = "."%char \/ c = "*"%char) ->
  carries_modifier (lit "dnstype") (modifier_section (trim line)) = false ->
  carries_modifier (lit "dnsrewrite") (modifier_section (trim line)) = false ->
  parse line = None.
Proof.
  unfold is_adblock_line, pattern_body, modifier_section, parse.
  intros Hline Hwide Hty Hrw.
  repeat (apply andb_prop in Hline as [Hline ?]).
  rewrite (negb_true_iff _) in *.
  destruct (is_comment line); [done|].
  destruct (bool_decide (trim line = [])); [done|].
  destruct (is_domain_name (trim line)); [done|].
  destruct (is_host_rule (trim line)); [done|].
  unfold parse_adblock_rule.
  destruct (adblock_split (trim line)) as [[is_exception pattern] modifiers]. simpl in *.
  destruct (negb _ && negb _ && negb _); [done|].
  destruct (extract_modifiers _ modifiers _) as [r|] eqn:Hmods; [|done].
  apply extract_modifiers_no_dns_props in Hmods as [Hnty Hnrw]; [|done|done|].
  2: { split; by destruct is_exception. }
  assert (Htoo : is_too_wide_rule (rule_info r) (extract_match_info pattern) = true).
  { unfold is_too_wide_rule. rewrite Hnty, Hnrw. simpl.
    destruct Hwide as [Hshort|Hchars].
    - apply Nat.ltb_lt in Hshort. by rewrite Hshort.
    - rewrite find_first_not_of_None; [by rewrite bool_decide_eq_true_2, orb_true_r|].
      intros c Hc. destruct (Hchars c Hc) as [-> | ->].
      + apply list_elem_of_here.
      + apply list_elem_of_further, list_elem_of_here. }
  by rewrite Htoo.
Qed.

Lemma parse_drops_too_wide_rule_witness :
  @parse Reference.externals (lit "||a.^$important") = None.
Proof.
  apply (@parse_drops_too_wide_rule Reference.externals (lit "||a.^$important")).
  - vm_compute. reflexivity.
  - left. vm_compute. lia.
  - vm_compute. reflexivity.
  - vm_compute. reflexivity.
Defined.

(** C5, as amended.  For an adblock rule that carries [DNSTYPE] and does
    not carry [BADFILTER], the modifiers make the rule a match candidate
    exactly when the request type is in the enabled set (mode [ENABLE]) or
    outside the excluded set (mode [EXCLUDE]); otherwise
    [match_against_line] returns [false] and leaves the match state,
    accumulator included, as it was. *)
Theorem dnstype_rule_is_candidate_iff `{Externals} (r : rule) (info : adblock_rule_info)
    (dt : dnstype_info) (c : match_context) :
  content (public_part r) = adblock_content info ->
  props_test (props info) DARP_DNSTYPE = true ->
  props_test (props info) DARP_BADFILTER = false ->
  dnstype r = Some dt ->
  (match_adblock_modifiers r c = AMMS_MATCH_CANDIDATE
   <-> (mode dt = DTMM_ENABLE /\ rr_type c ∈ types dt)
       \/ (mode dt = DTMM_EXCLUDE /\ rr_type c ∉ types dt))
  /\ (match_adblock_modifiers r c <> AMMS_MATCH_CANDIDATE ->
      forall (m : match_arg) (line : str),
        ctx m = c -> parse line = Some r -> match_against_line m line = (false, m)).
Proof.
  intros Hcontent Hty Hbf Hdt.
  assert (Hinfo : rule_info r = info).
  { unfold rule_info, adblock_info. by rewrite Hcontent. }
  assert (Hstatus : match_adblock_modifiers r c
                    = match mode dt with
                      | DTMM_ENABLE =>
                        if mem_N (rr_type c) (types dt)
                        then AMMS_MATCH_CANDIDATE else AMMS_NOT_MATCHED
                      | DTMM_EXCLUDE =>
                        if negb (mem_N (rr_type c) (types dt))
                        then AMMS_MATCH_CANDIDATE else AMMS_NOT_MATCHED
                      end).
  { unfold match_adblock_modifiers. by rewrite Hinfo, Hbf, Hty, Hdt. }
  split.
  - rewrite Hstatus. destruct (mode dt); destruct (mem_N (rr_type c) (types dt)) eqn:Hmem; simpl.
    + apply mem_N_elem_of in Hmem. split; [by left|done].
    + apply mem_N_not_elem_of in Hmem. split; [done|]. intros [[_ ?]|[? _]]; done.
    + apply mem_N_elem_of in Hmem. split; [done|]. intros [[? _]|[_ ?]]; done.
    + apply mem_N_not_elem_of in Hmem. split; [by right|done].
  - intros Hnot m line <- Hparse. unfold match_against_line. rewrite Hparse.
    unfold adblock_info. rewrite Hcontent.
    rewrite Hstatus in Hnot |- *.
    destruct (mode dt); destruct (mem_N (rr_type (ctx m)) (types dt)); simpl in *; done.
Qed.

(** ** Loading under a memory limit *)

Section Load.
Context `{Externals}.

Lemma load_for_each_line_iterate {A : Type} fd p (action : N -> str -> A -> bool * A) arg :
  snd (load_for_each_line fd p action arg)
  = snd (iterate_lines action (source_lines fd p) arg).
Proof.
  destruct fd as [content|]; simpl; [apply for_each_line_iterate|done].
Qed.

Lemma leftover_rule_mem_file_idx self fidx rule :
  leftover_rule_mem self (make_leftover_entry fidx rule)
  = leftover_rule_mem self (make_leftover_entry 0 rule).
Proof. done. Qed.

(** When the estimate for the parsed rule exceeds the limit, [load_line]
    returns [false] with the result [LR_MEM_LIMIT_REACHED]. *)
Lemma load_line_limit fidx line rule a :
  parse line = Some rule ->
  CHECK_MEM a (approx_rule_mem_of (la_filter a) rule) = true ->
  fst (load_line fidx line a) = false
  /\ la_result (snd (load_line fidx line a)) = LR_MEM_LIMIT_REACHED
  /\ la_approx_mem (snd (load_line fidx line a)) = la_approx_mem a.
Proof.
  intros Hparse. unfold load_line, approx_rule_mem_of. rewrite Hparse.
  destruct (adblock_has_prop (public_part rule) DARP_BADFILTER).
  { unfold load_badfilter_rule. by intros ->. }
  assert (Hleft : CHECK_MEM a (leftover_rule_mem (la_filter a) (make_leftover_entry 0 rule))
                  = true ->
                  fst (load_leftover_rule fidx rule a) = false
                  /\ la_result (snd (load_leftover_rule fidx rule a)) = LR_MEM_LIMIT_REACHED
                  /\ la_approx_mem (snd (load_leftover_rule fidx rule a)) = la_approx_mem a).
  { intros Hc. unfold load_leftover_rule.
    rewrite (leftover_rule_mem_file_idx _ fidx), Hc. done. }
  assert (Hshort : CHECK_MEM a
                     match find_shortcut rule with
                     | Some sc => shortcut_rule_mem (la_filter a)
                                    (hash32 (sv.substr sc 0 SHORTCUT_LENGTH))
                     | None => leftover_rule_mem (la_filter a) (make_leftover_entry 0 rule)
                     end = true ->
                   fst (load_shortcut_rule fidx rule a) = false
                   /\ la_result (snd (load_shortcut_rule fidx rule a)) = LR_MEM_LIMIT_REACHED
                   /\ la_approx_mem (snd (load_shortcut_rule fidx rule a)) = la_approx_mem a).
  { unfold load_shortcut_rule. destruct (find_shortcut rule); [by intros ->|done]. }
  destruct (match_method rule); try done.
  - unfold load_domain_rule. by intros ->.
  - unfold load_domain_rule. by intros ->.
Qed.

(** A line that is loaded within the limit lets the iteration go on. *)
Lemma load_line_within_limit fidx line rule a :
  parse line = Some rule ->
  CHECK_MEM a (approx_rule_mem_of (la_filter a) rule) = false ->
  fst (load_line fidx line a) = true
  /\ la_result (snd (load_line fidx line a)) = LR_OK.
Proof.
  intros Hparse. unfold load_line, approx_rule_mem_of. rewrite Hparse.
  destruct (adblock_has_prop (public_part rule) DARP_BADFILTER).
  { unfold load_badfilter_rule. by intros ->. }
  assert (Hleft : CHECK_MEM a (leftover_rule_mem (la_filter a) (make_leftover_entry 0 rule))
                  = false ->
                  fst (load_leftover_rule fidx rule a) = true
                  /\ la_result (snd (load_leftover_rule fidx rule a)) = LR_OK).
  { intros Hc. unfold load_leftover_rule.
    rewrite (leftover_rule_mem_file_idx _ fidx), Hc. done. }
  destruct (match_method rule); try done.
  - unfold load_domain_rule. by intros ->.
  - unfold load_domain_rule. by intros ->.
  - unfold load_shortcut_rule. destruct (find_shortcut rule); [by intros ->|done].
  - unfold load_shortcut_rule. destruct (find_shortcut rule); [by intros ->|done].
Qed.

Lemma fold_put_disjoint fidx (parts : list str) t :
  tables_disjoint t ->
  tables_disjoint
    (fold_left (fun t d => put_hash_into_tables (hash32 d) fidx (fst t) (snd t)) parts t).
Proof.
  revert t. induction parts as [|d parts IH]; intros [u m] Hdis; simpl; [done|].
  apply IH. by apply put_hash_into_tables_disjoint.
Qed.

(** Loading a line keeps the two domain tables disjoint. *)
Lemma load_line_disjoint fidx line a :
  tables_disjoint (unique_domains_table (la_filter a), domains_table (la_filter a)) ->
  tables_disjoint (unique_domains_table (la_filter (snd (load_line fidx line a))),
                   domains_table (la_filter (snd (load_line fidx line a)))).
Proof.
  intros Hdis. unfold load_line. destruct (parse line) as [r|]; [|done].
  destruct (adblock_has_prop _ _).
  { unfold load_badfilter_rule. by destruct (CHECK_MEM _ _). }
  assert (Hleft : tables_disjoint
                    (unique_domains_table (la_filter (snd (load_leftover_rule fidx r a))),
                     domains_table (la_filter (snd (load_leftover_rule fidx r a))))).
  { unfold load_leftover_rule. by destruct (CHECK_MEM _ _). }
  assert (Hshort : tables_disjoint
                     (unique_domains_table (la_filter (snd (load_shortcut_rule fidx r a))),
                      domains_table (la_filter (snd (load_shortcut_rule fidx r a))))).
  { unfold load_shortcut_rule. destruct (find_shortcut r); [|done].
    by destruct (CHECK_MEM _ _). }
  assert (Hdom : tables_disjoint
                   (unique_domains_table (la_filter (snd (load_domain_rule fidx r a))),
                    domains_table (la_filter (snd (load_domain_rule fidx r a))))).
  { unfold load_domain_rule. destruct (CHECK_MEM _ _); [done|]. simpl.
    pose proof (fold_put_disjoint fidx (matching_parts r) _ Hdis) as Hfold.
    by destruct (fold_left _ _ _). }
  by destruct (match_method r).
Qed.

(** A filter loaded into a fresh index has disjoint domain tables. *)
Lemma load_tables_disjoint fs p mem_limit :
  tables_disjoint (unique_domains_table (pimpl (snd (load fs new_filter p mem_limit))),
                   domains_table (pimpl (snd (load fs new_filter p mem_limit)))).
Proof.
  unfold load. destruct (negb _ && _); [apply empty_tables_disjoint|]. simpl.
  rewrite load_for_each_line_iterate.
  assert (Hiter : forall lines a,
            tables_disjoint (unique_domains_table (la_filter a), domains_table (la_filter a)) ->
            tables_disjoint
              (unique_domains_table (la_filter (snd (iterate_lines load_line lines a))),
               domains_table (la_filter (snd (iterate_lines load_line lines a))))).
  { induction lines as [|[i l] lines IH]; intros a Ha; simpl; [done|].
    pose proof (load_line_disjoint i l a Ha) as Hstep.
    destruct (load_line i l a) as [[|] a']; simpl in *; [by apply IH|done]. }
  apply Hiter. apply empty_tables_disjoint.
Qed.

End Load.

(** C4. With a limit that is not zero, when the lines before a line were
    loaded within the limit and the estimate for the rule of that line
    exceeds what is left, [load] returns [LR_MEM_LIMIT_REACHED] and the
    index it leaves is the index as [load_line] left it at that line:
    nothing of the lines after it is in any table. *)
Theorem load_stops_at_mem_limit `{Externals} (fs : file_system) (this : filter)
    (p : filter_params) (mem_limit : N) (pre post : list (N * str)) (idx : N) (line : str)
    (rule : rule) (a_pre : load_line_arg) :
  mem_limit <> 0%N ->
  (in_memory p = false -> is_Some (fs_open fs (data p))) ->
  source_lines (load_fd fs p) p = pre ++ (idx, line) :: post ->
  iterate_lines load_line pre (load_start fs this p mem_limit) = (true, a_pre) ->
  parse line = Some rule ->
  (mem_limit < wrap_size_t (Z.of_N (la_approx_mem a_pre)
                            + Z.of_N (approx_rule_mem_of (la_filter a_pre) rule)))%N ->
  fst (fst (load fs this p mem_limit)) = LR_MEM_LIMIT_REACHED
  /\ snd (fst (load fs this p mem_limit)) = la_approx_mem a_pre
  /\ pimpl (snd (load fs this p mem_limit))
     = with_approx_mem (la_filter (snd (load_line idx line a_pre))) (la_approx_mem a_pre).
Proof.
  intros Hlimit Hopen Hlines Hpre Hparse Hexceeds.
  assert (Hmem : la_mem_limit a_pre = mem_limit).
  { assert (Hkeep : forall lines a a', iterate_lines load_line lines a = (true, a') ->
                                        la_mem_limit a' = la_mem_limit a).
    { induction lines as [|[i l] lines IH]; intros a a'; simpl; [by intros [= <-]|].
      destruct (load_line i l a) as [[|] a1] eqn:E; [|done].
      intros Hrest. rewrite (IH _ _ Hrest).
      change a1 with (snd (true, a1)). rewrite <- E. clear.
      unfold load_line. destruct (parse l) as [r|]; [|done].
      destruct (adblock_has_prop _ _).
      { unfold load_badfilter_rule. by destruct (CHECK_MEM _ _). }
      assert (la_mem_limit (snd (load_leftover_rule i r a)) = la_mem_limit a).
      { unfold load_leftover_rule. by destruct (CHECK_MEM _ _). }
      assert (la_mem_limit (snd (load_shortcut_rule i r a)) = la_mem_limit a).
      { unfold load_shortcut_rule. destruct (find_shortcut r); [|done].
        by destruct (CHECK_MEM _ _). }
      destruct (match_method r); try done; unfold load_domain_rule; by destruct (CHECK_MEM _ _). }
    by rewrite (Hkeep _ _ _ Hpre). }
  assert (Hcheck : CHECK_MEM a_pre (approx_rule_mem_of (la_filter a_pre) rule) = true).
  { unfold CHECK_MEM. rewrite Hmem. apply andb_true_intro. split.
    - apply negb_true_iff, N.eqb_neq. done.
    - by apply N.ltb_lt. }
  destruct (load_line_limit idx line rule a_pre Hparse Hcheck) as (Hstop & Hres & Hkeepmem).
  assert (Hfinal : snd (load_for_each_line (load_fd fs p) p load_line
                          (load_start fs this p mem_limit))
                   = snd (load_line idx line a_pre)).
  { rewrite load_for_each_line_iterate, Hlines, iterate_lines_app, Hpre. simpl.
    destruct (load_line idx line a_pre) as [[|] a']; simpl in *; done. }
  unfold load.
  assert (Hfd : negb (in_memory p) && bool_decide (load_fd fs p = None) = false).
  { unfold load_fd. destruct (in_memory p); [done|]. simpl.
    destruct (Hopen eq_refl) as [content ->]. done. }
  rewrite Hfd. simpl. rewrite Hfinal, Hres, Hkeepmem. done.
Qed.

(** ** The match state across the searches *)

Section MatchState.
Context `{Externals}.
Variables (fs : file_system) (f : filter).

Lemma match_against_line_state m line :
  outdated (snd (match_against_line m line)) = outdated m
  /\ file (snd (match_against_line m line)) = file m
  /\ exists extra, matched_rules (ctx (snd (match_against_line m line)))
                   = matched_rules (ctx m) ++ extra.
Proof.
  unfold match_against_line. destruct (parse line) as [r|]; simpl.
  2: { repeat split; try done. exists []. by rewrite app_nil_r. }
  match goal with |- context [if ?b then _ else _] => destruct b end; simpl.
  - repeat split; try done. by eexists.
  - repeat split; try done. exists []. by rewrite app_nil_r.
Qed.

Lemma match_by_file_position_justified m idx :
  outdated_justified fs f m -> outdated_justified fs f (match_by_file_position fs f m idx).
Proof.
  unfold outdated_justified, match_by_file_position. intros Hm.
  destruct (in_memory (params f)) eqn:Hmem; cbn [negb].
  - destruct (utils_read_line _ idx) as [line|]; [|done].
    destruct (is_unique_rule _ line); cbn [negb]; [|done].
    destruct (match_against_line_state m line) as (-> & _). done.
  - destruct (outdated m) eqn:Hout; cbn [orb].
    { intros _. by apply Hm. }
    destruct (check_filter_outdated fs f) eqn:Hcheck; [done|].
    assert (Habsurd : forall m', outdated m' = false -> outdated m' = true ->
                        false = false /\ false = true) by (intros m' -> ?; done).
    destruct (bool_decide (file m = None)).
    + cbn [file set_file]. destruct (fs_open fs _) as [content|];
        [|apply Habsurd; exact Hout].
      destruct (read_line content idx) as [line|]; [|apply Habsurd; exact Hout].
      destruct (is_unique_rule _ line); cbn [negb]; [|apply Habsurd; exact Hout].
      apply Habsurd.
      destruct (match_against_line_state (set_file m (Some content)) line) as (-> & _).
      exact Hout.
    + destruct (file m) as [content|]; [|apply Habsurd; exact Hout].
      destruct (read_line content idx) as [line|]; [|apply Habsurd; exact Hout].
      destruct (is_unique_rule _ line); cbn [negb]; [|apply Habsurd; exact Hout].
      apply Habsurd. destruct (match_against_line_state m line) as (-> & _). exact Hout.
Qed.

Lemma fold_left_justified {X : Type} (step : match_arg -> X -> match_arg) (xs : list X) m :
  (forall m x, outdated_justified fs f m -> outdated_justified fs f (step m x)) ->
  outdated_justified fs f m -> outdated_justified fs f (fold_left step xs m).
Proof.
  intros Hstep. revert m. induction xs as [|x xs IH]; intros m Hm; simpl; [done|].
  apply IH, Hstep, Hm.
Qed.

Lemma match_positions_justified m positions :
  outdated_justified fs f m -> outdated_justified fs f (match_positions fs f m positions).
Proof. apply fold_left_justified. intros; by apply match_by_file_position_justified. Qed.

Lemma search_by_domains_justified m :
  outdated_justified fs f m -> outdated_justified fs f (search_by_domains fs f m).
Proof.
  unfold search_by_domains. destruct (outdated m); [done|].
  apply fold_left_justified. intros m' domain Hm'. unfold search_by_domain.
  destruct (_ !! _); [by apply match_by_file_position_justified|].
  destruct (_ !! _); [by apply match_positions_justified|done].
Qed.

Lemma search_by_shortcuts_justified m :
  outdated_justified fs f m -> outdated_justified fs f (search_by_shortcuts fs f m).
Proof.
  unfold search_by_shortcuts. destruct (_ || _); [done|].
  apply fold_left_justified. intros m' window Hm'.
  destruct (_ !! _); [by apply match_positions_justified|done].
Qed.

Lemma search_in_leftovers_justified m :
  outdated_justified fs f m -> outdated_justified fs f (search_in_leftovers fs f m).
Proof.
  unfold search_in_leftovers. destruct (outdated m); [done|].
  apply fold_left_justified. intros m' entry Hm'.
  destruct (_ && _); [done|].
  destruct (regex entry); [|by apply match_by_file_position_justified].
  destruct (regex_match _ _); [by apply match_by_file_position_justified|done].
Qed.

Lemma search_badfilter_rules_justified m :
  outdated_justified fs f m -> outdated_justified fs f (search_badfilter_rules fs f m).
Proof.
  unfold search_badfilter_rules. destruct (outdated m); [done|].
  apply fold_left_justified. intros m' rule Hm'.
  destruct (_ !! _); [by apply match_by_file_position_justified|done].
Qed.

(** Without a candidate no search changes the match state. *)
Lemma fold_left_id {X : Type} (step : match_arg -> X -> match_arg) (xs : list X) m :
  (forall x, x ∈ xs -> step m x = m) -> fold_left step xs m = m.
Proof.
  induction xs as [|x xs IH]; intros Hstep; simpl; [done|].
  rewrite Hstep by apply list_elem_of_here. apply IH.
  intros y Hy. apply Hstep. by apply list_elem_of_further.
Qed.

Lemma existsb_false_elem {X : Type} (p : X -> bool) (xs : list X) x :
  existsb p xs = false -> x ∈ xs -> p x = false.
Proof.
  intros Hex Hx. destruct (p x) eqn:Hp; [|done].
  assert (existsb p xs = true) by (apply existsb_exists; exists x; by rewrite <- list_elem_of_In).
  congruence.
Qed.

Lemma search_by_domains_no_candidate m :
  domain_candidates f (ctx m) = false -> search_by_domains fs f m = m.
Proof.
  unfold domain_candidates, search_by_domains. intros Hnone.
  destruct (outdated m); [done|]. apply fold_left_id. intros domain Hin.
  pose proof (existsb_false_elem _ _ _ Hnone Hin) as Hd. simpl in Hd.
  apply orb_false_elim in Hd as [Hu Hm]. unfold search_by_domain.
  destruct (unique_domains_table (pimpl f) !! hash32 domain); [done|].
  destruct (domains_table (pimpl f) !! hash32 domain) as [positions|]; [|done].
  simpl in Hm. apply negb_false_iff, bool_decide_eq_true_1 in Hm. by rewrite Hm.
Qed.

Lemma search_by_shortcuts_no_candidate m :
  shortcut_candidates f (ctx m) = false -> search_by_shortcuts fs f m = m.
Proof.
  unfold shortcut_candidates, search_by_shortcuts. intros Hnone.
  destruct (length (host (ctx m)) <? SHORTCUT_LENGTH); [done|].
  destruct (outdated m); [done|]. simpl in *. apply fold_left_id. intros window Hin.
  pose proof (existsb_false_elem _ _ _ Hnone Hin) as Hw. simpl in Hw.
  destruct (shortcuts_table (pimpl f) !! hash32 window) as [positions|]; [|done].
  simpl in Hw. apply negb_false_iff, bool_decide_eq_true_1 in Hw. by rewrite Hw.
Qed.

Lemma search_in_leftovers_no_candidate m :
  leftover_candidates f (ctx m) = false -> search_in_leftovers fs f m = m.
Proof.
  unfold leftover_candidates, search_in_leftovers. intros Hnone.
  destruct (outdated m); [done|]. apply fold_left_id. intros entry Hin.
  pose proof (existsb_false_elem _ _ _ Hnone Hin) as He. simpl in He.
  destruct (bool_decide (shortcuts entry = [])); simpl in *.
  - destruct (regex entry); [|done]. by rewrite He.
  - destruct (match_shortcuts _ _); simpl in *; [|done].
    destruct (regex entry); [|done]. by rewrite He.
Qed.

Lemma search_badfilter_rules_no_candidate m :
  badfilter_candidates f (ctx m) = false -> search_badfilter_rules fs f m = m.
Proof.
  unfold badfilter_candidates, search_badfilter_rules. intros Hnone.
  destruct (outdated m); [done|].
  assert (Hall : forall rule, rule ∈ matched_rules (ctx m) ->
                   badfilter_table (pimpl f) !! hash32 (text rule) = None).
  { intros rule Hin. pose proof (existsb_false_elem _ _ _ Hnone Hin) as Hr. simpl in Hr.
    destruct (_ !! _); [|done]. by rewrite bool_decide_eq_true_2 in Hr. }
  revert Hall. generalize (matched_rules (ctx m)) as rules.
  intros rules Hall. apply fold_left_id. intros rule Hin. by rewrite Hall.
Qed.

End MatchState.

(** C10, as amended.  For an in-memory filter [check_filter_outdated] is
    [false] and [filter::match] returns [true].  When [filter::match]
    returns [false], the filter is file-backed, the modification time of
    its file is zero (not available) or differs from the stored one, and one
    of the searches found a rule position to probe. *)
Theorem filter_match_outdated_only_when `{Externals} (fs : file_system) (f : filter)
    (c : match_context) :
  (in_memory (params f) = true ->
   check_filter_outdated fs f = false /\ fst (filter_match fs f c) = true)
  /\ (fst (filter_match fs f c) = false ->
      in_memory (params f) = false
      /\ (fs_mtime fs (data (params f)) = 0%Z
          \/ fs_mtime fs (data (params f)) <> mtime (params f))
      /\ has_candidate f c = true).
Proof.
  set (m0 := {| ctx := c; file := None; outdated := false |}).
  set (m1 := search_by_domains fs f m0).
  set (m2 := search_by_shortcuts fs f m1).
  set (m3 := search_in_leftovers fs f m2).
  set (m4 := search_badfilter_rules fs f m3).
  assert (Hfst : fst (filter_match fs f c) = negb (outdated m4)) by done.
  assert (Hjust : outdated_justified fs f m4).
  { apply search_badfilter_rules_justified, search_in_leftovers_justified,
      search_by_shortcuts_justified, search_by_domains_justified. done. }
  split.
  - intros Hmem. split; [unfold check_filter_outdated; by rewrite Hmem|].
    rewrite Hfst. destruct (outdated m4) eqn:Hout; [|done].
    destruct (Hjust Hout) as [Hfile _]. congruence.
  - rewrite Hfst. intros Hout%negb_false_iff.
    destruct (Hjust Hout) as [Hfile Hcheck]. split; [done|]. split.
    + unfold check_filter_outdated in Hcheck. rewrite Hfile in Hcheck.
      destruct (fs_mtime fs (data (params f)) =? 0)%Z eqn:Hzero; [left; lia|].
      destruct (fs_mtime fs (data (params f)) =? mtime (params f))%Z eqn:Hsame; [done|].
      right. lia.
    + destruct (has_candidate f c) eqn:Hcand; [done|]. exfalso.
      unfold has_candidate in Hcand.
      apply orb_false_elim in Hcand as [Hcand Hbad].
      apply orb_false_elim in Hcand as [Hcand Hleft].
      apply orb_false_elim in Hcand as [Hdom Hshort].
      assert (H1 : m1 = m0) by (by apply search_by_domains_no_candidate).
      assert (H2 : m2 = m0).
      { unfold m2. rewrite H1. by apply search_by_shortcuts_no_candidate. }
      assert (H3 : m3 = m0).
      { unfold m3. rewrite H2. by apply search_in_leftovers_no_candidate. }
      assert (H4 : m4 = m0).
      { unfold m4. rewrite H3. by apply search_badfilter_rules_no_candidate. }
      rewrite H4 in Hout. done.
Qed.

Lemma filter_match_outdated_only_when_witness :
  @check_filter_outdated Examples.hosts_fs Examples.blob_filter = false
  /\ fst (@filter_match Reference.externals Examples.hosts_fs Examples.blob_filter
            Examples.org_query) = true.
Proof.
  apply (@filter_match_outdated_only_when Reference.externals Examples.hosts_fs
           Examples.blob_filter Examples.org_query).
  vm_compute. reflexivity.
Defined.

(** C10, counterexample.  The rule file has the modification time 0 when
    the filter is loaded and when it is matched: the time did not change,
    and [filter::match] reports the filter outdated. *)
Lemma filter_match_outdated_with_unchanged_mtime :
  in_memory (params Examples.epoch_filter) = false
  /\ Examples.epoch_filter
     = snd (@load Reference.externals Examples.epoch_fs new_filter
              (Examples.file_params Examples.epoch_path) 0)
  /\ fs_mtime Examples.epoch_fs (data (params Examples.epoch_filter))
     = mtime (params Examples.epoch_filter)
  /\ fst (@filter_match Reference.externals Examples.epoch_fs Examples.epoch_filter
            Examples.org_query) = false.
Proof. repeat split; vm_compute; reflexivity. Qed.

(** ** Badfilter rules *)

Section Badfilter.
Context `{Externals}.
Variables (fs : file_system) (f : filter).
Hypothesis not_outdated : check_filter_outdated fs f = false.

Lemma match_by_file_position_extends m idx :
  exists extra,
    matched_rules (ctx (match_by_file_position fs f m idx)) = matched_rules (ctx m) ++ extra.
Proof.
  assert (Hsame : exists extra, matched_rules (ctx m) = matched_rules (ctx m) ++ extra).
  { exists []. by rewrite app_nil_r. }
  unfold match_by_file_position.
  destruct (in_memory (params f)); cbn [negb].
  - destruct (utils_read_line _ idx) as [line|]; [|done].
    destruct (is_unique_rule _ line); cbn [negb]; [|done].
    by destruct (match_against_line_state m line) as (_ & _ & ?).
  - destruct (outdated m || check_filter_outdated fs f); [done|].
    destruct (bool_decide (file m = None)).
    + cbn [file set_file]. destruct (fs_open fs _) as [content|]; [|done].
      destruct (read_line content idx) as [line|]; [|done].
      destruct (is_unique_rule _ line); cbn [negb]; [|done].
      by destruct (match_against_line_state (set_file m (Some content)) line) as (_ & _ & ?).
    + destruct (file m) as [content|]; [|done].
      destruct (read_line content idx) as [line|]; [|done].
      destruct (is_unique_rule _ line); cbn [negb]; [|done].
      by destruct (match_against_line_state m line) as (_ & _ & ?).
Qed.

Lemma match_by_file_position_keeps m idx :
  outdated m = false -> file_ok fs f m ->
  outdated (match_by_file_position fs f m idx) = false
  /\ file_ok fs f (match_by_file_position fs f m idx).
Proof.
  intros Hout Hfile. unfold match_by_file_position.
  destruct (in_memory (params f)); cbn [negb].
  - destruct (utils_read_line _ idx) as [line|]; [|done].
    destruct (is_unique_rule _ line); cbn [negb]; [|done].
    destruct (match_against_line_state m line) as (Ho & Hf & _).
    unfold file_ok. by rewrite Ho, Hf.
  - rewrite Hout, not_outdated. cbn [orb].
    assert (Hopened : file_ok fs f (set_file m (fs_open fs (data (params f))))) by (by right).
    destruct (bool_decide (file m = None)).
    + cbn [file set_file]. destruct (fs_open fs _) as [content|] eqn:Hopen; [|done].
      destruct (read_line content idx) as [line|]; [|done].
      destruct (is_unique_rule _ line); cbn [negb]; [|done].
      destruct (match_against_line_state (set_file m (Some content)) line) as (Ho & Hf & _).
      unfold file_ok. rewrite Ho, Hf. split; [done|]. by right.
    + destruct (file m) as [content|] eqn:Hm; [|done].
      destruct (read_line content idx) as [line|]; [|done].
      destruct (is_unique_rule _ line); cbn [negb]; [|done].
      destruct (match_against_line_state m line) as (Ho & Hf & _).
      unfold file_ok. by rewrite Ho, Hf.
Qed.

Lemma is_unique_rule_false rules line :
  is_unique_rule rules line = false -> exists r, r ∈ rules /\ text r = line.
Proof.
  unfold is_unique_rule. induction rules as [|r rules IH]; simpl; [done|].
  destruct (str_eqb line (text r)) eqn:Heq; simpl.
  - intros _. exists r. split; [apply list_elem_of_here|].
    symmetry. by apply bool_decide_eq_true_1 in Heq.
  - intros Hrest. destruct (IH Hrest) as (r0 & Hin & Htext).
    exists r0. split; [by apply list_elem_of_further|done].
Qed.

(** A line that holds a [badfilter] rule is accepted whatever the
    request, unless a rule with that line as text is already there. *)
Lemma match_against_line_badfilter m line r :
  parse line = Some r ->
  adblock_has_prop (public_part r) DARP_BADFILTER = true ->
  match_against_line m line = (true, push_matched m (public_part r)).
Proof.
  intros Hparse Hprop. unfold match_against_line. rewrite Hparse.
  unfold adblock_has_prop in Hprop.
  destruct (adblock_info (public_part r)) as [info|] eqn:Hinfo; [|done].
  unfold match_adblock_modifiers, rule_info. rewrite Hinfo. simpl. by rewrite Hprop.
Qed.

Lemma match_by_file_position_badfilter m pos line r :
  outdated m = false -> file_ok fs f m ->
  source_line fs f pos = Some line ->
  parse line = Some r ->
  adblock_has_prop (public_part r) DARP_BADFILTER = true ->
  public_part r ∈ matched_rules (ctx (match_by_file_position fs f m pos))
  \/ exists r0, r0 ∈ matched_rules (ctx (match_by_file_position fs f m pos))
                /\ text r0 = line.
Proof.
  intros Hout Hfile Hline Hparse Hprop.
  assert (Hstep : forall m', matched_rules (ctx m') = matched_rules (ctx m) ->
            let m'' := if negb (is_unique_rule (matched_rules (ctx m')) line) then m'
                       else snd (match_against_line m' line) in
            public_part r ∈ matched_rules (ctx m'')
            \/ exists r0, r0 ∈ matched_rules (ctx m'') /\ text r0 = line).
  { intros m' Hrules. destruct (is_unique_rule _ line) eqn:Huniq; cbn [negb].
    - left. rewrite (match_against_line_badfilter m' line r Hparse Hprop). simpl.
      apply elem_of_app. right. apply list_elem_of_here.
    - right. by apply is_unique_rule_false. }
  unfold match_by_file_position, source_line in *.
  destruct (in_memory (params f)); cbn [negb].
  - rewrite Hline. by apply Hstep.
  - rewrite Hout, not_outdated. cbn [orb].
    destruct (fs_open fs (data (params f))) as [content|] eqn:Hopen; [|done].
    destruct (bool_decide (file m = None)) eqn:Hnone.
    + cbn [file set_file]. rewrite Hline. by apply (Hstep (set_file m (Some content))).
    + apply bool_decide_eq_false_1 in Hnone.
      destruct Hfile as [?|Hfile]; [done|]. rewrite Hfile, Hopen, Hline. by apply Hstep.
Qed.

End Badfilter.

(** Let the badfilter table hold the offset of [B] under the hash of
    [get_text_without_badfilter B], let that text be the text of [R], and
    let the rule source still give [B] at that offset.  When the filter is
    not outdated and [R] is in the accumulator, [search_badfilter_rules]
    leaves [B] in the accumulator, or a rule whose text is the line of [B]
    was there before the probe. *)
Theorem search_badfilter_rules_finds `{Externals} (fs : file_system) (f : filter)
    (m : match_arg) (B R : dnsfilter_rule) (posB : N) (lineB : str) (ruleB : rule) :
  badfilter_table (pimpl f) !! hash32 (get_text_without_badfilter B) = Some posB ->
  source_line fs f posB = Some lineB ->
  parse lineB = Some ruleB ->
  public_part ruleB = B ->
  adblock_has_prop B DARP_BADFILTER = true ->
  get_text_without_badfilter B = text R ->
  R ∈ matched_rules (ctx m) ->
  check_filter_outdated fs f = false ->
  outdated m = false ->
  file_ok fs f m ->
  B ∈ matched_rules (ctx (search_badfilter_rules fs f m))
  \/ exists r, r ∈ matched_rules (ctx (search_badfilter_rules fs f m)) /\ text r = lineB.
Proof.
  intros Htable Hline Hparse HB Hprop Htext HR Hcheck Hout Hfile.
  unfold search_badfilter_rules. rewrite Hout.
  set (step := fun (m : match_arg) (rule : dnsfilter_rule) =>
                 match badfilter_table (pimpl f) !! hash32 (text rule) with
                 | Some position => match_by_file_position fs f m position
                 | None => m
                 end).
  set (found := fun m : match_arg =>
                  B ∈ matched_rules (ctx m)
                  \/ exists r, r ∈ matched_rules (ctx m) /\ text r = lineB).
  assert (Hgrow : forall rules m, found m -> found (fold_left step rules m)).
  { induction rules as [|r rules IH]; intros m0 Hm0; simpl; [done|].
    apply IH. unfold step.
    destruct (badfilter_table (pimpl f) !! hash32 (text r)) as [pos|]; [|done].
    unfold found in *.
    destruct (match_by_file_position_extends fs f m0 pos) as [extra ->].
    destruct Hm0 as [?|(r0 & ? & ?)]; [left|right; exists r0; split; [|done]];
      apply elem_of_app; by left. }
  assert (Hfind : forall rules m0, outdated m0 = false -> file_ok fs f m0 -> R ∈ rules ->
                    found (fold_left step rules m0)).
  { induction rules as [|r rules IH]; intros m0 Hout0 Hfile0 Hin; [inversion Hin|]. simpl.
    apply elem_of_cons in Hin as [<-|Hin].
    - apply Hgrow. unfold step. rewrite <- Htext, Htable. subst B.
      by apply (match_by_file_position_badfilter fs f Hcheck m0 posB lineB ruleB).
    - unfold step at 2.
      destruct (badfilter_table (pimpl f) !! hash32 (text r)) as [pos|]; [|by apply IH].
      destruct (match_by_file_position_keeps fs f Hcheck m0 pos Hout0 Hfile0) as [? ?].
      by apply IH. }
  by apply Hfind.
Qed.

Lemma search_badfilter_rules_finds_witness :
  Examples.rule_B
    ∈ matched_rules
        (ctx (@search_badfilter_rules Reference.externals Examples.bad_fs Examples.bad_filter
                (Examples.start (Examples.with_matched Examples.org_query [Examples.rule_R]))))
  \/ exists r,
       r ∈ matched_rules
             (ctx (@search_badfilter_rules Reference.externals Examples.bad_fs
                     Examples.bad_filter
                     (Examples.start
                        (Examples.with_matched Examples.org_query [Examples.rule_R]))))
       /\ text r = lit "example.org$badfilter".
Proof.
  apply (@search_badfilter_rules_finds Reference.externals Examples.bad_fs Examples.bad_filter
           _ Examples.rule_B Examples.rule_R 0%N (lit "example.org$badfilter")
           (Examples.parsed "example.org$badfilter")).
  - vm_compute. reflexivity.
  - vm_compute. reflexivity.
  - vm_compute. reflexivity.
  - reflexivity.
  - vm_compute. reflexivity.
  - vm_compute. reflexivity.
  - apply list_elem_of_here.
  - vm_compute. reflexivity.
  - reflexivity.
  - left. reflexivity.
Defined.

(** On an outdated filter nothing is read.  The file of the filter that
    holds the badfilter rule [B] was touched after the load.  [R], whose
    text is the text of [B] without the modifier, is in the accumulator,
    the table holds the offset of [B] under the hash of that text, and
    [search_badfilter_rules] leaves the accumulator as it is. *)
Lemma search_badfilter_rules_skips_outdated_filter :
  badfilter_table (pimpl Examples.bad_filter)
    !! @hash32 Reference.externals (@get_text_without_badfilter Reference.externals Examples.rule_B)
  = Some 0%N
  /\ @source_line Reference.externals Examples.bad_fs_touched Examples.bad_filter 0
     = Some (lit "example.org$badfilter")
  /\ public_part (Examples.parsed "example.org$badfilter") = Examples.rule_B
  /\ adblock_has_prop Examples.rule_B DARP_BADFILTER = true
  /\ @get_text_without_badfilter Reference.externals Examples.rule_B = text Examples.rule_R
  /\ matched_rules
       (ctx (@search_badfilter_rules Reference.externals Examples.bad_fs_touched
               Examples.bad_filter
               (Examples.start (Examples.with_matched Examples.org_query [Examples.rule_R]))))
     = [Examples.rule_R]
  /\ Examples.rule_B <> Examples.rule_R.
Proof. repeat split; try (vm_compute; reflexivity). vm_compute. discriminate. Qed.

(** ** The key of a badfilter rule *)

Section WithoutBadfilter.
Context `{Externals}.

Lemma join_modifiers_app (before after : list str) :
  before <> [] -> after <> [] ->
  join_modifiers (before ++ after) = join_modifiers before ++ ","%char :: join_modifiers after.
Proof.
  intros Hb Ha. induction before as [|b [|b' before] IH]; [done| |].
  - destruct after; [done|]. done.
  - change (join_modifiers ((b :: b' :: before) ++ after))
      with (b ++ ","%char :: join_modifiers ((b' :: before) ++ after)).
    rewrite IH by done.
    change (join_modifiers (b :: b' :: before))
      with (b ++ ","%char :: join_modifiers (b' :: before)).
    by rewrite <- app_assoc.
Qed.

Lemma back_is_snoc (s : str) (c d : ascii) :
  sv.back_is (s ++ [c]) d = bool_decide (c = d).
Proof.
  unfold sv.back_is, sv.back. rewrite last_snoc.
  destruct (decide (c = d)) as [->|Hne].
  - by rewrite !bool_decide_eq_true_2.
  - rewrite !bool_decide_eq_false_2; [done|done|congruence].
Qed.

Lemma remove_suffix_snoc (s : str) (c : ascii) : sv.remove_suffix (s ++ [c]) 1 = s.
Proof.
  unfold sv.remove_suffix. rewrite length_app. cbn [length].
  replace (length s + 1 - 1) with (length s) by lia. apply take_app_length.
Qed.

Lemma back_is_after_marker (pattern pre : str) (c d : ascii) :
  pre <> [] -> sv.back_is (pattern ++ c :: pre) d = sv.back_is pre d.
Proof.
  intros Hpre. unfold sv.back_is, sv.back. rewrite last_app, last_cons.
  destruct (last pre) eqn:Hlast; [done|]. by apply last_None in Hlast.
Qed.

(** The prefix and the suffix that the function cuts out of the text,
    when the first occurrence of the modifier in the section after the
    marker is known. *)
Lemma get_text_without_badfilter_cut (r : dnsfilter_rule) (pattern pre post : str) :
  text r = pattern ++ "$"%char :: pre ++ lit "badfilter" ++ post ->
  rsplit2_by (text r) "$"
  = ((0, length pattern), (length pattern + 1, length (pre ++ lit "badfilter" ++ post))) ->
  sv.find (pre ++ lit "badfilter" ++ post) (lit "badfilter") 0 = Some (length pre) ->
  get_text_without_badfilter r
  = (if sv.back_is (pattern ++ "$"%char :: pre) ","
        || (bool_decide (post = []) && sv.back_is (pattern ++ "$"%char :: pre) "$")
     then sv.remove_suffix (pattern ++ "$"%char :: pre) 1 ++ post
     else if sv.front_is post "," && sv.back_is (pattern ++ "$"%char :: pre) "$"
     then (pattern ++ "$"%char :: pre) ++ sv.remove_prefix post 1
     else (pattern ++ "$"%char :: pre) ++ post).
Proof.
  intros Htext Hsplit Hfind. unfold get_text_without_badfilter.
  unfold MODIFIERS_MARKER. rewrite Hsplit. unfold sv.view. cbn [fst snd].
  set (bf := lit "badfilter") in *.
  assert (Hbf : length bf = 9) by done.
  assert (Hpart1 : take (length (pre ++ bf ++ post)) (drop (length pattern + 1) (text r))
                   = pre ++ bf ++ post).
  { rewrite Htext.
    replace (pattern ++ "$"%char :: pre ++ bf ++ post)
      with ((pattern ++ ["$"%char]) ++ pre ++ bf ++ post) by (by rewrite <- app_assoc).
    rewrite drop_app_length' by (rewrite length_app; simpl; lia).
    by rewrite take_ge. }
  rewrite Hpart1, Hfind. rewrite Hbf.
  assert (Hprefix : take (length pattern + 1 + length pre) (drop 0 (text r))
                    = pattern ++ "$"%char :: pre).
  { rewrite Htext, drop_0.
    replace (pattern ++ "$"%char :: pre ++ bf ++ post)
      with ((pattern ++ "$"%char :: pre) ++ bf ++ post)
      by (by rewrite <- app_assoc).
    apply take_app_length'. rewrite length_app. simpl. lia. }
  assert (Hsuffix : take (length (pre ++ bf ++ post) - (length pre + 9))
                      (drop (length pattern + 1 + (length pre + 9)) (text r))
                    = post).
  { rewrite Htext.
    replace (pattern ++ "$"%char :: pre ++ bf ++ post)
      with ((pattern ++ "$"%char :: pre ++ bf) ++ post)
      by (rewrite <- !app_assoc; simpl; by rewrite <- !app_assoc).
    rewrite drop_app_length' by (rewrite !length_app; simpl; rewrite length_app; lia).
    rewrite take_ge; [done|]. rewrite !length_app. lia. }
  rewrite Hprefix, Hsuffix. done.
Qed.

End WithoutBadfilter.

(** C6. [get_text_without_badfilter] cuts the text of a badfilter rule at
    the first place where the characters of the name occur after the
    marker, which need not be the modifier.  Let the text of [R] be
    [pattern$pre badfilter post], with the characters of the name inside
    the value of a modifier ([pre] is not empty and ends neither in a comma
    nor in the marker), and let the text of [B] be the text of [R] with
    [,badfilter] added, so that the text of [B] without the modifier is the
    text of [R].  The key of [B] is then the hash of
    [pattern$pre post,badfilter], not of the text of [R]; when [B] is the
    badfilter rule that the table of the filter holds and the two hashes
    differ, [search_badfilter_rules] leaves an accumulator that holds [R]
    as it is, on a filter that is not outdated as well: [B] is not found
    and does not annul [R]. *)
Theorem search_badfilter_rules_misses_rule `{Externals} (fs : file_system) (f : filter)
    (m : match_arg) (B R : dnsfilter_rule) (pattern pre post : str) (posB : N) :
  text R = pattern ++ "$"%char :: pre ++ lit "badfilter" ++ post ->
  text B = text R ++ lit ",badfilter" ->
  rsplit2_by (text B) "$"
  = ((0, length pattern),
     (length pattern + 1, length (pre ++ lit "badfilter" ++ post ++ lit ",badfilter"))) ->
  sv.find (pre ++ lit "badfilter" ++ post ++ lit ",badfilter") (lit "badfilter") 0
  = Some (length pre) ->
  pre <> [] ->
  sv.back_is pre "," = false ->
  sv.back_is pre "$" = false ->
  map_to_list (badfilter_table (pimpl f)) = [(hash32 (get_text_without_badfilter B), posB)] ->
  hash32 (pattern ++ "$"%char :: pre ++ post ++ lit ",badfilter") <> hash32 (text R) ->
  matched_rules (ctx m) = [R] ->
  get_text_without_badfilter B = pattern ++ "$"%char :: pre ++ post ++ lit ",badfilter"
  /\ get_text_without_badfilter B <> text R
  /\ search_badfilter_rules fs f m = m.
Proof.
  intros HR HB Hsplit Hfind Hpre Hcomma Hmarker Htable Hhash Hmatched.
  assert (Hcut : get_text_without_badfilter B
                 = pattern ++ "$"%char :: pre ++ post ++ lit ",badfilter").
  { rewrite (get_text_without_badfilter_cut B pattern pre (post ++ lit ",badfilter")).
    - rewrite !back_is_after_marker by done. rewrite Hcomma, Hmarker.
      rewrite !andb_false_r. cbn [orb]. rewrite <- ?app_assoc. cbn [app].
      done.
    - rewrite HB, HR. rewrite <- !app_assoc. cbn [app]. by rewrite <- !app_assoc.
    - exact Hsplit.
    - exact Hfind. }
  split; [exact Hcut|]. split.
  - rewrite Hcut, HR. intros Heq. apply (f_equal length) in Heq.
    rewrite !length_app, !length_cons, !length_app in Heq.
    change (length (lit ",badfilter")) with 10 in Heq.
    change (length (lit "badfilter")) with 9 in Heq. lia.
  - unfold search_badfilter_rules. destruct (outdated m); [done|].
    rewrite Hmatched. cbn [fold_left].
    destruct (badfilter_table (pimpl f) !! hash32 (text R)) as [pos|] eqn:Hlookup; [|done].
    exfalso. apply Hhash. rewrite <- Hcut.
    apply elem_of_map_to_list in Hlookup. rewrite Htable in Hlookup.
    apply list_elem_of_singleton in Hlookup. by injection Hlookup as -> _.
Qed.

(** The rule [example.org$dnsrewrite=badfilter.example] and its badfilter
    rule in one file: the load stores the second under the hash of
    [example.org$dnsrewrite=.example,badfilter], and a query for
    [example.org] on the filter, which is not outdated, reports the first
    rule alone. *)
Lemma search_badfilter_rules_misses_rule_witness :
  @parse Reference.externals MoreExamples.rewrite_line
  = Some (Examples.parsed "example.org$dnsrewrite=badfilter.example")
  /\ @parse Reference.externals MoreExamples.rewrite_badfilter_line
     = Some (Examples.parsed "example.org$dnsrewrite=badfilter.example,badfilter")
  /\ adblock_has_prop MoreExamples.rewrite_badfilter_rule DARP_BADFILTER = true
  /\ adblock_has_prop MoreExamples.rewrite_rule DARP_BADFILTER = false
  /\ @source_line Reference.externals MoreExamples.rewrite_fs MoreExamples.rewrite_filter 41
     = Some MoreExamples.rewrite_badfilter_line
  /\ check_filter_outdated MoreExamples.rewrite_fs MoreExamples.rewrite_filter = false
  /\ @filter_match Reference.externals MoreExamples.rewrite_fs MoreExamples.rewrite_filter
       Examples.org_query
     = (true, Examples.with_matched Examples.org_query
                [set_filter_id MoreExamples.rewrite_rule 1])
  /\ (@get_text_without_badfilter Reference.externals MoreExamples.rewrite_badfilter_rule
      = lit "example.org" ++ "$"%char :: lit "dnsrewrite=" ++ lit ".example" ++ lit ",badfilter"
      /\ @get_text_without_badfilter Reference.externals MoreExamples.rewrite_badfilter_rule
         <> text MoreExamples.rewrite_rule
      /\ @search_badfilter_rules Reference.externals MoreExamples.rewrite_fs
           MoreExamples.rewrite_filter
           (Examples.start (Examples.with_matched Examples.org_query [MoreExamples.rewrite_rule]))
         = Examples.start (Examples.with_matched Examples.org_query [MoreExamples.rewrite_rule])).
Proof.
  split; [vm_compute; reflexivity|]. split; [vm_compute; reflexivity|].
  split; [vm_compute; reflexivity|]. split; [vm_compute; reflexivity|].
  split; [vm_compute; reflexivity|]. split; [vm_compute; reflexivity|].
  split; [vm_compute; reflexivity|].
  apply (@search_badfilter_rules_misses_rule Reference.externals MoreExamples.rewrite_fs
           MoreExamples.rewrite_filter _ MoreExamples.rewrite_badfilter_rule
           MoreExamples.rewrite_rule (lit "example.org") (lit "dnsrewrite=") (lit ".example")
           41%N).
  - vm_compute. reflexivity.
  - vm_compute. reflexivity.
  - vm_compute. reflexivity.
  - vm_compute. reflexivity.
  - discriminate.
  - vm_compute. reflexivity.
  - vm_compute. reflexivity.
  - vm_compute. reflexivity.
  - vm_compute. discriminate.
  - reflexivity.
Defined.

(** ** Duplicates in the accumulator *)

Section Duplicates.
Context `{Externals}.
Variables (fs : file_system) (f : filter).

(** The text of every parsed rule is the line it was parsed from.  This
    holds for the lines of the adblock syntax when [trim] leaves a trimmed
    line as it is; it fails for a hosts line with a comment, whose text
    stops before the comment. *)
Hypothesis text_is_line :
  forall line r, parse line = Some r -> text (public_part r) = line.

Lemma is_unique_rule_true rules line :
  is_unique_rule rules line = true -> line ∉ map text rules.
Proof.
  unfold is_unique_rule. induction rules as [|r rules IH]; simpl.
  - intros _ Hin. inversion Hin.
  - intros Hall%andb_prop. destruct Hall as [Hr Hrest].
    apply negb_true_iff, bool_decide_eq_false_1 in Hr.
    intros Hin. apply elem_of_cons in Hin as [?|Hin]; [done|]. by apply IH.
Qed.

Lemma probe_line_unique m line :
  texts_unique (matched_rules (ctx m)) ->
  texts_unique (matched_rules (ctx (if negb (is_unique_rule (matched_rules (ctx m)) line)
                                    then m else snd (match_against_line m line)))).
Proof.
  intros Huniq. destruct (is_unique_rule _ line) eqn:Hline; cbn [negb]; [|done].
  unfold match_against_line. destruct (parse line) as [r|] eqn:Hparse; [|done].
  match goal with |- context [if ?b then _ else _] => destruct b end; [|done].
  simpl. unfold texts_unique. rewrite map_app. simpl.
  apply NoDup_app. split; [done|]. split.
  - intros t Ht Hin. apply list_elem_of_singleton in Hin as ->.
    rewrite (text_is_line _ _ Hparse) in Ht. by apply is_unique_rule_true in Hline.
  - apply NoDup_singleton.
Qed.

Lemma match_by_file_position_unique m idx :
  texts_unique (matched_rules (ctx m)) ->
  texts_unique (matched_rules (ctx (match_by_file_position fs f m idx))).
Proof.
  intros Huniq. unfold match_by_file_position.
  destruct (in_memory (params f)); cbn [negb].
  - destruct (utils_read_line _ idx) as [line|]; [|done]. by apply probe_line_unique.
  - destruct (outdated m || check_filter_outdated fs f); [done|].
    destruct (bool_decide (file m = None)).
    + cbn [file set_file]. destruct (fs_open fs _) as [content|]; [|done].
      destruct (read_line content idx) as [line|]; [|done].
      by apply (probe_line_unique (set_file m (Some content))).
    + destruct (file m) as [content|]; [|done].
      destruct (read_line content idx) as [line|]; [|done]. by apply probe_line_unique.
Qed.

Lemma fold_left_unique {X : Type} (step : match_arg -> X -> match_arg) (xs : list X) m :
  (forall m x, texts_unique (matched_rules (ctx m)) ->
               texts_unique (matched_rules (ctx (step m x)))) ->
  texts_unique (matched_rules (ctx m)) ->
  texts_unique (matched_rules (ctx (fold_left step xs m))).
Proof.
  intros Hstep. revert m. induction xs as [|x xs IH]; intros m Hm; simpl; [done|].
  apply IH, Hstep, Hm.
Qed.

Lemma map_text_set_filter_id rules n i :
  map text (take n rules ++ map (fun r => set_filter_id r i) (drop n rules)) = map text rules.
Proof.
  rewrite map_app, map_map. simpl. rewrite <- map_app. by rewrite take_drop.
Qed.

(** Under [text_is_line] a match adds no rule whose text is already in the
    accumulator. *)
Lemma filter_match_texts_unique c :
  texts_unique (matched_rules c) ->
  texts_unique (matched_rules (snd (filter_match fs f c))).
Proof.
  intros Huniq. unfold filter_match. simpl. unfold texts_unique.
  rewrite map_text_set_filter_id.
  assert (Hpos : forall m positions, texts_unique (matched_rules (ctx m)) ->
                   texts_unique (matched_rules (ctx (match_positions fs f m positions)))).
  { intros m positions. apply fold_left_unique. intros. by apply match_by_file_position_unique. }
  unfold search_badfilter_rules.
  match goal with |- context [if outdated ?m then _ else _] => set (m3 := m) end.
  assert (H3 : texts_unique (matched_rules (ctx m3))).
  { unfold m3, search_in_leftovers.
    match goal with |- context [if outdated ?m then _ else _] => set (m2 := m) end.
    assert (H2 : texts_unique (matched_rules (ctx m2))).
    { unfold m2, search_by_shortcuts.
      match goal with |- context [if _ || outdated ?m then _ else _] => set (m1 := m) end.
      assert (H1 : texts_unique (matched_rules (ctx m1))).
      { unfold m1, search_by_domains. simpl. apply fold_left_unique; [|done].
        intros m domain Hm. unfold search_by_domain.
        destruct (_ !! _); [by apply match_by_file_position_unique|].
        destruct (_ !! _); [by apply Hpos|done]. }
      destruct (_ || _); [done|]. apply fold_left_unique; [|done].
      intros m window Hm. destruct (_ !! _); [by apply Hpos|done]. }
    destruct (outdated m2); [done|]. apply fold_left_unique; [|done].
    intros m entry Hm. destruct (_ && _); [done|].
    destruct (regex entry); [|by apply match_by_file_position_unique].
    destruct (regex_match _ _); [by apply match_by_file_position_unique|done]. }
  destruct (outdated m3); [done|]. apply fold_left_unique; [|done].
  intros m rule Hm. destruct (_ !! _); [by apply match_by_file_position_unique|done].
Qed.

End Duplicates.

Section ProbedTwice.
Context `{Externals}.

(** Whether a line is accepted does not depend on the accumulator. *)
Lemma match_against_line_push m line r :
  parse line = Some r ->
  fst (match_against_line m line) = true ->
  forall m', host (ctx m') = host (ctx m) -> subdomains (ctx m') = subdomains (ctx m) ->
             rr_type (ctx m') = rr_type (ctx m) ->
             match_against_line m' line = (true, push_matched m' (public_part r)).
Proof.
  intros Hparse Hacc m' Hhost Hsub Hrr. unfold match_against_line in *.
  rewrite Hparse in *. unfold match_adblock_modifiers in *.
  rewrite Hhost, Hsub, Hrr.
  match goal with |- context [if ?b then _ else _] => destruct b end; done.
Qed.

(** The general form of the defect behind C7: when the text of the parsed
    rule differs from the line it was parsed from, a second probe of the
    same offset of an in-memory source adds the rule again. *)
Lemma match_by_file_position_twice (fs : file_system) (f : filter) (m : match_arg)
    (pos : N) (line : str) (r : rule) :
  in_memory (params f) = true ->
  utils_read_line (data (params f)) pos = Some line ->
  parse line = Some r ->
  text (public_part r) <> line ->
  is_unique_rule (matched_rules (ctx m)) line = true ->
  fst (match_against_line m line) = true ->
  matched_rules (ctx (match_by_file_position fs f (match_by_file_position fs f m pos) pos))
  = matched_rules (ctx m) ++ [public_part r; public_part r].
Proof.
  intros Hmem Hread Hparse Htext Huniq Hacc.
  assert (Hfirst : match_by_file_position fs f m pos = push_matched m (public_part r)).
  { unfold match_by_file_position. rewrite Hmem, Hread, Huniq. cbn [negb].
    by rewrite (match_against_line_push m line r Hparse Hacc m). }
  rewrite Hfirst. unfold match_by_file_position. rewrite Hmem, Hread. cbn [negb].
  assert (Huniq' : is_unique_rule (matched_rules (ctx (push_matched m (public_part r)))) line
                   = true).
  { simpl. unfold is_unique_rule in *. rewrite forallb_app, Huniq. simpl.
    rewrite andb_true_r. apply negb_true_iff, bool_decide_eq_false_2. congruence. }
  rewrite Huniq'. cbn [negb].
  rewrite (match_against_line_push m line r Hparse Hacc (push_matched m (public_part r)))
    by done.
  simpl. by rewrite <- app_assoc.
Qed.

End ProbedTwice.

(** C7.  The line of a hosts rule with a comment is compared as a whole
    with the texts in the accumulator, while the text of the rule stops
    before the comment.  The rule [1.2.3.4 a.example.com example.com] with a
    comment is found under both names of the query [a.example.com], passes
    the comparison twice and is in the accumulator twice. *)
Theorem filter_match_adds_hosts_rule_twice :
  Examples.hosts_filter
  = snd (@load Reference.externals Examples.hosts_fs new_filter
           (Examples.file_params Examples.hosts_path) 0)
  /\ texts_unique (matched_rules Examples.hosts_query)
  /\ @filter_match Reference.externals Examples.hosts_fs Examples.hosts_filter
       Examples.hosts_query
     = (true,
        Examples.with_matched Examples.hosts_query
          [ {| filter_id := 1; text := lit "1.2.3.4 a.example.com example.com";
               content := etc_hosts_content {| ip := lit "1.2.3.4" |} |};
            {| filter_id := 1; text := lit "1.2.3.4 a.example.com example.com";
               content := etc_hosts_content {| ip := lit "1.2.3.4" |} |} ])
  /\ ~ texts_unique
         (matched_rules
            (snd (@filter_match Reference.externals Examples.hosts_fs Examples.hosts_filter
                    Examples.hosts_query))).
Proof.
  split; [reflexivity|]. split; [apply NoDup_nil_2|].
  assert (Hrun : @filter_match Reference.externals Examples.hosts_fs Examples.hosts_filter
                   Examples.hosts_query
                 = (true,
                    Examples.with_matched Examples.hosts_query
                      [ {| filter_id := 1; text := lit "1.2.3.4 a.example.com example.com";
                           content := etc_hosts_content {| ip := lit "1.2.3.4" |} |};
                        {| filter_id := 1; text := lit "1.2.3.4 a.example.com example.com";
                           content := etc_hosts_content {| ip := lit "1.2.3.4" |} |} ]))
    by (vm_compute; reflexivity).
  split; [exact Hrun|]. rewrite Hrun. unfold texts_unique. simpl.
  intros Hnodup. apply NoDup_cons in Hnodup as [Hnotin _]. apply Hnotin, list_elem_of_here.
Qed.

(** ** Examples for the modifiers and the memory limit *)

Lemma dnstype_rule_is_candidate_iff_witness :
  (match_adblock_modifiers Examples.dnstype_rule Examples.mx_query
   = AMMS_MATCH_CANDIDATE
   <-> (DTMM_ENABLE = DTMM_ENABLE /\ rr_type Examples.mx_query ∈ [Examples.A])
       \/ (DTMM_ENABLE = DTMM_EXCLUDE /\ rr_type Examples.mx_query ∉ [Examples.A]))
  /\ (match_adblock_modifiers Examples.dnstype_rule Examples.mx_query
      <> AMMS_MATCH_CANDIDATE ->
      forall (m : match_arg) (line : str),
        ctx m = Examples.mx_query ->
        @parse Reference.externals line = Some Examples.dnstype_rule ->
        @match_against_line Reference.externals m line = (false, m)).
Proof.
  apply (@dnstype_rule_is_candidate_iff Reference.externals Examples.dnstype_rule
           {| props := 8; params_dnsrewrite := None |}
           {| types := [Examples.A]; mode := DTMM_ENABLE |} Examples.mx_query).
  - vm_compute. reflexivity.
  - vm_compute. reflexivity.
  - vm_compute. reflexivity.
  - vm_compute. reflexivity.
Defined.

(** C5, counterexample.  The rule [example.com$dnstype=A,badfilter] carries
    [DNSTYPE] with the enabled set [A]; for a request of type [MX], which is
    not in the set, the modifiers give [AMMS_MATCHED_SURELY] and
    [match_against_line] adds the rule to the accumulator. *)
Lemma dnstype_badfilter_rule_matches_any_type :
  @parse Reference.externals Examples.dnstype_badfilter_line
  = Some Examples.dnstype_badfilter_rule
  /\ adblock_has_prop (public_part Examples.dnstype_badfilter_rule) DARP_DNSTYPE = true
  /\ dnstype Examples.dnstype_badfilter_rule
     = Some {| types := [LDNS_RR_TYPE_A]; mode := DTMM_ENABLE |}
  /\ rr_type Examples.mx_query = LDNS_RR_TYPE_MX
  /\ (LDNS_RR_TYPE_MX ∉ [LDNS_RR_TYPE_A])
  /\ match_adblock_modifiers Examples.dnstype_badfilter_rule
       Examples.mx_query = AMMS_MATCHED_SURELY
  /\ @match_against_line Reference.externals (Examples.start Examples.mx_query)
       Examples.dnstype_badfilter_line
     = (true, push_matched (Examples.start Examples.mx_query)
                (public_part Examples.dnstype_badfilter_rule)).
Proof.
  repeat split; try (vm_compute; reflexivity).
  intros Hin. apply list_elem_of_singleton in Hin. discriminate.
Qed.

Lemma load_stops_at_mem_limit_witness :
  fst (fst (@load Reference.externals Examples.hosts_fs new_filter
              (Examples.blob_params Examples.three_rules) 20)) = LR_MEM_LIMIT_REACHED
  /\ snd (fst (@load Reference.externals Examples.hosts_fs new_filter
                 (Examples.blob_params Examples.three_rules) 20)) = 16%N
  /\ pimpl (snd (@load Reference.externals Examples.hosts_fs new_filter
                   (Examples.blob_params Examples.three_rules) 20))
     = with_approx_mem
         (la_filter
            (snd (@load_line Reference.externals 12 (lit "example.com")
                    (snd (@load_line Reference.externals 0 (lit "example.org")
                            (@load_start Reference.externals Examples.hosts_fs new_filter
                               (Examples.blob_params Examples.three_rules) 20))))))
         16.
Proof.
  apply (@load_stops_at_mem_limit Reference.externals Examples.hosts_fs new_filter
           (Examples.blob_params Examples.three_rules) 20
           [(0%N, lit "example.org")] [(24%N, lit "example.net")] 12 (lit "example.com")
           (Examples.parsed "example.com")
           (snd (@load_line Reference.externals 0 (lit "example.org")
                   (@load_start Reference.externals Examples.hosts_fs new_filter
                      (Examples.blob_params Examples.three_rules) 20)))).
  - discriminate.
  - discriminate.
  - vm_compute. reflexivity.
  - vm_compute. reflexivity.
  - vm_compute. reflexivity.
  - vm_compute. reflexivity.
Defined.

(** ** The index that [load] builds *)

(** X1. After any sequence of insertions into empty tables the offsets
    inserted under a hash are all kept, in the order of the insertions:
    without an insertion the hash is a key of neither table, one offset
    sits in the unique table alone, and two or more sit as one list in
    the multi table alone. *)
Theorem put_all_keeps_offsets (ops : list (N * N)) (h : N) :
  holds_offsets (put_all ops (∅, ∅)) h (offsets_of h ops).
Proof.
  apply (put_all_holds_offsets ops (∅, ∅) h []). simpl. by rewrite !lookup_empty.
Qed.

Section LoadLines.
Context `{Externals}.

(** Every exit of [load_line] after a parsed rule is one of the two exits
    of [CHECK_MEM]. *)
Lemma load_line_cases fidx line a :
  load_line fidx line a = (true, a)
  \/ exists mem s1 s2,
       load_line fidx line a
       = if CHECK_MEM a mem then mem_limit_reached a s1 else next_line a s2 mem.
Proof.
  unfold load_line. destruct (parse line) as [r|]; [|by left]. right.
  assert (Hleft : exists mem s1 s2,
            load_leftover_rule fidx r a
            = if CHECK_MEM a mem then mem_limit_reached a s1 else next_line a s2 mem).
  { unfold load_leftover_rule. by eexists _, _, _. }
  assert (Hshort : exists mem s1 s2,
            load_shortcut_rule fidx r a
            = if CHECK_MEM a mem then mem_limit_reached a s1 else next_line a s2 mem).
  { unfold load_shortcut_rule. destruct (find_shortcut r); [|exact Hleft]. by eexists _, _, _. }
  assert (Hdom : exists mem s1 s2,
            load_domain_rule fidx r a
            = if CHECK_MEM a mem then mem_limit_reached a s1 else next_line a s2 mem).
  { unfold load_domain_rule. by eexists _, _, _. }
  destruct (adblock_has_prop _ _).
  { unfold load_badfilter_rule. by eexists _, _, _. }
  by destruct (match_method r).
Qed.

Lemma CHECK_MEM_no_limit a mem : la_mem_limit a = 0%N -> CHECK_MEM a mem = false.
Proof. unfold CHECK_MEM. by intros ->. Qed.

(** What a call of [load_line] does to the argument of the pass. *)
Lemma load_line_step fidx line a :
  la_mem_limit (snd (load_line fidx line a)) = la_mem_limit a
  /\ (la_result a <> LR_ERROR -> la_result (snd (load_line fidx line a)) <> LR_ERROR)
  /\ (la_mem_limit a = 0%N -> fst (load_line fidx line a) = true)
  /\ (la_result a = LR_OK -> fst (load_line fidx line a) = true ->
      la_result (snd (load_line fidx line a)) = LR_OK)
  /\ (fst (load_line fidx line a) = false ->
      la_result (snd (load_line fidx line a)) = LR_MEM_LIMIT_REACHED)
  /\ (la_mem_limit a <> 0%N -> (la_approx_mem a <= la_mem_limit a)%N ->
      (la_approx_mem (snd (load_line fidx line a)) <= la_mem_limit a)%N).
Proof.
  destruct (load_line_cases fidx line a) as [->|(mem & s1 & s2 & ->)]; [done|].
  destruct (CHECK_MEM a mem) eqn:Hcheck; simpl.
  - repeat split; try done. intros Hzero. by rewrite CHECK_MEM_no_limit in Hcheck.
  - repeat split; try done. intros Hlimit _.
    unfold CHECK_MEM in Hcheck. apply andb_false_iff in Hcheck as [Hzero|Hlt].
    + apply negb_false_iff, N.eqb_eq in Hzero. done.
    + by apply N.ltb_ge in Hlt.
Qed.

Lemma iterate_load_line_step lines a :
  la_mem_limit (snd (iterate_lines load_line lines a)) = la_mem_limit a
  /\ (la_result a <> LR_ERROR ->
      la_result (snd (iterate_lines load_line lines a)) <> LR_ERROR)
  /\ (la_mem_limit a = 0%N -> fst (iterate_lines load_line lines a) = true)
  /\ (la_result a = LR_OK -> fst (iterate_lines load_line lines a) = true ->
      la_result (snd (iterate_lines load_line lines a)) = LR_OK)
  /\ (fst (iterate_lines load_line lines a) = false ->
      la_result (snd (iterate_lines load_line lines a)) = LR_MEM_LIMIT_REACHED)
  /\ (la_mem_limit a <> 0%N -> (la_approx_mem a <= la_mem_limit a)%N ->
      (la_approx_mem (snd (iterate_lines load_line lines a)) <= la_mem_limit a)%N).
Proof.
  revert a. induction lines as [|[idx line] lines IH]; intros a; cbn [iterate_lines].
  - repeat split; done.
  - destruct (load_line_step idx line a) as (Hlim & Herr & Hzero & Hok & Hstop & Hmem).
    destruct (load_line idx line a) as [[|] a'] eqn:E; cbn [fst snd] in *.
    + destruct (IH a') as (Hlim' & Herr' & Hzero' & Hok' & Hstop' & Hmem').
      rewrite Hlim in *. repeat split; auto.
    + repeat split; auto.
Qed.

(** The result of [load] when the source can be read. *)
Lemma load_readable fs this p mem_limit :
  (in_memory p = false -> is_Some (fs_open fs (data p))) ->
  fst (load fs this p mem_limit)
  = (la_result (snd (iterate_lines load_line (source_lines (load_fd fs p) p)
                       (load_start fs this p mem_limit))),
     la_approx_mem (snd (iterate_lines load_line (source_lines (load_fd fs p) p)
                           (load_start fs this p mem_limit))))
  /\ pimpl (snd (load fs this p mem_limit))
     = with_approx_mem
         (la_filter (snd (iterate_lines load_line (source_lines (load_fd fs p) p)
                            (load_start fs this p mem_limit))))
         (la_approx_mem (snd (iterate_lines load_line (source_lines (load_fd fs p) p)
                                (load_start fs this p mem_limit)))).
Proof.
  intros Hopen. unfold load.
  assert (Hfd : negb (in_memory p) && bool_decide (load_fd fs p = None) = false).
  { unfold load_fd. destruct (in_memory p); [done|]. simpl.
    destruct (Hopen eq_refl) as [content ->]. done. }
  rewrite Hfd. cbn [fst snd pimpl]. by rewrite load_for_each_line_iterate.
Qed.

Lemma load_unreadable fs this p mem_limit :
  in_memory p = false -> fs_open fs (data p) = None ->
  load fs this p mem_limit = ((LR_ERROR, 0%N), this).
Proof.
  intros Hmem Hopen. unfold load, load_fd. rewrite Hmem, Hopen. done.
Qed.

Lemma load_start_fresh fs this p mem_limit :
  la_mem_limit (load_start fs this p mem_limit) = mem_limit
  /\ la_result (load_start fs this p mem_limit) = LR_OK
  /\ la_approx_mem (load_start fs this p mem_limit) = 0%N
  /\ domain_tables (la_filter (load_start fs this p mem_limit)) = domain_tables (pimpl this)
  /\ badfilter_table (la_filter (load_start fs this p mem_limit)) = badfilter_table (pimpl this).
Proof. done. Qed.

(** The insertions of one line into the domain tables. *)
Lemma load_line_domain_tables fidx line a :
  la_mem_limit a = 0%N ->
  domain_tables (la_filter (snd (load_line fidx line a)))
  = put_all (domain_ops_of_line (fidx, line)) (domain_tables (la_filter a)).
Proof.
  intros Hzero. unfold load_line, domain_ops_of_line. cbn [fst snd].
  destruct (parse line) as [r|]; [|done].
  assert (Hleft : domain_tables (la_filter (snd (load_leftover_rule fidx r a)))
                  = domain_tables (la_filter a)).
  { unfold load_leftover_rule. by destruct (CHECK_MEM _ _). }
  assert (Hshort : domain_tables (la_filter (snd (load_shortcut_rule fidx r a)))
                   = domain_tables (la_filter a)).
  { unfold load_shortcut_rule. destruct (find_shortcut r); [|done].
    by destruct (CHECK_MEM _ _). }
  assert (Hdom : domain_tables (la_filter (snd (load_domain_rule fidx r a)))
                 = put_all (map (fun d => (hash32 d, fidx)) (matching_parts r))
                     (domain_tables (la_filter a))).
  { unfold load_domain_rule. rewrite CHECK_MEM_no_limit by done. cbn [snd next_line la_filter].
    unfold domain_tables at 1. cbn [with_domain_tables unique_domains_table domains_table].
    rewrite <- surjective_pairing. unfold put_all, domain_tables.
    generalize (unique_domains_table (la_filter a), domains_table (la_filter a)).
    induction (matching_parts r) as [|d parts IH]; intros t; simpl; [done|]. apply IH. }
  destruct (adblock_has_prop _ _).
  { unfold load_badfilter_rule. by destruct (CHECK_MEM _ _). }
  by destruct (match_method r).
Qed.

Lemma iterate_load_line_domain_tables lines a :
  la_mem_limit a = 0%N ->
  domain_tables (la_filter (snd (iterate_lines load_line lines a)))
  = put_all (domain_ops lines) (domain_tables (la_filter a)).
Proof.
  revert a. induction lines as [|[idx line] lines IH]; intros a Hzero; [done|].
  cbn [iterate_lines domain_ops flat_map]. fold (domain_ops lines). rewrite put_all_app.
  rewrite <- (load_line_domain_tables idx line a Hzero).
  destruct (load_line_step idx line a) as (Hlim & _ & Hgo & _).
  specialize (Hgo Hzero).
  destruct (load_line idx line a) as [go a'] eqn:E. cbn [fst snd] in *. subst go.
  apply IH. by rewrite Hlim.
Qed.

(** The insertion of one line into the [badfilter] table. *)
Lemma load_line_badfilter_table fidx line a h :
  la_mem_limit a = 0%N ->
  badfilter_table (la_filter (snd (load_line fidx line a))) !! h
  = match last (offsets_of h (badfilter_ops_of_line (fidx, line))) with
    | Some i => Some i
    | None => badfilter_table (la_filter a) !! h
    end.
Proof.
  intros Hzero. unfold load_line, badfilter_ops_of_line. cbn [fst snd].
  destruct (parse line) as [r|]; [|done].
  assert (Hleft : badfilter_table (la_filter (snd (load_leftover_rule fidx r a)))
                  = badfilter_table (la_filter a)).
  { unfold load_leftover_rule. by destruct (CHECK_MEM _ _). }
  assert (Hshort : badfilter_table (la_filter (snd (load_shortcut_rule fidx r a)))
                   = badfilter_table (la_filter a)).
  { unfold load_shortcut_rule. destruct (find_shortcut r); [|done].
    by destruct (CHECK_MEM _ _). }
  assert (Hdom : badfilter_table (la_filter (snd (load_domain_rule fidx r a)))
                 = badfilter_table (la_filter a)).
  { unfold load_domain_rule. by destruct (CHECK_MEM _ _). }
  destruct (adblock_has_prop _ _).
  - unfold load_badfilter_rule. rewrite CHECK_MEM_no_limit by done.
    cbn [snd next_line la_filter with_badfilter_table badfilter_table].
    unfold offsets_of. cbn [List.filter fst].
    destruct (N.eqb_spec (hash32 (get_text_without_badfilter (public_part r))) h) as [->|Hne].
    + cbn [map snd last]. by rewrite lookup_insert_eq.
    + cbn [map last]. by rewrite lookup_insert_ne.
  - destruct (match_method r); cbn [offsets_of List.filter map last]; congruence.
Qed.

Lemma iterate_load_line_badfilter_table lines a h :
  la_mem_limit a = 0%N ->
  badfilter_table (la_filter (snd (iterate_lines load_line lines a))) !! h
  = match last (offsets_of h (badfilter_ops lines)) with
    | Some i => Some i
    | None => badfilter_table (la_filter a) !! h
    end.
Proof.
  revert a. induction lines as [|[idx line] lines IH]; intros a Hzero; [done|].
  cbn [iterate_lines badfilter_ops flat_map]. fold (badfilter_ops lines).
  rewrite offsets_of_app, last_app.
  pose proof (load_line_badfilter_table idx line a h Hzero) as Hstep.
  destruct (load_line_step idx line a) as (Hlim & _ & Hgo & _).
  specialize (Hgo Hzero).
  destruct (load_line idx line a) as [go a'] eqn:E. cbn [fst snd] in *. subst go.
  rewrite IH by (by rewrite Hlim).
  destruct (last (offsets_of h (badfilter_ops lines))); [done|]. exact Hstep.
Qed.

Lemma load_approx_mem_le fs this p mem_limit :
  mem_limit <> 0%N -> (snd (fst (load fs this p mem_limit)) <= mem_limit)%N.
Proof.
  intros Hlimit.
  destruct (in_memory p) eqn:Hmem; [|destruct (fs_open fs (data p)) as [content|] eqn:Hopen].
  3: { rewrite load_unreadable by done. cbn [fst snd]. lia. }
  all: destruct (load_readable fs this p mem_limit) as [-> _];
    [first [by rewrite Hmem | by rewrite Hopen]|]; cbn [fst snd];
    destruct (iterate_load_line_step (source_lines (load_fd fs p) p)
                (load_start fs this p mem_limit)) as (_ & _ & _ & _ & _ & Hle);
    apply Hle; [done|cbn; lia].
Qed.

(** The domain tables of a filter loaded without a limit. *)
Lemma load_holds_domain_offsets fs p h :
  (in_memory p = false -> is_Some (fs_open fs (data p))) ->
  holds_offsets (domain_tables (pimpl (snd (load fs new_filter p 0)))) h
    (offsets_of h (domain_ops (source_lines (load_fd fs p) p))).
Proof.
  intros Hopen. destruct (load_readable fs new_filter p 0 Hopen) as [_ ->].
  change (domain_tables (with_approx_mem ?s ?n)) with (domain_tables s).
  rewrite iterate_load_line_domain_tables by done.
  apply (put_all_holds_offsets _ (∅, ∅) h []). simpl. by rewrite !lookup_empty.
Qed.

(** The parameters that [load] stores for a readable file below 2 GiB. *)
Lemma load_file_params fs this p mem_limit content :
  in_memory p = false ->
  fs_open fs (data p) = Some content ->
  (Z.of_nat (length content) < 2 ^ 31)%Z ->
  params (snd (load fs this p mem_limit))
  = {| id_ := id_ p; data := data p; in_memory := false; mtime := fs_mtime fs (data p) |}.
Proof.
  intros Hmem Hopen Hsize.
  unfold load, load_fd. rewrite Hmem, Hopen. cbn [negb andb snd params load_for_each_line].
  rewrite bool_decide_eq_false_2 by done. cbn [snd params].
  assert (Hrc : forall (A : Type) (action : N -> str -> A -> bool * A) (arg : A),
            fst (for_each_line content action arg) = 0%Z).
  { intros A action arg. unfold for_each_line. rewrite to_int_small by done.
    destruct (_ <? 0)%Z eqn:Hneg; [lia|].
    destruct (for_each_line_reads _ _ _ _ _ _ _ _) as [[[? ?] ?]|?]; [|done].
    by destruct (_ <? _)%N. }
  rewrite Hrc. cbn. by rewrite Hmem.
Qed.

Lemma load_file_not_outdated fs this p mem_limit content :
  in_memory p = false ->
  fs_open fs (data p) = Some content ->
  (Z.of_nat (length content) < 2 ^ 31)%Z ->
  fs_mtime fs (data p) <> 0%Z ->
  check_filter_outdated fs (snd (load fs this p mem_limit)) = false.
Proof.
  intros Hmem Hopen Hsize Htime. unfold check_filter_outdated.
  rewrite (load_file_params fs this p mem_limit content) by done.
  cbn [in_memory data mtime].
  rewrite Z.eqb_refl. destruct (Z.eqb_spec (fs_mtime fs (data p)) 0); done.
Qed.

End LoadLines.

(** X2. [load] returns [LR_ERROR] exactly when the rule source is a file
    that cannot be opened; it then reports no memory and leaves the
    filter, parameters and index, as it was. *)
Theorem load_error_iff `{Externals} (fs : file_system) (this : filter) (p : filter_params)
    (mem_limit : N) :
  (fst (fst (load fs this p mem_limit)) = LR_ERROR
   <-> in_memory p = false /\ fs_open fs (data p) = None)
  /\ (fst (fst (load fs this p mem_limit)) = LR_ERROR ->
      load fs this p mem_limit = ((LR_ERROR, 0%N), this)).
Proof.
  assert (Hiff : fst (fst (load fs this p mem_limit)) = LR_ERROR
                 <-> in_memory p = false /\ fs_open fs (data p) = None).
  { split.
    - intros Herr. destruct (in_memory p) eqn:Hmem.
      + destruct (load_readable fs this p mem_limit) as [Hres _]; [by rewrite Hmem|].
        rewrite Hres in Herr. cbn [fst] in Herr.
        destruct (iterate_load_line_step (source_lines (load_fd fs p) p)
                    (load_start fs this p mem_limit)) as (_ & Hne & _).
        exfalso. by apply Hne.
      + split; [done|]. destruct (fs_open fs (data p)) as [content|] eqn:Hopen; [|done].
        destruct (load_readable fs this p mem_limit) as [Hres _]; [by rewrite Hopen|].
        rewrite Hres in Herr. cbn [fst] in Herr.
        destruct (iterate_load_line_step (source_lines (load_fd fs p) p)
                    (load_start fs this p mem_limit)) as (_ & Hne & _).
        exfalso. by apply Hne.
    - intros [Hmem Hopen]. by rewrite load_unreadable. }
  split; [exact Hiff|]. intros [Hmem Hopen]%Hiff. by apply load_unreadable.
Qed.

(** X3. With the limit 0 nothing stops the pass: when the source can be
    read, [load_line] returns [true] for every line of it and [load]
    returns [LR_OK]. *)
Theorem load_without_limit `{Externals} (fs : file_system) (this : filter)
    (p : filter_params) :
  (in_memory p = false -> is_Some (fs_open fs (data p))) ->
  fst (fst (load fs this p 0)) = LR_OK
  /\ fst (iterate_lines load_line (source_lines (load_fd fs p) p) (load_start fs this p 0))
     = true.
Proof.
  intros Hopen. destruct (load_readable fs this p 0 Hopen) as [-> _]. cbn [fst].
  destruct (iterate_load_line_step (source_lines (load_fd fs p) p) (load_start fs this p 0))
    as (_ & _ & Hgo & Hok & _).
  specialize (Hgo eq_refl). split; [|exact Hgo]. by apply Hok.
Qed.

Lemma load_without_limit_witness :
  fst (fst (@load Reference.externals Examples.hosts_fs new_filter
              (Examples.blob_params Examples.three_rules) 0)) = LR_OK
  /\ fst (iterate_lines (@load_line Reference.externals)
            (@source_lines Reference.externals
               (load_fd Examples.hosts_fs (Examples.blob_params Examples.three_rules))
               (Examples.blob_params Examples.three_rules))
            (@load_start Reference.externals Examples.hosts_fs new_filter
               (Examples.blob_params Examples.three_rules) 0))
     = true.
Proof.
  apply (@load_without_limit Reference.externals Examples.hosts_fs new_filter
           (Examples.blob_params Examples.three_rules)).
  discriminate.
Defined.

(** X4. With a limit that is not zero the memory that [load] reports
    never exceeds the limit. *)
Theorem load_mem_within_limit `{Externals} (fs : file_system) (this : filter)
    (p : filter_params) (mem_limit : N) :
  mem_limit <> 0%N -> (snd (fst (load fs this p mem_limit)) <= mem_limit)%N.
Proof. apply load_approx_mem_le. Qed.

Lemma load_mem_within_limit_witness :
  (snd (fst (@load Reference.externals Examples.hosts_fs new_filter
               (Examples.blob_params Examples.three_rules) 20)) <= 20)%N.
Proof.
  apply (@load_mem_within_limit Reference.externals Examples.hosts_fs new_filter
           (Examples.blob_params Examples.three_rules) 20).
  lia.
Defined.

(** X5. Loaded without a limit into a fresh filter, the domain tables
    hold for every hash the offsets of the lines whose rule has a
    matching part with that hash, in the order of the source: no offset
    of a domain rule is lost, none is added, and the hash sits in the
    unique table exactly when one offset has it. *)
Theorem load_indexes_domain_rules `{Externals} (fs : file_system) (p : filter_params)
    (h : N) :
  (in_memory p = false -> is_Some (fs_open fs (data p))) ->
  holds_offsets (domain_tables (pimpl (snd (load fs new_filter p 0)))) h
    (offsets_of h (domain_ops (source_lines (load_fd fs p) p))).
Proof. apply load_holds_domain_offsets. Qed.

Lemma load_indexes_domain_rules_witness :
  holds_offsets
    (domain_tables
       (pimpl (snd (@load Reference.externals MoreExamples.rules_fs new_filter
                      (Examples.file_params MoreExamples.rules_path) 0))))
    (@hash32 Reference.externals (lit "example.org"))
    [0%N; 27%N].
Proof.
  apply (@load_indexes_domain_rules Reference.externals MoreExamples.rules_fs
           (Examples.file_params MoreExamples.rules_path)
           (@hash32 Reference.externals (lit "example.org"))).
  intros _. vm_compute. eauto.
Defined.

(** X6. Loaded without a limit into a fresh filter, the [badfilter] table
    gives for every hash the offset of the last [badfilter] rule of the
    source whose text without the modifier has that hash, and nothing for
    a hash that no such rule has. *)
Theorem load_indexes_badfilter_rules `{Externals} (fs : file_system) (p : filter_params)
    (h : N) :
  (in_memory p = false -> is_Some (fs_open fs (data p))) ->
  badfilter_table (pimpl (snd (load fs new_filter p 0))) !! h
  = last (offsets_of h (badfilter_ops (source_lines (load_fd fs p) p))).
Proof.
  intros Hopen. destruct (load_readable fs new_filter p 0 Hopen) as [_ ->].
  change (badfilter_table (with_approx_mem ?s ?n)) with (badfilter_table s).
  rewrite iterate_load_line_badfilter_table by done.
  destruct (last _); [done|]. apply lookup_empty.
Qed.

Lemma load_indexes_badfilter_rules_witness :
  badfilter_table
    (pimpl (snd (@load Reference.externals Examples.bad_fs new_filter
                   (Examples.file_params Examples.bad_path) 0)))
    !! @hash32 Reference.externals (lit "example.org")
  = Some 0%N.
Proof.
  apply (@load_indexes_badfilter_rules Reference.externals Examples.bad_fs
           (Examples.file_params Examples.bad_path)
           (@hash32 Reference.externals (lit "example.org"))).
  intros _. vm_compute. eauto.
Defined.

(** X7. A filter loaded from a readable file below 2 GiB whose
    modification time is available is not outdated right after the load,
    for as long as the time of the file stays what it was. *)
Theorem load_then_not_outdated `{Externals} (fs : file_system) (this : filter)
    (p : filter_params) (mem_limit : N) (content : str) :
  in_memory p = false ->
  fs_open fs (data p) = Some content ->
  (Z.of_nat (length content) < 2 ^ 31)%Z ->
  fs_mtime fs (data p) <> 0%Z ->
  params (snd (load fs this p mem_limit))
  = {| id_ := id_ p; data := data p; in_memory := false; mtime := fs_mtime fs (data p) |}
  /\ check_filter_outdated fs (snd (load fs this p mem_limit)) = false.
Proof.
  intros Hmem Hopen Hsize Htime. split.
  - by apply load_file_params with content.
  - by apply load_file_not_outdated with content.
Qed.

Lemma load_then_not_outdated_witness :
  params (snd (@load Reference.externals MoreExamples.rules_fs new_filter
                 (Examples.file_params MoreExamples.rules_path) 0))
  = {| id_ := 1; data := MoreExamples.rules_path; in_memory := false; mtime := 100 |}
  /\ @check_filter_outdated MoreExamples.rules_fs
       (snd (@load Reference.externals MoreExamples.rules_fs new_filter
               (Examples.file_params MoreExamples.rules_path) 0)) = false.
Proof.
  apply (@load_then_not_outdated Reference.externals MoreExamples.rules_fs new_filter
           (Examples.file_params MoreExamples.rules_path) 0 MoreExamples.rules_file).
  - reflexivity.
  - reflexivity.
  - vm_compute. reflexivity.
  - discriminate.
Defined.

Section LoadPatternRules.
Context `{Externals}.

(** The insertion of one line into the shortcuts table. *)
Lemma load_line_shortcuts_table fidx line a h :
  la_mem_limit a = 0%N ->
  default [] (shortcuts_table (la_filter (snd (load_line fidx line a))) !! h)
  = default [] (shortcuts_table (la_filter a) !! h)
    ++ offsets_of h (shortcut_ops_of_line (fidx, line)).
Proof.
  intros Hzero. unfold load_line, shortcut_ops_of_line. cbn [fst snd].
  destruct (parse line) as [r|]; [|by rewrite app_nil_r].
  assert (Hleft : shortcuts_table (la_filter (snd (load_leftover_rule fidx r a)))
                  = shortcuts_table (la_filter a)).
  { unfold load_leftover_rule. by destruct (CHECK_MEM _ _). }
  assert (Hdom : shortcuts_table (la_filter (snd (load_domain_rule fidx r a)))
                 = shortcuts_table (la_filter a)).
  { unfold load_domain_rule. by destruct (CHECK_MEM _ _). }
  assert (Hshort : default [] (shortcuts_table (la_filter (snd (load_shortcut_rule fidx r a)))
                               !! h)
                   = default [] (shortcuts_table (la_filter a) !! h)
                     ++ offsets_of h
                          match find_shortcut r with
                          | Some sc => [(hash32 (sv.substr sc 0 SHORTCUT_LENGTH), fidx)]
                          | None => []
                          end).
  { unfold load_shortcut_rule. destruct (find_shortcut r) as [sc|].
    - rewrite CHECK_MEM_no_limit by done.
      cbn [snd next_line la_filter with_shortcuts_table shortcuts_table].
      unfold offsets_of. cbn [List.filter fst].
      destruct (N.eqb_spec (hash32 (sv.substr sc 0 SHORTCUT_LENGTH)) h) as [->|Hne].
      + by rewrite lookup_insert_eq.
      + rewrite lookup_insert_ne by done. by rewrite app_nil_r.
    - rewrite Hleft. by rewrite app_nil_r. }
  destruct (adblock_has_prop _ _).
  { unfold load_badfilter_rule. destruct (CHECK_MEM _ _); by rewrite app_nil_r. }
  destruct (match_method r); try exact Hshort.
  - rewrite Hdom. by rewrite app_nil_r.
  - rewrite Hdom. by rewrite app_nil_r.
  - rewrite Hleft. by rewrite app_nil_r.
Qed.

(** A key of the shortcuts table always has an offset. *)
Lemma load_line_shortcuts_table_keys fidx line a :
  (forall h, shortcuts_table (la_filter a) !! h <> Some []) ->
  forall h, shortcuts_table (la_filter (snd (load_line fidx line a))) !! h <> Some [].
Proof.
  intros Hkeys. unfold load_line. destruct (parse line) as [r|]; [|done].
  assert (Hleft : shortcuts_table (la_filter (snd (load_leftover_rule fidx r a)))
                  = shortcuts_table (la_filter a)).
  { unfold load_leftover_rule. by destruct (CHECK_MEM _ _). }
  assert (Hdom : shortcuts_table (la_filter (snd (load_domain_rule fidx r a)))
                 = shortcuts_table (la_filter a)).
  { unfold load_domain_rule. by destruct (CHECK_MEM _ _). }
  assert (Hshort : forall h, shortcuts_table (la_filter (snd (load_shortcut_rule fidx r a))) !! h
                             <> Some []).
  { unfold load_shortcut_rule. destruct (find_shortcut r) as [sc|]; [|by rewrite Hleft].
    intros h.
    assert (Hins : <[hash32 (sv.substr sc 0 SHORTCUT_LENGTH) :=
                      default [] (shortcuts_table (la_filter a)
                                    !! hash32 (sv.substr sc 0 SHORTCUT_LENGTH)) ++ [fidx]]>
                     (shortcuts_table (la_filter a)) !! h <> Some []).
    { destruct (decide (hash32 (sv.substr sc 0 SHORTCUT_LENGTH) = h)) as [->|Hne].
      - rewrite lookup_insert_eq. intros [= Heq]. by destruct (default _ _).
      - by rewrite lookup_insert_ne. }
    by destruct (CHECK_MEM _ _). }
  destruct (adblock_has_prop _ _).
  { unfold load_badfilter_rule. by destruct (CHECK_MEM _ _). }
  destruct (match_method r); try exact Hshort; by rewrite ?Hdom, ?Hleft.
Qed.

Lemma iterate_load_line_shortcuts_table lines a h :
  la_mem_limit a = 0%N ->
  default [] (shortcuts_table (la_filter (snd (iterate_lines load_line lines a))) !! h)
  = default [] (shortcuts_table (la_filter a) !! h) ++ offsets_of h (shortcut_ops lines).
Proof.
  revert a. induction lines as [|[idx line] lines IH]; intros a Hzero.
  - by rewrite app_nil_r.
  - cbn [iterate_lines shortcut_ops flat_map]. fold (shortcut_ops lines).
    rewrite offsets_of_app, app_assoc.
    rewrite <- (load_line_shortcuts_table idx line a h Hzero).
    destruct (load_line_step idx line a) as (Hlim & _ & Hgo & _).
    specialize (Hgo Hzero).
    destruct (load_line idx line a) as [go a'] eqn:E. cbn [fst snd] in *. subst go.
    apply IH. by rewrite Hlim.
Qed.

Lemma iterate_load_line_shortcuts_table_keys lines a :
  (forall h, shortcuts_table (la_filter a) !! h <> Some []) ->
  forall h, shortcuts_table (la_filter (snd (iterate_lines load_line lines a))) !! h <> Some [].
Proof.
  revert a. induction lines as [|[idx line] lines IH]; intros a Hkeys; [done|].
  cbn [iterate_lines].
  pose proof (load_line_shortcuts_table_keys idx line a Hkeys) as Hstep.
  destruct (load_line idx line a) as [[|] a']; cbn [snd] in *; [by apply IH|done].
Qed.

(** The entry of one line in the leftovers table. *)
Lemma load_line_leftovers_table fidx line a :
  la_mem_limit a = 0%N ->
  leftovers_table (la_filter (snd (load_line fidx line a)))
  = leftovers_table (la_filter a) ++ leftovers_of_line (fidx, line).
Proof.
  intros Hzero. unfold load_line, leftovers_of_line. cbn [fst snd].
  destruct (parse line) as [r|]; [|by rewrite app_nil_r].
  assert (Hleft : leftovers_table (la_filter (snd (load_leftover_rule fidx r a)))
                  = leftovers_table (la_filter a) ++ [make_leftover_entry fidx r]).
  { unfold load_leftover_rule. by destruct (CHECK_MEM _ _). }
  assert (Hdom : leftovers_table (la_filter (snd (load_domain_rule fidx r a)))
                 = leftovers_table (la_filter a)).
  { unfold load_domain_rule. by destruct (CHECK_MEM _ _). }
  assert (Hshort : leftovers_table (la_filter (snd (load_shortcut_rule fidx r a)))
                   = leftovers_table (la_filter a)
                     ++ match find_shortcut r with
                        | Some _ => []
                        | None => [make_leftover_entry fidx r]
                        end).
  { unfold load_shortcut_rule. destruct (find_shortcut r) as [sc|]; [|exact Hleft].
    destruct (CHECK_MEM _ _); by rewrite app_nil_r. }
  destruct (adblock_has_prop _ _).
  { unfold load_badfilter_rule. destruct (CHECK_MEM _ _); by rewrite app_nil_r. }
  destruct (match_method r); try exact Hshort; try exact Hleft.
  - rewrite Hdom. by rewrite app_nil_r.
  - rewrite Hdom. by rewrite app_nil_r.
Qed.

Lemma iterate_load_line_leftovers_table lines a :
  la_mem_limit a = 0%N ->
  leftovers_table (la_filter (snd (iterate_lines load_line lines a)))
  = leftovers_table (la_filter a) ++ flat_map leftovers_of_line lines.
Proof.
  revert a. induction lines as [|[idx line] lines IH]; intros a Hzero.
  - by rewrite app_nil_r.
  - cbn [iterate_lines flat_map]. rewrite app_assoc.
    rewrite <- (load_line_leftovers_table idx line a Hzero).
    destruct (load_line_step idx line a) as (Hlim & _ & Hgo & _).
    specialize (Hgo Hzero).
    destruct (load_line idx line a) as [go a'] eqn:E. cbn [fst snd] in *. subst go.
    apply IH. by rewrite Hlim.
Qed.

End LoadPatternRules.

(** X8. Loaded without a limit into a fresh filter, the shortcuts table
    holds for every hash the offsets of the shortcut rules of the source
    whose first part of five characters or more begins with characters of
    that hash, in the order of the source, and a hash without such a rule
    is no key of the table. *)
Theorem load_indexes_shortcut_rules `{Externals} (fs : file_system) (p : filter_params)
    (h : N) :
  (in_memory p = false -> is_Some (fs_open fs (data p))) ->
  shortcuts_table (pimpl (snd (load fs new_filter p 0))) !! h
  = match offsets_of h (shortcut_ops (source_lines (load_fd fs p) p)) with
    | [] => None
    | l => Some l
    end.
Proof.
  intros Hopen. destruct (load_readable fs new_filter p 0 Hopen) as [_ ->].
  change (shortcuts_table (with_approx_mem ?s ?n)) with (shortcuts_table s).
  pose proof (iterate_load_line_shortcuts_table (source_lines (load_fd fs p) p)
                (load_start fs new_filter p 0) h eq_refl) as Hoffsets.
  pose proof (iterate_load_line_shortcuts_table_keys (source_lines (load_fd fs p) p)
                (load_start fs new_filter p 0)) as Hkeys.
  change (shortcuts_table (la_filter (load_start fs new_filter p 0))) with (∅ : gmap N (list N))
    in Hoffsets, Hkeys.
  rewrite lookup_empty in Hoffsets. cbn [default app] in Hoffsets.
  specialize (Hkeys ltac:(intros h'; by rewrite lookup_empty) h).
  rewrite <- Hoffsets.
  destruct (shortcuts_table _ !! h) as [[|i l]|]; done.
Qed.

Lemma load_indexes_shortcut_rules_witness :
  shortcuts_table
    (pimpl (snd (@load Reference.externals Examples.hosts_fs new_filter
                   (Examples.blob_params (lit "example*org" ++ Examples.NL)) 0)))
    !! @hash32 Reference.externals (lit "examp")
  = Some [0%N].
Proof.
  apply (@load_indexes_shortcut_rules Reference.externals Examples.hosts_fs
           (Examples.blob_params (lit "example*org" ++ Examples.NL))
           (@hash32 Reference.externals (lit "examp"))).
  discriminate.
Defined.

(** X9. Loaded without a limit into a fresh filter, the leftovers table
    holds, in the order of the source, one entry for every rule that
    matches by a regex alone or whose shortcuts are all shorter than five
    characters, with the lowered shortcuts, the regex unless the rule
    matches by shortcuts alone, and the offset of the line. *)
Theorem load_indexes_leftover_rules `{Externals} (fs : file_system) (p : filter_params) :
  (in_memory p = false -> is_Some (fs_open fs (data p))) ->
  leftovers_table (pimpl (snd (load fs new_filter p 0)))
  = flat_map leftovers_of_line (source_lines (load_fd fs p) p).
Proof.
  intros Hopen. destruct (load_readable fs new_filter p 0 Hopen) as [_ ->].
  change (leftovers_table (with_approx_mem ?s ?n)) with (leftovers_table s).
  by rewrite iterate_load_line_leftovers_table.
Qed.

Lemma load_indexes_leftover_rules_witness :
  leftovers_table
    (pimpl (snd (@load Reference.externals Examples.hosts_fs new_filter
                   (Examples.blob_params (lit "ex*org" ++ Examples.NL)) 0)))
  = [ {| shortcuts := [lit "ex"; lit "org"]; regex := None; file_idx := 0 |} ].
Proof.
  apply (@load_indexes_leftover_rules Reference.externals Examples.hosts_fs
           (Examples.blob_params (lit "ex*org" ++ Examples.NL))).
  discriminate.
Defined.

(** ** Lines and offsets of a file *)

Section FileLines.
Context `{Externals}.

Lemma read_line_buffer_app b1 b2 :
  read_line_buffer (b1 ++ b2)
  = if snd (read_line_buffer b1) then read_line_buffer b1
    else (b1 ++ fst (read_line_buffer b2), snd (read_line_buffer b2)).
Proof.
  induction b1 as [|c b1 IH]; cbn [app read_line_buffer].
  - by destruct (read_line_buffer b2).
  - destruct (is_newline c); [done|]. rewrite IH.
    destruct (read_line_buffer b1) as [l [|]]; cbn [fst snd]; [done|].
    by destruct (read_line_buffer b2).
Qed.

Lemma read_line_buffer_not_found b :
  snd (read_line_buffer b) = false -> fst (read_line_buffer b) = b.
Proof.
  induction b as [|c b IH]; cbn [read_line_buffer]; [done|].
  destruct (is_newline c); [done|].
  destruct (read_line_buffer b) as [l found]; cbn [fst snd] in *.
  intros Hf. by rewrite (IH Hf).
Qed.

Lemma read_line_buffer_line line :
  forallb (fun c => negb (is_newline c)) line = true ->
  read_line_buffer line = (line, false).
Proof.
  induction line as [|c line IH]; cbn [forallb read_line_buffer]; [done|].
  intros [Hc Hl]%andb_prop. apply negb_true_iff in Hc. rewrite Hc, (IH Hl). done.
Qed.

Lemma read_line_buffer_line_break line c rest :
  forallb (fun c => negb (is_newline c)) line = true ->
  is_newline c = true ->
  read_line_buffer (line ++ c :: rest) = (line, true).
Proof.
  intros Hline Hc. rewrite read_line_buffer_app, (read_line_buffer_line _ Hline).
  cbn [fst snd read_line_buffer]. rewrite Hc. cbn [fst snd]. by rewrite app_nil_r.
Qed.

(** With enough fuel the reads of [read_line] collect the bytes before
    the first line break, whatever the size of the chunks. *)
Lemma read_line_reads_spec fuel rest line :
  length rest < fuel ->
  read_line_reads fuel rest line = line ++ fst (read_line_buffer rest).
Proof.
  revert rest line. induction fuel as [|fuel IH]; intros rest line Hfuel; [lia|].
  cbn [read_line_reads].
  destruct (length (take CHUNK_SIZE rest) =? 0) eqn:Hr.
  - apply Nat.eqb_eq in Hr. rewrite length_take in Hr.
    assert (rest = []) as ->.
    { destruct rest; [done|]. cbn [length] in Hr. unfold CHUNK_SIZE in Hr. lia. }
    cbn [read_line_buffer fst]. by rewrite app_nil_r.
  - apply Nat.eqb_neq in Hr.
    replace (read_line_buffer rest)
      with (read_line_buffer (take CHUNK_SIZE rest ++ drop CHUNK_SIZE rest))
      by (by rewrite take_drop).
    rewrite read_line_buffer_app.
    pose proof (read_line_buffer_not_found (take CHUNK_SIZE rest)) as Hnf.
    destruct (read_line_buffer (take CHUNK_SIZE rest)) as [l [|]]; cbn [fst snd] in *; [done|].
    rewrite IH.
    + by rewrite <- app_assoc.
    + rewrite length_drop. rewrite length_take in Hr. lia.
Qed.

(** The lines that [file_lines_from] cuts are the runs of bytes between
    the line breaks: at the offset of a line the file goes on with the
    bytes of the line and a line break, and the unfinished last line
    goes to the end of the file. *)
Lemma file_lines_from_cut bytes pre line pos line_idx :
  pos = length pre + length line -> line_idx = length pre ->
  forallb (fun c => negb (is_newline c)) line = true ->
  (forall o l, (o, l) ∈ fst (file_lines_from bytes pos line line_idx) ->
     o <= length (pre ++ line ++ bytes)
     /\ fst (read_line_buffer (drop o (pre ++ line ++ bytes))) = l)
  /\ fst (snd (file_lines_from bytes pos line line_idx))
     + length (snd (snd (file_lines_from bytes pos line line_idx)))
     = length (pre ++ line ++ bytes)
  /\ drop (fst (snd (file_lines_from bytes pos line line_idx))) (pre ++ line ++ bytes)
     = snd (snd (file_lines_from bytes pos line line_idx))
  /\ forallb (fun c => negb (is_newline c)) (snd (snd (file_lines_from bytes pos line line_idx)))
     = true.
Proof.
  revert pre line pos line_idx.
  induction bytes as [|c bytes IH]; intros pre line pos line_idx Hpos Hidx Hline;
    cbn [file_lines_from].
  - cbn [fst snd]. subst. rewrite app_nil_r. split; [intros o l Hin; inversion Hin|].
    split; [by rewrite length_app|]. split; [by rewrite drop_app_length|done].
  - destruct (is_newline c) eqn:Hc; cbn [negb].
    + destruct (IH (pre ++ line ++ [c]) [] (S pos) (S pos)) as (Hlines & Hlen & Hdrop & Hlast).
      { rewrite !length_app. simpl. lia. }
      { rewrite !length_app. simpl. lia. }
      { done. }
      destruct (file_lines_from bytes (S pos) [] (S pos)) as [ls last] eqn:E.
      cbn [fst snd] in *.
      replace ((pre ++ line ++ [c]) ++ [] ++ bytes) with (pre ++ line ++ c :: bytes) in *
        by (by rewrite <- !app_assoc).
      split; [|done]. intros o l Hin. apply elem_of_cons in Hin as [[= -> ->]|Hin].
      * subst line_idx. split; [rewrite length_app; lia|].
        rewrite drop_app_length. by rewrite read_line_buffer_line_break.
      * by apply Hlines.
    + destruct (IH pre (line ++ [c]) (S pos) line_idx) as (Hlines & Hrest).
      { rewrite length_app. simpl. lia. }
      { done. }
      { rewrite forallb_app, Hline. simpl. by rewrite Hc. }
      replace (pre ++ (line ++ [c]) ++ bytes) with (pre ++ line ++ c :: bytes) in *
        by (by rewrite <- !app_assoc).
      done.
Qed.

Lemma to_uint32_small (n : nat) : (Z.of_nat n < 2 ^ 31)%Z -> to_uint32 (N.of_nat n) = N.of_nat n.
Proof. intros Hn. unfold to_uint32. apply N.mod_small. lia. Qed.

(** The test before the last call of [for_each_line]: the unfinished
    last line has two bytes or more, or the file is empty. *)
Lemma last_line_test content :
  (Z.of_nat (length content) < 2 ^ 31)%Z ->
  (N.of_nat (fst (snd (file_lines content))) <? to_size_t (Z.of_nat (length content) - 1))%N
  = bool_decide (content = []) || (2 <=? length (snd (snd (file_lines content)))).
Proof.
  intros Hsize. destruct content as [|c content]; [done|].
  destruct (file_lines_from_cut (c :: content) [] [] 0 0) as (_ & Hlen & _); [done..|].
  fold (file_lines (c :: content)) in Hlen. cbn [app] in Hlen.
  rewrite bool_decide_eq_false_2 by done. cbn [orb].
  unfold to_size_t. rewrite Z.mod_small by (cbn [length] in *; lia).
  destruct (2 <=? _) eqn:Htwo.
  - apply Nat.leb_le in Htwo. apply N.ltb_lt. cbn [length] in *. lia.
  - apply Nat.leb_gt in Htwo. apply N.ltb_ge. cbn [length] in *. lia.
Qed.

(** [set_position] is negative for the offsets of 2^63 and more, which
    [lseek] refuses, and for those whose low 32 bits are 2^31 or more. *)
Lemma set_position_negative pos :
  (set_position pos <? 0)%Z = negb ((pos <? 2 ^ 63)%N && (pos mod 2 ^ 32 <? 2 ^ 31)%N).
Proof.
  unfold set_position. destruct (pos <? 2 ^ 63)%N; cbn [andb negb]; [|done].
  unfold to_int.
  pose proof (N.mod_upper_bound pos (2 ^ 32)%N ltac:(done)) as Hlow.
  pose proof (N.Div0.div_mod pos (2 ^ 32)%N) as Hdiv.
  set (q := (pos / 2 ^ 32)%N) in *. set (r := (pos mod 2 ^ 32)%N) in *.
  assert (Z.of_N pos = 2 ^ 32 * Z.of_N q + Z.of_N r)%Z as -> by lia.
  destruct (r <? 2 ^ 31)%N eqn:Hr; cbn [negb].
  - apply N.ltb_lt in Hr. apply Z.ltb_ge.
    rewrite <- (Z.mod_unique (2 ^ 32 * Z.of_N q + Z.of_N r + 2 ^ 31) (2 ^ 32)
               (Z.of_N q) (Z.of_N r + 2 ^ 31)); lia.
  - apply N.ltb_ge in Hr. apply Z.ltb_lt.
    rewrite <- (Z.mod_unique (2 ^ 32 * Z.of_N q + Z.of_N r + 2 ^ 31) (2 ^ 32)
               (Z.of_N q + 1) (Z.of_N r - 2 ^ 31)); lia.
Qed.

Lemma read_line_cases content pos :
  read_line content pos
  = if (pos <? 2 ^ 63)%N && (pos mod 2 ^ 32 <? 2 ^ 31)%N
    then Some (trim (fst (read_line_buffer (drop (N.to_nat pos) content))))
    else None.
Proof.
  unfold read_line. rewrite set_position_negative.
  destruct (_ && _); cbn [negb]; [|done].
  rewrite read_line_reads_spec by lia. done.
Qed.

Lemma read_line_spec content pos :
  (pos < 2 ^ 31)%N ->
  read_line content pos
  = Some (trim (fst (read_line_buffer (drop (N.to_nat pos) content)))).
Proof.
  intros Hpos. rewrite read_line_cases.
  assert ((pos <? 2 ^ 63)%N = true) as -> by (apply N.ltb_lt; lia).
  rewrite N.mod_small by lia.
  assert ((pos <? 2 ^ 31)%N = true) as -> by (by apply N.ltb_lt).
  done.
Qed.

(** The line of a call of [for_each_line], read back at its offset. *)
Lemma read_line_call content idx line :
  (Z.of_nat (length content) < 2 ^ 31)%Z ->
  (idx, line) ∈ for_each_line_calls content ->
  read_line content idx = Some line.
Proof.
  intros Hsize Hin. rewrite for_each_line_calls_spec in Hin by done.
  destruct (file_lines_from_cut content [] [] 0 0) as (Hlines & Hlen & Hdrop & Hlast);
    [done..|].
  fold (file_lines content) in Hlines, Hlen, Hdrop, Hlast. cbn [app] in *.
  apply elem_of_app in Hin as [Hin|Hin].
  - apply list_elem_of_fmap in Hin as ([o l] & Heq & Hol). unfold call_of in Heq.
    cbn [fst snd] in Heq. injection Heq as -> ->.
    destruct (Hlines o l Hol) as [Hle Hread].
    rewrite to_uint32_small by lia. rewrite read_line_spec by lia.
    by rewrite Nat2N.id, Hread.
  - destruct (_ <? _)%N; [|inversion Hin].
    apply list_elem_of_singleton in Hin. unfold call_of in Hin. injection Hin as -> ->.
    rewrite to_uint32_small by lia. rewrite read_line_spec by lia.
    rewrite Nat2N.id, Hdrop.
    by rewrite (read_line_buffer_line _ Hlast).
Qed.

End FileLines.

(** X10. For a file below 2 GiB [for_each_line] returns 0 after it has
    called the action, in the order of the file and up to the first call
    that returns [false], on every line that a line break ends and then on
    the unfinished last line when that has two bytes or more or when the
    file is empty.  Every call gets the offset of the line and its trimmed
    bytes; the size of the chunks that are read plays no role. *)
Theorem for_each_line_calls_in_order `{Externals} {A : Type} (content : str)
    (action : N -> str -> A -> bool * A) (arg : A) :
  (Z.of_nat (length content) < 2 ^ 31)%Z ->
  for_each_line content action arg
  = (0%Z,
     snd (iterate_lines action
            (map call_of (fst (file_lines content))
             ++ (if bool_decide (content = [])
                    || (2 <=? length (snd (snd (file_lines content))))
                 then [call_of (snd (file_lines content))] else []))
            arg)).
Proof.
  intros Hsize. rewrite <- last_line_test by done.
  rewrite <- for_each_line_calls_spec by done.
  rewrite <- for_each_line_iterate.
  rewrite (surjective_pairing (for_each_line content action arg)). f_equal.
  unfold for_each_line. rewrite to_int_small by done.
  destruct (_ <? 0)%Z eqn:Hneg; [lia|].
  destruct (for_each_line_reads _ _ _ _ _ _ _ _) as [[[? ?] ?]|?]; [|done].
  by destruct (_ <? _)%N.
Qed.

Lemma for_each_line_calls_in_order_witness :
  @for_each_line Reference.externals _ MoreExamples.three_lines record_call []
  = (0%Z, [(0%N, lit "example.org"); (12%N, lit "||example.com^"); (30%N, lit "last")]).
Proof.
  apply (@for_each_line_calls_in_order Reference.externals _ MoreExamples.three_lines
           record_call []).
  vm_compute. reflexivity.
Defined.

(** X11. [read_line] gives no line when [set_position] returns a
    negative number: for an offset of 2^63 or more, which [lseek] refuses,
    and for an offset whose low 32 bits are 2^31 or more, which the
    narrowing of the result of [lseek] to [int] turns negative although
    the seek succeeded.  For every other offset it gives the trimmed bytes
    from the offset up to the first line break, or up to the end of the
    file when no line break follows; the result does not depend on where
    the 4 KiB chunks end, and an offset at or behind the end of the file
    gives the trimmed empty line. *)
Theorem read_line_up_to_line_break `{Externals} (content : str) (pos : N) :
  read_line content pos
  = if (pos <? 2 ^ 63)%N && (pos mod 2 ^ 32 <? 2 ^ 31)%N
    then Some (trim (fst (read_line_buffer (drop (N.to_nat pos) content))))
    else None.
Proof. apply read_line_cases. Qed.

(** X12. Reading back is the inverse of the iteration: for a file below
    2 GiB, [read_line] at the offset of any call that [for_each_line]
    makes gives the line of that call. *)
Theorem read_line_at_offset_of_call `{Externals} (content : str) (idx : N) (line : str) :
  (Z.of_nat (length content) < 2 ^ 31)%Z ->
  (idx, line) ∈ for_each_line_calls content ->
  read_line content idx = Some line.
Proof. apply read_line_call. Qed.

Lemma read_line_at_offset_of_call_witness :
  @read_line Reference.externals MoreExamples.three_lines 12 = Some (lit "||example.com^").
Proof.
  apply (@read_line_at_offset_of_call Reference.externals MoreExamples.three_lines 12
           (lit "||example.com^")).
  - vm_compute. reflexivity.
  - apply list_elem_of_In. vm_compute. right. left. reflexivity.
Defined.

(** ** What a match does to the context *)

Section MatchContext.
Context `{Externals}.
Variables (fs : file_system) (f : filter).

Lemma ctx_extends_refl c : ctx_extends c c.
Proof. repeat split. exists []. by rewrite app_nil_r. Qed.

Lemma ctx_extends_trans c1 c2 c3 : ctx_extends c1 c2 -> ctx_extends c2 c3 -> ctx_extends c1 c3.
Proof.
  intros (Hh & Hs & Hr & Hq & added & Ha) (Hh' & Hs' & Hr' & Hq' & added' & Ha').
  repeat split; try congruence. exists (added ++ added'). by rewrite Ha', Ha, <- app_assoc.
Qed.

Lemma match_against_line_extends m line :
  ctx_extends (ctx m) (ctx (snd (match_against_line m line))).
Proof.
  unfold match_against_line. destruct (parse line) as [r|]; [|apply ctx_extends_refl].
  match goal with |- context [if ?b then _ else _] => destruct b end;
    [|apply ctx_extends_refl].
  repeat split. by eexists.
Qed.

Lemma match_by_file_position_ctx_extends m idx :
  ctx_extends (ctx m) (ctx (match_by_file_position fs f m idx)).
Proof.
  unfold match_by_file_position.
  destruct (in_memory (params f)); cbn [negb].
  - destruct (utils_read_line _ idx) as [line|]; [|apply ctx_extends_refl].
    destruct (is_unique_rule _ line); cbn [negb]; [|apply ctx_extends_refl].
    apply match_against_line_extends.
  - destruct (outdated m || check_filter_outdated fs f); [apply ctx_extends_refl|].
    destruct (bool_decide (file m = None)).
    + cbn [file set_file]. destruct (fs_open fs _) as [content|]; [|apply ctx_extends_refl].
      destruct (read_line content idx) as [line|]; [|apply ctx_extends_refl].
      destruct (is_unique_rule _ line); cbn [negb]; [|apply ctx_extends_refl].
      apply (match_against_line_extends (set_file m (Some content))).
    + destruct (file m) as [content|]; [|apply ctx_extends_refl].
      destruct (read_line content idx) as [line|]; [|apply ctx_extends_refl].
      destruct (is_unique_rule _ line); cbn [negb]; [|apply ctx_extends_refl].
      apply match_against_line_extends.
Qed.

Lemma fold_left_ctx_extends {X : Type} (step : match_arg -> X -> match_arg) (xs : list X) m :
  (forall m x, ctx_extends (ctx m) (ctx (step m x))) ->
  ctx_extends (ctx m) (ctx (fold_left step xs m)).
Proof.
  intros Hstep. revert m. induction xs as [|x xs IH]; intros m; simpl.
  - apply ctx_extends_refl.
  - eapply ctx_extends_trans; [apply Hstep|apply IH].
Qed.

Lemma match_positions_ctx_extends m positions :
  ctx_extends (ctx m) (ctx (match_positions fs f m positions)).
Proof. apply fold_left_ctx_extends. intros. apply match_by_file_position_ctx_extends. Qed.

Lemma search_by_domain_ctx_extends m domain :
  ctx_extends (ctx m) (ctx (search_by_domain fs f m domain)).
Proof.
  unfold search_by_domain.
  destruct (_ !! _); [apply match_by_file_position_ctx_extends|].
  destruct (_ !! _); [apply match_positions_ctx_extends|apply ctx_extends_refl].
Qed.

Lemma search_by_domains_ctx_extends m :
  ctx_extends (ctx m) (ctx (search_by_domains fs f m)).
Proof.
  unfold search_by_domains. destruct (outdated m); [apply ctx_extends_refl|].
  apply fold_left_ctx_extends. intros. apply search_by_domain_ctx_extends.
Qed.

Lemma search_by_shortcuts_ctx_extends m :
  ctx_extends (ctx m) (ctx (search_by_shortcuts fs f m)).
Proof.
  unfold search_by_shortcuts. destruct (_ || _); [apply ctx_extends_refl|].
  apply fold_left_ctx_extends. intros m' window.
  destruct (_ !! _); [apply match_positions_ctx_extends|apply ctx_extends_refl].
Qed.

Lemma search_in_leftovers_ctx_extends m :
  ctx_extends (ctx m) (ctx (search_in_leftovers fs f m)).
Proof.
  unfold search_in_leftovers. destruct (outdated m); [apply ctx_extends_refl|].
  apply fold_left_ctx_extends. intros m' entry.
  destruct (_ && _); [apply ctx_extends_refl|].
  destruct (regex entry); [|apply match_by_file_position_ctx_extends].
  destruct (regex_match _ _); [apply match_by_file_position_ctx_extends|apply ctx_extends_refl].
Qed.

Lemma search_badfilter_rules_ctx_extends m :
  ctx_extends (ctx m) (ctx (search_badfilter_rules fs f m)).
Proof.
  unfold search_badfilter_rules. destruct (outdated m); [apply ctx_extends_refl|].
  apply fold_left_ctx_extends. intros m' rule.
  destruct (_ !! _); [apply match_by_file_position_ctx_extends|apply ctx_extends_refl].
Qed.

(** The four searches of [filter::match], one after the other. *)
Lemma searches_ctx_extends m :
  ctx_extends (ctx m)
    (ctx (search_badfilter_rules fs f
            (search_in_leftovers fs f (search_by_shortcuts fs f (search_by_domains fs f m))))).
Proof.
  eapply ctx_extends_trans; [apply search_by_domains_ctx_extends|].
  eapply ctx_extends_trans; [apply search_by_shortcuts_ctx_extends|].
  eapply ctx_extends_trans; [apply search_in_leftovers_ctx_extends|].
  apply search_badfilter_rules_ctx_extends.
Qed.

(** The accumulator that [filter::match] leaves, given what the searches
    added. *)
Lemma filter_match_rules c added :
  matched_rules
    (ctx (search_badfilter_rules fs f
            (search_in_leftovers fs f
               (search_by_shortcuts fs f
                  (search_by_domains fs f {| ctx := c; file := None; outdated := false |})))))
  = matched_rules c ++ added ->
  matched_rules (snd (filter_match fs f c))
  = matched_rules c ++ map (fun r => set_filter_id r (id_ (params f))) added.
Proof.
  intros Hadded. unfold filter_match. cbn [snd matched_rules]. rewrite Hadded.
  by rewrite take_app_length, drop_app_length.
Qed.

End MatchContext.

(** X13. [filter::match] only adds to the accumulator: the rules that
    were there stay where they are, with the filter identifiers they had,
    every rule that the match adds behind them carries the identifier of
    this filter, and the host, the names, the request type and the reverse
    lookup name of the context are not touched. *)
Theorem filter_match_appends `{Externals} (fs : file_system) (f : filter)
    (c : match_context) :
  exists added : list dnsfilter_rule,
    matched_rules (snd (filter_match fs f c)) = matched_rules c ++ added
    /\ Forall (fun r => filter_id r = id_ (params f)) added
    /\ host (snd (filter_match fs f c)) = host c
    /\ subdomains (snd (filter_match fs f c)) = subdomains c
    /\ rr_type (snd (filter_match fs f c)) = rr_type c
    /\ reverse_lookup_fqdn (snd (filter_match fs f c)) = reverse_lookup_fqdn c.
Proof.
  destruct (searches_ctx_extends fs f {| ctx := c; file := None; outdated := false |})
    as (Hh & Hs & Hr & Hq & added & Ha).
  cbn [ctx] in *.
  exists (map (fun r => set_filter_id r (id_ (params f))) added).
  split; [by apply filter_match_rules|].
  split; [|by repeat split].
  apply Forall_forall. intros r Hin. apply list_elem_of_fmap in Hin as (r0 & -> & _). done.
Qed.

(** ** A filter whose file has changed *)

Section OutdatedFilter.
Context `{Externals}.
Variables (fs : file_system) (f : filter).
Hypothesis file_backed : in_memory (params f) = false.
Hypothesis is_outdated : check_filter_outdated fs f = true.

Lemma match_by_file_position_outdated m idx :
  match_by_file_position fs f m idx = set_outdated m.
Proof.
  unfold match_by_file_position. rewrite file_backed, is_outdated. cbn [negb].
  by rewrite orb_true_r.
Qed.

Lemma fold_left_outdated {X : Type} (step : match_arg -> X -> match_arg) (cand : X -> bool)
    (c0 : match_context) (xs : list X) m :
  (forall m x, ctx m = c0 -> step m x = if cand x then set_outdated m else m) ->
  ctx m = c0 ->
  fold_left step xs m = if existsb cand xs then set_outdated m else m.
Proof.
  intros Hstep. revert m. induction xs as [|x xs IH]; intros m Hm; simpl; [done|].
  rewrite (Hstep m x Hm). destruct (cand x); simpl.
  - rewrite IH by done. by destruct (existsb cand xs).
  - by apply IH.
Qed.

Lemma match_positions_outdated m positions :
  match_positions fs f m positions
  = if negb (bool_decide (positions = [])) then set_outdated m else m.
Proof.
  unfold match_positions.
  rewrite (fold_left_outdated _ (fun _ => true) (ctx m)); [by destruct positions| |done].
  intros m' idx _. apply match_by_file_position_outdated.
Qed.

Lemma search_by_domains_outdated m :
  outdated m = false ->
  search_by_domains fs f m = if domain_candidates f (ctx m) then set_outdated m else m.
Proof.
  intros Hout. unfold search_by_domains, domain_candidates. rewrite Hout.
  apply (fold_left_outdated _ _ (ctx m)); [|done].
  intros m' domain _. unfold search_by_domain.
  destruct (unique_domains_table (pimpl f) !! hash32 domain).
  - rewrite bool_decide_eq_true_2 by eauto. apply match_by_file_position_outdated.
  - rewrite bool_decide_eq_false_2 by (by intros [? ?]). cbn [orb].
    destruct (domains_table (pimpl f) !! hash32 domain); [apply match_positions_outdated|done].
Qed.

Lemma search_by_shortcuts_outdated m :
  outdated m = false ->
  search_by_shortcuts fs f m = if shortcut_candidates f (ctx m) then set_outdated m else m.
Proof.
  intros Hout. unfold search_by_shortcuts, shortcut_candidates. rewrite Hout, orb_false_r.
  destruct (length (host (ctx m)) <? SHORTCUT_LENGTH); [done|]. cbn [negb andb].
  apply (fold_left_outdated _ _ (ctx m)); [|done].
  intros m' window _.
  destruct (shortcuts_table (pimpl f) !! hash32 window); [apply match_positions_outdated|done].
Qed.

Lemma search_in_leftovers_outdated m :
  outdated m = false ->
  search_in_leftovers fs f m = if leftover_candidates f (ctx m) then set_outdated m else m.
Proof.
  intros Hout. unfold search_in_leftovers, leftover_candidates. rewrite Hout.
  apply (fold_left_outdated _ _ (ctx m)); [|done].
  intros m' entry ->. rewrite !match_by_file_position_outdated.
  destruct (bool_decide (shortcuts entry = [])); cbn [negb andb orb].
  - destruct (regex entry); [|done]. by destruct (regex_match _ _).
  - destruct (match_shortcuts _ _); cbn [negb andb]; [|done].
    destruct (regex entry); [|done]. by destruct (regex_match _ _).
Qed.

Lemma search_badfilter_rules_outdated m :
  outdated m = false ->
  search_badfilter_rules fs f m
  = if badfilter_candidates f (ctx m) then set_outdated m else m.
Proof.
  intros Hout. unfold search_badfilter_rules, badfilter_candidates. rewrite Hout.
  apply (fold_left_outdated _ _ (ctx m)); [|done].
  intros m' rule _.
  destruct (badfilter_table (pimpl f) !! hash32 (text rule)).
  - rewrite bool_decide_eq_true_2 by eauto. apply match_by_file_position_outdated.
  - by rewrite bool_decide_eq_false_2 by (by intros [? ?]).
Qed.

End OutdatedFilter.

(** X14. A file-backed filter whose file has changed since the load adds
    no rule: [filter::match] leaves the context as it was, and it reports
    the filter outdated exactly when the index gives an offset to probe for
    the query; without one the change of the file goes unnoticed and the
    match returns [true]. *)
Theorem filter_match_outdated_filter `{Externals} (fs : file_system) (f : filter)
    (c : match_context) :
  in_memory (params f) = false ->
  check_filter_outdated fs f = true ->
  filter_match fs f c = (negb (has_candidate f c), c).
Proof.
  intros Hfile Hcheck.
  set (m0 := {| ctx := c; file := None; outdated := false |}).
  assert (Hsearch : search_badfilter_rules fs f
                      (search_in_leftovers fs f
                         (search_by_shortcuts fs f (search_by_domains fs f m0)))
                    = if has_candidate f c then set_outdated m0 else m0).
  { unfold has_candidate.
    rewrite (search_by_domains_outdated fs f Hfile Hcheck m0) by done. cbn [ctx m0].
    destruct (domain_candidates f c); cbn [orb].
    { unfold search_by_shortcuts, search_in_leftovers, search_badfilter_rules.
      cbn [outdated set_outdated]. by rewrite orb_true_r. }
    rewrite (search_by_shortcuts_outdated fs f Hfile Hcheck m0) by done. cbn [ctx m0].
    destruct (shortcut_candidates f c); cbn [orb].
    { unfold search_in_leftovers, search_badfilter_rules. by cbn [outdated set_outdated]. }
    rewrite (search_in_leftovers_outdated fs f Hfile Hcheck m0) by done. cbn [ctx m0].
    destruct (leftover_candidates f c); cbn [orb].
    { unfold search_badfilter_rules. by cbn [outdated set_outdated]. }
    by rewrite (search_badfilter_rules_outdated fs f Hfile Hcheck m0). }
  unfold filter_match. fold m0. rewrite Hsearch.
  assert (Hctx : ctx (if has_candidate f c then set_outdated m0 else m0) = c)
    by (by destruct (has_candidate f c)).
  assert (Hout : outdated (if has_candidate f c then set_outdated m0 else m0)
                 = has_candidate f c) by (by destruct (has_candidate f c)).
  rewrite Hctx, Hout. rewrite take_ge, drop_ge by lia. cbn [map]. rewrite app_nil_r.
  by destruct c.
Qed.

Lemma filter_match_outdated_filter_witness :
  @filter_match Reference.externals Examples.epoch_fs Examples.epoch_filter
    Examples.org_query
  = (negb (@has_candidate Reference.externals Examples.epoch_filter Examples.org_query),
     Examples.org_query).
Proof.
  apply (@filter_match_outdated_filter Reference.externals Examples.epoch_fs
           Examples.epoch_filter Examples.org_query).
  - vm_compute. reflexivity.
  - vm_compute. reflexivity.
Defined.

(** ** The rules that the index leads to *)

Section Probed.
Context `{Externals}.
Variables (fs : file_system) (f : filter).
Hypothesis not_outdated : check_filter_outdated fs f = false.
Variables (c : match_context) (pos : N) (line : str) (r : rule).
Hypothesis line_at_pos : source_line fs f pos = Some line.
Hypothesis line_parses : parse line = Some r.
Hypothesis line_accepted :
  fst (match_against_line {| ctx := c; file := None; outdated := false |} line) = true.

Lemma match_by_file_position_state m idx :
  probe_state fs f c m -> probe_state fs f c (match_by_file_position fs f m idx).
Proof.
  intros (Hout & Hfile & Hext).
  destruct (match_by_file_position_keeps fs f not_outdated m idx Hout Hfile) as [Hout' Hfile'].
  split; [done|]. split; [done|].
  eapply ctx_extends_trans; [exact Hext|apply match_by_file_position_ctx_extends].
Qed.

Lemma probe_found_extends m m' :
  ctx_extends (ctx m) (ctx m') -> probe_found c line r m -> probe_found c line r m'.
Proof.
  intros (_ & _ & _ & _ & extra & Hextra) (added & Hadded & Hfound).
  exists (added ++ extra). split; [by rewrite Hextra, Hadded, <- app_assoc|].
  destruct Hfound as [Hin|(r0 & Hin & Htext)].
  - left. apply elem_of_app. by left.
  - right. exists r0. split; [|done]. rewrite app_assoc. apply elem_of_app. by left.
Qed.

(** The probe of the line: the rule is added unless a rule with the line
    as its text is there. *)
Lemma probe_line_found m :
  ctx_extends c (ctx m) ->
  probe_found c line r
    (if negb (is_unique_rule (matched_rules (ctx m)) line) then m
     else snd (match_against_line m line)).
Proof.
  intros (Hh & Hs & Hr & _ & added & Hadded).
  destruct (is_unique_rule _ line) eqn:Huniq; cbn [negb].
  - rewrite (match_against_line_push _ line r line_parses line_accepted m) by done.
    cbn [snd]. exists (added ++ [public_part r]).
    split; [cbn [push_matched ctx matched_rules]; by rewrite Hadded, <- app_assoc|]. left. apply elem_of_app. right.
    apply list_elem_of_here.
  - exists added. split; [done|]. right.
    destruct (is_unique_rule_false _ _ Huniq) as (r0 & Hin & Htext).
    exists r0. by rewrite <- Hadded.
Qed.

Lemma match_by_file_position_found m :
  probe_state fs f c m -> probe_found c line r (match_by_file_position fs f m pos).
Proof.
  intros (Hout & Hfile & Hext).
  pose proof line_at_pos as Hline.
  unfold match_by_file_position, source_line in *.
  destruct (in_memory (params f)); cbn [negb].
  - rewrite Hline. by apply probe_line_found.
  - rewrite Hout, not_outdated. cbn [orb].
    destruct (fs_open fs (data (params f))) as [content|] eqn:Hopen; [|done].
    destruct (bool_decide (file m = None)) eqn:Hnone.
    + cbn [file set_file]. rewrite Hline. by apply (probe_line_found (set_file m (Some content))).
    + apply bool_decide_eq_false_1 in Hnone.
      destruct Hfile as [?|Hfile]; [done|]. rewrite Hfile, Hopen, Hline.
      by apply probe_line_found.
Qed.

Lemma fold_left_probe {X : Type} (step : match_arg -> X -> match_arg) (xs : list X) m :
  (forall m x, probe_state fs f c m -> probe_state fs f c (step m x)) ->
  (forall m x, ctx_extends (ctx m) (ctx (step m x))) ->
  probe_state fs f c m ->
  probe_state fs f c (fold_left step xs m)
  /\ (probe_found c line r m -> probe_found c line r (fold_left step xs m))
  /\ (forall x, x ∈ xs ->
        (forall m, probe_state fs f c m -> probe_found c line r (step m x)) ->
        probe_found c line r (fold_left step xs m)).
Proof.
  intros Hstate Hext. revert m. induction xs as [|x xs IH]; intros m Hm; simpl.
  - split; [done|]. split; [done|]. intros x Hin. inversion Hin.
  - destruct (IH (step m x) (Hstate m x Hm)) as (IHs & IHf & IHx).
    split; [done|]. split.
    + intros Hfound. apply IHf. by apply (probe_found_extends m).
    + intros y Hin Hy. apply elem_of_cons in Hin as [->|Hin].
      * apply IHf. by apply Hy.
      * by apply IHx with y.
Qed.

Lemma match_positions_probe m positions :
  probe_state fs f c m ->
  probe_state fs f c (match_positions fs f m positions)
  /\ (pos ∈ positions -> probe_found c line r (match_positions fs f m positions)).
Proof.
  intros Hm.
  destruct (fold_left_probe (match_by_file_position fs f) positions m) as (Hs & _ & Hx);
    [apply match_by_file_position_state|apply match_by_file_position_ctx_extends|done|].
  split; [done|]. intros Hin. apply (Hx pos Hin). apply match_by_file_position_found.
Qed.

Lemma search_by_domain_probe m domain :
  probe_state fs f c m ->
  probe_state fs f c (search_by_domain fs f m domain)
  /\ (pos ∈ domain_positions f domain -> probe_found c line r (search_by_domain fs f m domain)).
Proof.
  intros Hm. unfold search_by_domain, domain_positions.
  destruct (unique_domains_table (pimpl f) !! hash32 domain) as [position|].
  - split; [by apply match_by_file_position_state|].
    intros Hin%list_elem_of_singleton. rewrite <- Hin. by apply match_by_file_position_found.
  - destruct (domains_table (pimpl f) !! hash32 domain) as [positions|]; cbn [default].
    + by apply match_positions_probe.
    + split; [done|]. intros Hin. inversion Hin.
Qed.

Lemma search_by_domains_probe m :
  probe_state fs f c m ->
  probe_state fs f c (search_by_domains fs f m)
  /\ (pos ∈ flat_map (domain_positions f) (subdomains c) ->
      probe_found c line r (search_by_domains fs f m)).
Proof.
  intros Hm. pose proof Hm as (Hout & _ & _ & Hsub & _).
  unfold search_by_domains. rewrite Hout, Hsub.
  destruct (fold_left_probe (search_by_domain fs f) (subdomains c) m) as (Hs & _ & Hx);
    [|apply search_by_domain_ctx_extends|done|].
  { intros m' d Hm'. by apply search_by_domain_probe. }
  split; [done|]. intros Hin. apply list_elem_of_In, in_flat_map in Hin as (d & Hd & Hin).
  apply (Hx d); [by apply list_elem_of_In|].
  intros m' Hm'. apply search_by_domain_probe; [done|]. by apply list_elem_of_In.
Qed.

Lemma search_by_shortcuts_probe m :
  probe_state fs f c m ->
  probe_state fs f c (search_by_shortcuts fs f m)
  /\ ((length (host c) <? SHORTCUT_LENGTH) = false ->
      pos ∈ flat_map (fun window => default [] (shortcuts_table (pimpl f) !! hash32 window))
                     (shortcut_windows (host c)) ->
      probe_found c line r (search_by_shortcuts fs f m)).
Proof.
  intros Hm. pose proof Hm as (Hout & _ & Hhost & _).
  unfold search_by_shortcuts. rewrite Hout, Hhost, orb_false_r.
  set (step := fun (m : match_arg) (window : str) =>
                 match shortcuts_table (pimpl f) !! hash32 window with
                 | Some positions => match_positions fs f m positions
                 | None => m
                 end).
  assert (Hstate : forall m w, probe_state fs f c m -> probe_state fs f c (step m w)).
  { intros m' w Hm'. unfold step. destruct (_ !! _); [by apply match_positions_probe|done]. }
  assert (Hext : forall m w, ctx_extends (ctx m) (ctx (step m w))).
  { intros m' w. unfold step.
    destruct (_ !! _); [apply match_positions_ctx_extends|apply ctx_extends_refl]. }
  destruct (fold_left_probe step (shortcut_windows (host c)) m Hstate Hext Hm) as (Hs & _ & Hx).
  destruct (length (host c) <? SHORTCUT_LENGTH); [by split|].
  split; [done|]. intros _ Hin.
  apply list_elem_of_In, in_flat_map in Hin as (w & Hw & Hin).
  apply (Hx w); [by apply list_elem_of_In|].
  intros m' Hm'. unfold step.
  destruct (shortcuts_table (pimpl f) !! hash32 w) as [positions|]; cbn [default] in Hin;
    [|done].
  apply match_positions_probe; [done|]. by apply list_elem_of_In.
Qed.

Lemma search_in_leftovers_probe m :
  probe_state fs f c m ->
  probe_state fs f c (search_in_leftovers fs f m)
  /\ (pos ∈ map file_idx (List.filter (leftover_passes (host c)) (leftovers_table (pimpl f))) ->
      probe_found c line r (search_in_leftovers fs f m)).
Proof.
  intros Hm. pose proof Hm as (Hout & _ & _).
  unfold search_in_leftovers. rewrite Hout.
  set (step := fun (m : match_arg) (entry : leftover_entry) =>
                 if negb (bool_decide (shortcuts entry = []))
                    && negb (match_shortcuts (shortcuts entry) (host (ctx m)))
                 then m
                 else
                   match regex entry with
                   | Some re =>
                     if regex_match re (host (ctx m))
                     then match_by_file_position fs f m (file_idx entry) else m
                   | None => match_by_file_position fs f m (file_idx entry)
                   end).
  assert (Hstate : forall m e, probe_state fs f c m -> probe_state fs f c (step m e)).
  { intros m' e Hm'. unfold step. destruct (_ && _); [done|].
    destruct (regex e); [|by apply match_by_file_position_state].
    destruct (regex_match _ _); [by apply match_by_file_position_state|done]. }
  assert (Hext : forall m e, ctx_extends (ctx m) (ctx (step m e))).
  { intros m' e. unfold step. destruct (_ && _); [apply ctx_extends_refl|].
    destruct (regex e); [|apply match_by_file_position_ctx_extends].
    destruct (regex_match _ _);
      [apply match_by_file_position_ctx_extends|apply ctx_extends_refl]. }
  destruct (fold_left_probe step (leftovers_table (pimpl f)) m Hstate Hext Hm) as (Hs & _ & Hx).
  split; [done|]. intros Hin.
  apply list_elem_of_fmap in Hin as (entry & Heq & Hin).
  apply list_elem_of_In, filter_In in Hin as [Hin Hpass].
  apply (Hx entry); [by apply list_elem_of_In|].
  intros m' Hm'. pose proof Hm' as (_ & _ & Hhost & _). unfold step. rewrite Hhost.
  unfold leftover_passes in Hpass. apply andb_prop in Hpass as [Hsc Hre].
  replace (negb (bool_decide (shortcuts entry = []))
           && negb (match_shortcuts (shortcuts entry) (host c))) with false
    by (by destruct (bool_decide (shortcuts entry = [])), (match_shortcuts _ _)).
  rewrite <- Heq. destruct (regex entry); [rewrite Hre|]; by apply match_by_file_position_found.
Qed.

Lemma search_badfilter_rules_probe m :
  probe_state fs f c m -> probe_state fs f c (search_badfilter_rules fs f m).
Proof.
  intros Hm. pose proof Hm as (Hout & _ & _).
  unfold search_badfilter_rules. rewrite Hout.
  apply fold_left_probe; [|intros; destruct (_ !! _)|done].
  - intros m' rule Hm'. destruct (_ !! _); [by apply match_by_file_position_state|done].
  - apply match_by_file_position_ctx_extends.
  - apply ctx_extends_refl.
Qed.

Lemma searches_found :
  pos ∈ probed_positions f c ->
  probe_found c line r
    (search_badfilter_rules fs f
       (search_in_leftovers fs f
          (search_by_shortcuts fs f
             (search_by_domains fs f {| ctx := c; file := None; outdated := false |})))).
Proof.
  set (m0 := {| ctx := c; file := None; outdated := false |}).
  assert (H0 : probe_state fs f c m0).
  { split; [done|]. split; [by left|]. apply ctx_extends_refl. }
  destruct (search_by_domains_probe m0 H0) as [H1 Hdom].
  destruct (search_by_shortcuts_probe _ H1) as [H2 Hshort].
  destruct (search_in_leftovers_probe _ H2) as [H3 Hleft].
  intros Hin. unfold probed_positions in Hin.
  apply elem_of_app in Hin as [Hin|Hin].
  { apply (probe_found_extends (search_by_domains fs f m0)); [|by apply Hdom].
    eapply ctx_extends_trans; [apply search_by_shortcuts_ctx_extends|].
    eapply ctx_extends_trans; [apply search_in_leftovers_ctx_extends|].
    apply search_badfilter_rules_ctx_extends. }
  apply elem_of_app in Hin as [Hin|Hin].
  { destruct (length (host c) <? SHORTCUT_LENGTH) eqn:Hlen; [inversion Hin|].
    apply (probe_found_extends (search_by_shortcuts fs f (search_by_domains fs f m0)));
      [|by apply Hshort].
    eapply ctx_extends_trans; [apply search_in_leftovers_ctx_extends|].
    apply search_badfilter_rules_ctx_extends. }
  apply (probe_found_extends
           (search_in_leftovers fs f (search_by_shortcuts fs f (search_by_domains fs f m0))));
    [|by apply Hleft].
  apply search_badfilter_rules_ctx_extends.
Qed.

End Probed.

(** The rule of an accepted line at an offset that the index gives is
    in the accumulator after the match, unless its line was there. *)
Lemma filter_match_found `{Externals} (fs : file_system) (f : filter)
    (c : match_context) (pos : N) (line : str) (r : rule) :
  check_filter_outdated fs f = false ->
  pos ∈ probed_positions f c ->
  source_line fs f pos = Some line ->
  parse line = Some r ->
  fst (match_against_line {| ctx := c; file := None; outdated := false |} line) = true ->
  set_filter_id (public_part r) (id_ (params f)) ∈ matched_rules (snd (filter_match fs f c))
  \/ exists r0, r0 ∈ matched_rules (snd (filter_match fs f c)) /\ text r0 = line.
Proof.
  intros Hcheck Hpos Hline Hparse Haccept.
  destruct (searches_found fs f Hcheck c pos line r Hline Hparse Haccept Hpos)
    as (added & Hadded & Hfound).
  rewrite (filter_match_rules fs f c added Hadded).
  destruct Hfound as [Hin|(r0 & Hin & Htext)].
  - left. apply elem_of_app. right. apply list_elem_of_fmap. by exists (public_part r).
  - right. apply elem_of_app in Hin as [Hin|Hin].
    + exists r0. split; [|done]. apply elem_of_app. by left.
    + exists (set_filter_id r0 (id_ (params f))). split; [|done].
      apply elem_of_app. right. apply list_elem_of_fmap. by exists r0.
Qed.

(** X15. The lookup is sound for a filter that is not outdated: when the
    index gives an offset for the query (through the domain tables, the
    shortcuts table or a leftover entry that passes its tests), the rule
    source holds a line at that offset, and the line parses to a rule that
    [match_against_line] accepts for the query, then after [filter::match]
    the rule is in the accumulator with the identifier of the filter, or
    the accumulator holds a rule whose text is that line, which kept the
    line from being probed. *)
Theorem filter_match_finds_indexed_rule `{Externals} (fs : file_system) (f : filter)
    (c : match_context) (pos : N) (line : str) (r : rule) :
  check_filter_outdated fs f = false ->
  pos ∈ probed_positions f c ->
  source_line fs f pos = Some line ->
  parse line = Some r ->
  fst (match_against_line {| ctx := c; file := None; outdated := false |} line) = true ->
  set_filter_id (public_part r) (id_ (params f)) ∈ matched_rules (snd (filter_match fs f c))
  \/ exists r0, r0 ∈ matched_rules (snd (filter_match fs f c)) /\ text r0 = line.
Proof. apply filter_match_found. Qed.

Lemma filter_match_finds_indexed_rule_witness :
  {| filter_id := 1; text := lit "1.2.3.4 example.org";
     content := etc_hosts_content {| ip := lit "1.2.3.4" |} |}
    ∈ matched_rules (snd (@filter_match Reference.externals MoreExamples.rules_fs
                            MoreExamples.rules_filter Examples.org_query))
  \/ exists r0,
       r0 ∈ matched_rules (snd (@filter_match Reference.externals MoreExamples.rules_fs
                                  MoreExamples.rules_filter Examples.org_query))
       /\ text r0 = lit "1.2.3.4 example.org".
Proof.
  apply (@filter_match_finds_indexed_rule Reference.externals MoreExamples.rules_fs
           MoreExamples.rules_filter Examples.org_query 27
           (lit "1.2.3.4 example.org") (Examples.parsed "1.2.3.4 example.org")).
  - vm_compute. reflexivity.
  - apply list_elem_of_In. vm_compute. right. left. reflexivity.
  - vm_compute. reflexivity.
  - vm_compute. reflexivity.
  - vm_compute. reflexivity.
Defined.

(** ** Duplicates, for a source whose rules keep their lines *)

Section UniqueTexts.
Context `{Externals}.
Variables (fs : file_system) (f : filter).
Hypothesis texts_are_lines : rule_texts_are_lines fs f.

Lemma match_by_file_position_file_ok m idx :
  file_ok fs f m -> file_ok fs f (match_by_file_position fs f m idx).
Proof.
  intros Hfile. unfold match_by_file_position.
  destruct (in_memory (params f)); cbn [negb].
  - destruct (utils_read_line _ idx) as [line|]; [|done].
    destruct (is_unique_rule _ line); cbn [negb]; [|done].
    destruct (match_against_line_state m line) as (_ & Hf & _). unfold file_ok. by rewrite Hf.
  - destruct (outdated m || check_filter_outdated fs f); [done|].
    destruct (bool_decide (file m = None)).
    + cbn [file set_file]. destruct (fs_open fs _) as [content|] eqn:Hopen; [|by right].
      destruct (read_line content idx) as [line|]; [|by right].
      destruct (is_unique_rule _ line); cbn [negb]; [|by right].
      destruct (match_against_line_state (set_file m (Some content)) line) as (_ & Hf & _).
      unfold file_ok. rewrite Hf. by right.
    + destruct (file m) as [content|] eqn:Hm; [|done].
      destruct (read_line content idx) as [line|]; [|done].
      destruct (is_unique_rule _ line); cbn [negb]; [|done].
      destruct (match_against_line_state m line) as (_ & Hf & _). unfold file_ok. by rewrite Hf.
Qed.

Lemma probe_source_line_unique m pos line :
  source_line fs f pos = Some line ->
  texts_unique (matched_rules (ctx m)) ->
  texts_unique (matched_rules (ctx (if negb (is_unique_rule (matched_rules (ctx m)) line)
                                    then m else snd (match_against_line m line)))).
Proof.
  intros Hsource Huniq. destruct (is_unique_rule _ line) eqn:Hline; cbn [negb]; [|done].
  unfold match_against_line. destruct (parse line) as [r|] eqn:Hparse; [|done].
  match goal with |- context [if ?b then _ else _] => destruct b end; [|done].
  cbn [snd push_matched ctx matched_rules]. unfold texts_unique. rewrite map_app. cbn [map].
  apply NoDup_app. split; [done|]. split.
  - intros t Ht Hin. apply list_elem_of_singleton in Hin as ->.
    rewrite (texts_are_lines pos line r Hsource Hparse) in Ht.
    by apply is_unique_rule_true in Hline.
  - apply NoDup_singleton.
Qed.

Lemma match_by_file_position_source_unique m idx :
  file_ok fs f m ->
  texts_unique (matched_rules (ctx m)) ->
  texts_unique (matched_rules (ctx (match_by_file_position fs f m idx))).
Proof.
  intros Hfile Huniq. unfold match_by_file_position.
  assert (Hprobe : forall m' line,
            source_line fs f idx = Some line ->
            texts_unique (matched_rules (ctx m')) ->
            texts_unique
              (matched_rules (ctx (if negb (is_unique_rule (matched_rules (ctx m')) line)
                                   then m' else snd (match_against_line m' line)))))
    by (intros m' line; apply probe_source_line_unique).
  unfold source_line in Hprobe.
  destruct (in_memory (params f)) eqn:Hmem; cbn [negb].
  - destruct (utils_read_line _ idx) as [line|]; [|done]. by apply Hprobe.
  - destruct (outdated m || check_filter_outdated fs f); [done|].
    destruct (bool_decide (file m = None)) eqn:Hnone.
    + cbn [file set_file]. destruct (fs_open fs _) as [content|]; [|done].
      destruct (read_line content idx) as [line|] eqn:Hread; [|done].
      by apply (Hprobe (set_file m (Some content))).
    + apply bool_decide_eq_false_1 in Hnone. destruct Hfile as [?|Hfile]; [done|].
      rewrite Hfile in *. destruct (fs_open fs _) as [content|]; [|done].
      destruct (read_line content idx) as [line|]; [|done]. by apply Hprobe.
Qed.

Lemma fold_left_source_unique {X : Type} (step : match_arg -> X -> match_arg)
    (xs : list X) m :
  (forall m x, file_ok fs f m /\ texts_unique (matched_rules (ctx m)) ->
               file_ok fs f (step m x) /\ texts_unique (matched_rules (ctx (step m x)))) ->
  file_ok fs f m /\ texts_unique (matched_rules (ctx m)) ->
  file_ok fs f (fold_left step xs m)
  /\ texts_unique (matched_rules (ctx (fold_left step xs m))).
Proof.
  intros Hstep. revert m. induction xs as [|x xs IH]; intros m Hm; simpl; [done|].
  apply IH, Hstep, Hm.
Qed.

Lemma match_by_file_position_step m idx :
  file_ok fs f m /\ texts_unique (matched_rules (ctx m)) ->
  file_ok fs f (match_by_file_position fs f m idx)
  /\ texts_unique (matched_rules (ctx (match_by_file_position fs f m idx))).
Proof.
  intros [Hfile Huniq].
  split; [by apply match_by_file_position_file_ok|by apply match_by_file_position_source_unique].
Qed.

Lemma match_positions_step m positions :
  file_ok fs f m /\ texts_unique (matched_rules (ctx m)) ->
  file_ok fs f (match_positions fs f m positions)
  /\ texts_unique (matched_rules (ctx (match_positions fs f m positions))).
Proof. apply fold_left_source_unique. intros. by apply match_by_file_position_step. Qed.

Lemma searches_source_unique m :
  file_ok fs f m /\ texts_unique (matched_rules (ctx m)) ->
  texts_unique
    (matched_rules
       (ctx (search_badfilter_rules fs f
               (search_in_leftovers fs f
                  (search_by_shortcuts fs f (search_by_domains fs f m)))))).
Proof.
  intros Hm.
  assert (H1 : file_ok fs f (search_by_domains fs f m)
               /\ texts_unique (matched_rules (ctx (search_by_domains fs f m)))).
  { unfold search_by_domains. destruct (outdated m); [done|].
    apply fold_left_source_unique; [|done]. intros m' domain Hm'. unfold search_by_domain.
    destruct (_ !! _); [by apply match_by_file_position_step|].
    destruct (_ !! _); [by apply match_positions_step|done]. }
  revert H1. generalize (search_by_domains fs f m) as m1. intros m1 H1.
  assert (H2 : file_ok fs f (search_by_shortcuts fs f m1)
               /\ texts_unique (matched_rules (ctx (search_by_shortcuts fs f m1)))).
  { unfold search_by_shortcuts. destruct (_ || _); [done|].
    apply fold_left_source_unique; [|done]. intros m' window Hm'.
    destruct (_ !! _); [by apply match_positions_step|done]. }
  revert H2. generalize (search_by_shortcuts fs f m1) as m2. intros m2 H2.
  assert (H3 : file_ok fs f (search_in_leftovers fs f m2)
               /\ texts_unique (matched_rules (ctx (search_in_leftovers fs f m2)))).
  { unfold search_in_leftovers. destruct (outdated m2); [done|].
    apply fold_left_source_unique; [|done]. intros m' entry Hm'.
    destruct (_ && _); [done|].
    destruct (regex entry); [|by apply match_by_file_position_step].
    destruct (regex_match _ _); [by apply match_by_file_position_step|done]. }
  revert H3. generalize (search_in_leftovers fs f m2) as m3. intros m3 H3.
  unfold search_badfilter_rules. destruct (outdated m3); [by destruct H3|].
  apply fold_left_source_unique; [|done]. intros m' rule Hm'.
  destruct (_ !! _); [by apply match_by_file_position_step|done].
Qed.

End UniqueTexts.

Section BoundedSource.
Context `{Externals}.

(** The test over the offsets of a source that has nothing to parse from
    a bound on. *)
Lemma rule_texts_are_lines_bounded fs f (bound : nat) :
  (forall pos line, (N.of_nat bound <= pos)%N -> source_line fs f pos = Some line ->
                    parse line = None) ->
  forallb (rule_text_is_line_at fs f) (seq 0 bound) = true ->
  rule_texts_are_lines fs f.
Proof.
  intros Hbeyond Hall pos line r Hline Hparse.
  destruct (N.le_gt_cases (N.of_nat bound) pos) as [Hge|Hlt].
  { rewrite (Hbeyond pos line Hge Hline) in Hparse. done. }
  rewrite forallb_forall in Hall.
  assert (Hin : In (N.to_nat pos) (seq 0 bound)) by (apply in_seq; lia).
  specialize (Hall _ Hin). unfold rule_text_is_line_at in Hall.
  rewrite N2Nat.id, Hline, Hparse in Hall. by apply bool_decide_eq_true_1 in Hall.
Qed.

End BoundedSource.

(** X16. When every rule that the source of the filter gives has its line
    as its text, [filter::match] adds no rule whose text is in the
    accumulator: texts that were pairwise distinct before the match are
    pairwise distinct after it. *)
Theorem filter_match_keeps_texts_unique `{Externals} (fs : file_system) (f : filter)
    (c : match_context) :
  rule_texts_are_lines fs f ->
  texts_unique (matched_rules c) ->
  texts_unique (matched_rules (snd (filter_match fs f c))).
Proof.
  intros Hlines Huniq. unfold filter_match. cbn [snd matched_rules]. unfold texts_unique.
  rewrite map_text_set_filter_id.
  apply (searches_source_unique fs f Hlines {| ctx := c; file := None; outdated := false |}).
  split; [by left|done].
Qed.

Lemma filter_match_keeps_texts_unique_witness :
  texts_unique
    (matched_rules (snd (@filter_match Reference.externals Examples.hosts_fs
                           Examples.blob_filter Examples.org_query))).
Proof.
  apply (@filter_match_keeps_texts_unique Reference.externals Examples.hosts_fs
           Examples.blob_filter Examples.org_query).
  - apply (@rule_texts_are_lines_bounded Reference.externals Examples.hosts_fs
             Examples.blob_filter 37).
    + intros pos line Hpos. unfold source_line.
      change (in_memory (params Examples.blob_filter)) with true. cbn iota.
      change (data (params Examples.blob_filter)) with Examples.three_rules.
      unfold utils_read_line, Reference.externals, Reference.utils_read_line.
      change (N.of_nat (length Examples.three_rules)) with 36%N.
      destruct (N.ltb_spec 36 pos); [done|lia].
    + vm_compute. reflexivity.
  - apply NoDup_nil_2.
Defined.

(** ** The text of a parsed rule *)

Section ParsedText.
Context `{Externals}.

Lemma parse_adblock_rule_text s r :
  parse_adblock_rule s = Some r -> text (public_part r) = s.
Proof.
  unfold parse_adblock_rule.
  destruct (adblock_split s) as [[is_exception pattern] modifiers].
  destruct (negb _ && negb _ && negb _); [done|].
  destruct (extract_modifiers _ modifiers _) as [r1|]; [|done].
  destruct (is_too_wide_rule _ _); [done|].
  destruct (props_test _ DARP_BADFILTER); [by intros [= <-]|].
  destruct (negb _ && pattern_exact _ && bool_decide _); [by intros [= <-]|].
  destruct (negb _ && negb _ && (_ || _)); [by intros [= <-]|].
  destruct (negb _ && N.eqb _ 0); [by intros [= <-]|].
  destruct (negb (regex_is_valid _)); [done|]. intros [= <-].
  destruct (has_char _ _); [done|]. by destruct (negb (bool_decide _)).
Qed.

End ParsedText.

(** X17. The text of a parsed rule is the trimmed line, for every line
    that is not in the hosts syntax: a plain domain name and an adblock
    rule both keep the whole line, modifiers and exception marker
    included. *)
Theorem parse_keeps_trimmed_line `{Externals} (line : str) (r : rule) :
  parse line = Some r ->
  is_domain_name (trim line) = true \/ is_host_rule (trim line) = false ->
  text (public_part r) = trim line.
Proof.
  unfold parse. intros Hparse Hsyntax.
  destruct (is_comment line); [done|].
  destruct (bool_decide (trim line = [])); [done|].
  destruct (is_domain_name (trim line)); [by injection Hparse as <-|].
  destruct Hsyntax as [?|Hhost]; [done|]. rewrite Hhost in Hparse.
  by apply parse_adblock_rule_text.
Qed.

Lemma parse_keeps_trimmed_line_witness :
  text (public_part (Examples.parsed "  @@||example.com^$important "))
  = @trim Reference.externals (lit "  @@||example.com^$important ").
Proof.
  apply (@parse_keeps_trimmed_line Reference.externals (lit "  @@||example.com^$important ")
           (Examples.parsed "  @@||example.com^$important ")).
  - vm_compute. reflexivity.
  - right. vm_compute. reflexivity.
Defined.

(** ** The text of a rule without [badfilter] *)

(** X18. For a rule whose modifiers include [badfilter],
    [get_text_without_badfilter] gives the text of the rule with the
    same pattern and the other modifiers in their order, wherever
    [badfilter] stands in the list and also when it is the only
    modifier; [rsplit2_by] is taken to split at the marker before the
    modifiers, and the first occurrence of the name [badfilter] in the
    modifiers is the modifier itself. *)
Theorem get_text_without_badfilter_removes_modifier `{Externals} (r : dnsfilter_rule)
    (pattern : str) (before after : list str) :
  text r = rule_text pattern (before ++ lit "badfilter" :: after) ->
  rsplit2_by (text r) "$"
  = ((0, length pattern),
     (length pattern + 1, length (join_modifiers (before ++ lit "badfilter" :: after)))) ->
  sv.find (join_modifiers (before ++ lit "badfilter" :: after)) (lit "badfilter") 0
  = Some (length (join_modifiers before) + (if bool_decide (before = []) then 0 else 1)) ->
  get_text_without_badfilter r = rule_text pattern (before ++ after).
Proof.
  intros Htext Hsplit Hfind.
  assert (Hmods : join_modifiers (before ++ lit "badfilter" :: after)
                  = (if bool_decide (before = []) then []
                     else join_modifiers before ++ [","%char])
                    ++ lit "badfilter"
                    ++ (if bool_decide (after = []) then []
                        else ","%char :: join_modifiers after)).
  { assert (Htail : join_modifiers (lit "badfilter" :: after)
                    = lit "badfilter"
                      ++ (if bool_decide (after = []) then []
                          else ","%char :: join_modifiers after)).
    { destruct after as [|a after].
      - rewrite bool_decide_eq_true_2 by done. rewrite app_nil_r. reflexivity.
      - rewrite bool_decide_eq_false_2 by done. reflexivity. }
    destruct before as [|b before]; [exact Htail|].
    rewrite join_modifiers_app by done. rewrite Htail.
    rewrite (bool_decide_eq_false_2 (b :: before = [])) by done.
    by rewrite <- app_assoc. }
  set (pre := if bool_decide (before = []) then []
              else join_modifiers before ++ [","%char]) in *.
  set (post := if bool_decide (after = []) then []
               else ","%char :: join_modifiers after) in *.
  assert (Hpre : length pre
                 = length (join_modifiers before)
                   + (if bool_decide (before = []) then 0 else 1)).
  { unfold pre. destruct before; [done|].
    rewrite bool_decide_eq_false_2 by done. by rewrite length_app. }
  assert (Htext' : text r = pattern ++ "$"%char :: pre ++ lit "badfilter" ++ post).
  { rewrite Htext, <- Hmods. unfold rule_text. by destruct before. }
  rewrite Hmods in Hsplit, Hfind. rewrite <- Hpre in Hfind.
  rewrite (get_text_without_badfilter_cut r pattern pre post Htext' Hsplit Hfind).
  unfold pre, post. destruct before as [|b before].
  - rewrite (bool_decide_eq_true_2 ([] = [])) by done.
    change (pattern ++ "$"%char :: []) with (pattern ++ ["$"%char]).
    rewrite !back_is_snoc, remove_suffix_snoc.
    rewrite (bool_decide_eq_false_2 ("$"%char = ","%char)) by done.
    rewrite (bool_decide_eq_true_2 ("$"%char = "$"%char)) by done.
    destruct after as [|a after].
    + rewrite (bool_decide_eq_true_2 ([] = [])) by done. cbn [orb andb app rule_text].
      by rewrite app_nil_r.
    + rewrite bool_decide_eq_false_2 by done. cbn [orb andb app rule_text].
      unfold sv.front_is, sv.front. cbn [head]. rewrite bool_decide_eq_true_2 by done.
      cbn [andb sv.remove_prefix drop]. by rewrite <- app_assoc.
  - rewrite (bool_decide_eq_false_2 (b :: before = [])) by done.
    replace (pattern ++ "$"%char :: join_modifiers (b :: before) ++ [","%char])
      with ((pattern ++ "$"%char :: join_modifiers (b :: before)) ++ [","%char])
      by (by rewrite <- app_assoc).
    rewrite !back_is_snoc, remove_suffix_snoc.
    rewrite (bool_decide_eq_true_2 (","%char = ","%char)) by done. cbn [orb].
    destruct after as [|a after].
    + rewrite (bool_decide_eq_true_2 ([] = [])) by done. rewrite !app_nil_r. done.
    + rewrite bool_decide_eq_false_2 by done.
      change (rule_text pattern ((b :: before) ++ a :: after))
        with (pattern ++ "$"%char :: join_modifiers ((b :: before) ++ a :: after)).
      rewrite join_modifiers_app by done. by rewrite <- app_assoc.
Qed.

Lemma get_text_without_badfilter_removes_modifier_witness :
  @get_text_without_badfilter Reference.externals
    {| filter_id := 0; text := lit "||example.org^$important,badfilter,dnstype=A";
       content := adblock_content {| props := 0; params_dnsrewrite := None |} |}
  = lit "||example.org^$important,dnstype=A".
Proof.
  apply (@get_text_without_badfilter_removes_modifier Reference.externals
           {| filter_id := 0; text := lit "||example.org^$important,badfilter,dnstype=A";
              content := adblock_content {| props := 0; params_dnsrewrite := None |} |}
           (lit "||example.org^") [lit "important"] [lit "dnstype=A"]).
  - reflexivity.
  - vm_compute. reflexivity.
  - vm_compute. reflexivity.
Defined.

(** ** Shortcuts and ports *)

(** X19. What [match_shortcuts] tests: the list of parts is not empty,
    and every part occurs in the host at or behind the sum of the lengths
    of the parts before it; an empty list of parts matches no host. *)
Theorem match_shortcuts_iff (shortcuts : list str) (domain : str) :
  match_shortcuts shortcuts domain = true
  <-> shortcuts <> []
      /\ forall i sc, shortcuts !! i = Some sc ->
           is_Some (sv.find domain sc (length (concat (take i shortcuts)))).
Proof.
  unfold match_shortcuts. rewrite match_shortcuts_from_spec. split.
  - intros [[_ ?]|?]; done.
  - intros ?. by right.
Qed.

(** X20. [match_shortcuts] misses no host in which the parts occur one
    after the other: when every part is found from the end of the match
    of the part before it, the test of the code succeeds as well. *)
Theorem match_shortcuts_accepts_parts_in_order (parts : list str) (host : str) :
  parts <> [] ->
  spec_parts_in_order parts host 0 = true ->
  match_shortcuts parts host = true.
Proof. apply spec_parts_in_order_match_shortcuts. Qed.

Lemma match_shortcuts_accepts_parts_in_order_witness :
  match_shortcuts [lit "ab"; lit "cd"] (lit "xxabyycd") = true.
Proof.
  apply (match_shortcuts_accepts_parts_in_order [lit "ab"; lit "cd"] (lit "xxabyycd")).
  - discriminate.
  - vm_compute. reflexivity.
Defined.

(** X21. [remove_port] takes the port off a pattern [host:port] whose
    host has no colon and whose port is one to five digits: the pattern
    becomes the host and the end of the line is asserted. *)
Theorem remove_port_takes_port_off (host port : str) :
  ":"%char ∉ host ->
  port <> [] ->
  is_valid_port port = true ->
  remove_port (host ++ ":"%char :: port) = (MPM_LINE_END_ASSERTED, host).
Proof. apply remove_port_host_port. Qed.

Lemma remove_port_takes_port_off_witness :
  remove_port (lit "example.org:8080") = (MPM_LINE_END_ASSERTED, lit "example.org").
Proof.
  apply (remove_port_takes_port_off (lit "example.org") (lit "8080")).
  - apply (bool_decide_eq_false_1 (":"%char ∈ lit "example.org")). vm_compute. reflexivity.
  - discriminate.
  - reflexivity.
Defined.

Section RegexShortcuts.
Context `{Externals}.

Lemma take_find_if_scan (p : ascii -> bool) (s : str) (n : nat) :
  sv.find_if_scan p s 0 = Some n ->
  forallb (fun c => negb (p c)) (take n s) = true /\ n < length s.
Proof.
  intros Hfind. apply find_if_scan_Some in Hfind as (_ & (c & Hc & _) & Hbefore).
  rewrite Nat.sub_0_r in *. split; [|by apply lookup_lt_Some in Hc].
  apply forallb_forall. intros d Hd. apply list_elem_of_In, list_elem_of_lookup_1 in Hd as [k Hk].
  apply lookup_take_Some in Hk as [Hk Hlt]. by rewrite (Hbefore k d Hlt Hk).
Qed.

Lemma extract_regex_shortcuts_loop_plain fuel text shortcuts :
  Forall (fun sc => sc <> [] /\ forallb (fun c => negb (is_special_regex_char c)) sc = true)
         shortcuts ->
  Forall (fun sc => sc <> [] /\ forallb (fun c => negb (is_special_regex_char c)) sc = true)
         (extract_regex_shortcuts_loop fuel text shortcuts).
Proof.
  revert text shortcuts. induction fuel as [|fuel IH]; intros text shortcuts Hall; [done|].
  cbn [extract_regex_shortcuts_loop].
  destruct (bool_decide (text = [])) eqn:Hempty; [done|].
  apply bool_decide_eq_false_1 in Hempty. apply IH.
  unfold sv.find_first_of.
  destruct (sv.find_if_scan _ text 0) as [[|n]|] eqn:Hfind; [done| |].
  - apply Forall_app. split; [done|]. apply Forall_singleton.
    apply take_find_if_scan in Hfind as [Hplain Hlen]. split; [|exact Hplain].
    unfold sv.substr. rewrite drop_0. destruct text; [simpl in Hlen; lia|done].
  - apply Forall_app. split; [done|]. apply Forall_singleton. split; [done|].
    apply forallb_forall. intros c Hc. apply list_elem_of_In in Hc.
    apply negb_true_iff. exact (proj1 (find_if_scan_None _ _ _) Hfind c Hc).
Qed.

End RegexShortcuts.

(** X22. Every shortcut that [extract_regex_shortcuts] cuts out of a
    regex text is non-empty and holds none of the special regex
    characters. *)
Theorem extract_regex_shortcuts_plain `{Externals} (text : str) :
  Forall (fun sc => sc <> [] /\ forallb (fun c => negb (is_special_regex_char c)) sc = true)
         (extract_regex_shortcuts text).
Proof. apply extract_regex_shortcuts_loop_plain. apply Forall_nil_2. Qed.

(** ** Host and port *)

Section HostPort.

Lemma starts_with_cons_lookup (s : str) (j : nat) (c : ascii) (needle : str) :
  sv.starts_with (drop j s) (c :: needle) = true -> s !! j = Some c.
Proof.
  intros Hs. replace j with (j + 0) by lia. rewrite <- lookup_drop.
  destruct (drop j s) as [|d rest]; cbn [sv.starts_with] in Hs; [done|].
  apply andb_prop in Hs as [Hd _]. apply Ascii.eqb_eq in Hd as ->. done.
Qed.

(** The first and the last colon of [host:port] when neither part has
    one. *)
Lemma find_single_colon (host port : str) :
  ":"%char ∉ host -> ":"%char ∉ port ->
  sv.find_char (host ++ ":"%char :: port) ":" = Some (length host)
  /\ sv.rfind_char (host ++ ":"%char :: port) ":" = Some (length host).
Proof.
  intros Hhost Hport.
  assert (Hin : ":"%char ∈ host ++ ":"%char :: port).
  { apply elem_of_app. right. apply list_elem_of_here. }
  assert (Hpos : forall k, (host ++ ":"%char :: port) !! k = Some ":"%char -> k = length host).
  { intros k Hk. destruct (lt_eq_lt_dec k (length host)) as [[Hlt|?]|Hgt]; [|done|].
    - rewrite lookup_app_l in Hk by done. apply list_elem_of_lookup_2 in Hk. done.
    - rewrite lookup_app_r in Hk by lia.
      destruct (k - length host) as [|n] eqn:E; [lia|]. simpl in Hk.
      apply list_elem_of_lookup_2 in Hk. done. }
  split.
  - destruct (find_if_scan_is_Some (Ascii.eqb ":") _ 0 ":" Hin eq_refl) as [fpos Hf].
    unfold sv.find_char. rewrite Hf.
    apply find_if_scan_Some in Hf as (_ & (c & Hfat & Hc) & _).
    apply Ascii.eqb_eq in Hc as <-. rewrite Nat.sub_0_r in Hfat. by rewrite (Hpos _ Hfat).
  - destruct (rfind_scan_is_Some ":" _ 0 None Hin) as [rpos Hr].
    unfold sv.rfind_char. rewrite Hr.
    apply rfind_scan_spec in Hr as [[? _]|(_ & Hrat & _)]; [done|].
    rewrite Nat.sub_0_r in Hrat. by rewrite (Hpos _ Hrat).
Qed.

End HostPort.

(** X23. Splitting undoes joining for a host with a colon, an IPv6
    literal: [join_host_port] puts the host in brackets, and
    [split_host_port] gives back the host and the port, whatever the port
    is, as long as the host holds no closing bracket. *)
Theorem split_host_port_join_bracketed (host port : str) :
  ":"%char ∈ host ->
  "]"%char ∉ host ->
  join_host_port host port = "["%char :: host ++ "]"%char :: ":"%char :: port
  /\ split_host_port (join_host_port host port) = (host, port).
Proof.
  intros Hcolon Hbracket.
  assert (Hjoin : join_host_port host port = "["%char :: host ++ "]"%char :: ":"%char :: port).
  { unfold join_host_port. rewrite bool_decide_eq_true_2; [done|].
    by apply (find_if_scan_is_Some (Ascii.eqb ":") host 0 ":"). }
  split; [exact Hjoin|]. rewrite Hjoin.
  set (s := "["%char :: host ++ "]"%char :: ":"%char :: port).
  unfold split_host_port.
  rewrite (bool_decide_eq_false_2 (s = [])) by done.
  assert (Hfront : sv.front_is s "[" = true) by done. rewrite Hfront. cbn [negb andb].
  assert (Hfind : sv.find s (lit "]:") 0 = Some (S (length host))).
  { change (sv.find s (lit "]:") 0) with (sv.find_scan (lit "]:") s 0).
    destruct (find_scan_occurrence (lit "]:") s 0 (S (length host))) as (j & Hj & Hle).
    - unfold s. cbn [length]. rewrite length_app. cbn [length]. lia.
    - unfold s. cbn [drop]. rewrite drop_app_length. by destruct port.
    - rewrite Hj. f_equal.
      apply find_scan_Some in Hj as (_ & _ & Hocc). rewrite Nat.sub_0_r in Hocc.
      apply starts_with_cons_lookup in Hocc.
      destruct j as [|j]; [done|]. cbn [s lookup] in Hocc. simpl in Hocc.
      destruct (decide (j < length host)) as [Hlt|Hge]; [|lia].
      rewrite lookup_app_l in Hocc by done. apply list_elem_of_lookup_2 in Hocc. done. }
  rewrite Hfind. unfold sv.substr, sv.substr_from, s. f_equal.
  - cbn [drop]. replace (S (length host) - 1) with (length host) by lia.
    apply take_app_length.
  - replace (S (length host) + 2) with (S (length host + 2)) by lia. cbn [drop].
    replace (host ++ "]"%char :: ":"%char :: port)
      with ((host ++ ["]"%char; ":"%char]) ++ port) by (by rewrite <- app_assoc).
    apply drop_app_length'. rewrite length_app. simpl. lia.
Qed.

Lemma split_host_port_join_bracketed_witness :
  join_host_port (lit "::1") (lit "53") = lit "[::1]:53"
  /\ split_host_port (join_host_port (lit "::1") (lit "53")) = (lit "::1", lit "53").
Proof.
  apply (split_host_port_join_bracketed (lit "::1") (lit "53")).
  - apply list_elem_of_here.
  - apply (bool_decide_eq_false_1 ("]"%char ∈ lit "::1")). vm_compute. reflexivity.
Defined.

(** X24. Splitting undoes joining for a host without a colon: the joined
    address is the host, a colon and the port, and [split_host_port]
    gives back both, as long as the host does not begin with an opening
    bracket and the port holds no colon. *)
Theorem split_host_port_join_plain (host port : str) :
  ":"%char ∉ host ->
  sv.front_is host "[" = false ->
  ":"%char ∉ port ->
  join_host_port host port = host ++ ":"%char :: port
  /\ split_host_port (join_host_port host port) = (host, port).
Proof.
  intros Hhost Hfront Hport.
  assert (Hjoin : join_host_port host port = host ++ ":"%char :: port).
  { unfold join_host_port. rewrite bool_decide_eq_false_2; [done|].
    intros [n Hn]. unfold sv.find_char in Hn.
    apply find_if_scan_Some in Hn as (_ & (c & Hc & Heq) & _).
    apply Ascii.eqb_eq in Heq as <-. apply list_elem_of_lookup_2 in Hc. done. }
  split; [exact Hjoin|]. rewrite Hjoin. unfold split_host_port.
  assert (Hnot : sv.front_is (host ++ ":"%char :: port) "[" = false).
  { destruct host; [done|exact Hfront]. }
  rewrite Hnot, andb_false_r.
  destruct (find_single_colon host port Hhost Hport) as [-> ->].
  rewrite bool_decide_eq_true_2 by done. cbn [negb].
  unfold sv.substr, sv.substr_from. rewrite drop_0, take_app_length. f_equal.
  replace (host ++ ":"%char :: port) with ((host ++ [":"%char]) ++ port)
    by (by rewrite <- app_assoc).
  apply drop_app_length'. rewrite length_app. simpl. lia.
Qed.

Lemma split_host_port_join_plain_witness :
  join_host_port (lit "example.org") (lit "853") = lit "example.org:853"
  /\ split_host_port (join_host_port (lit "example.org") (lit "853"))
     = (lit "example.org", lit "853").
Proof.
  apply (split_host_port_join_plain (lit "example.org") (lit "853")).
  - apply (bool_decide_eq_false_1 (":"%char ∈ lit "example.org")). vm_compute. reflexivity.
  - reflexivity.
  - apply (bool_decide_eq_false_1 (":"%char ∈ lit "853")). vm_compute. reflexivity.
Defined.


(** ** Reloading *)

Section UpdateFacts.
Context `{Externals}.

Lemma existsb_all_false {X : Type} (p : X -> bool) (xs : list X) :
  (forall x, p x = false) -> existsb p xs = false.
Proof. intros Hp. induction xs as [|x xs IH]; simpl; [done|]. by rewrite Hp, IH. Qed.

(** A filter with an empty index has no offset to probe. *)
Lemma has_candidate_new_impl (p : filter_params) (c : match_context) :
  has_candidate {| params := p; pimpl := new_impl |} c = false.
Proof.
  unfold has_candidate, domain_candidates, shortcut_candidates, leftover_candidates,
    badfilter_candidates. cbn [pimpl new_impl unique_domains_table domains_table
    shortcuts_table leftovers_table badfilter_table existsb].
  rewrite !existsb_all_false; [by rewrite andb_false_r| | |].
  - intros rule. rewrite lookup_empty. by rewrite bool_decide_eq_false_2 by (by intros [? ?]).
  - intros window. by rewrite lookup_empty.
  - intros domain. rewrite !lookup_empty.
    by rewrite bool_decide_eq_false_2 by (by intros [? ?]).
Qed.

(** Without an offset to probe the match returns [true] and leaves the
    context as it is. *)
Lemma filter_match_no_candidate fs f c :
  has_candidate f c = false -> filter_match fs f c = (true, c).
Proof.
  intros Hcand. unfold has_candidate in Hcand.
  apply orb_false_elim in Hcand as [Hcand Hbad].
  apply orb_false_elim in Hcand as [Hcand Hleft].
  apply orb_false_elim in Hcand as [Hdom Hshort].
  unfold filter_match.
  rewrite (search_by_domains_no_candidate fs f) by done.
  rewrite (search_by_shortcuts_no_candidate fs f) by done.
  rewrite (search_in_leftovers_no_candidate fs f) by done.
  rewrite (search_badfilter_rules_no_candidate fs f) by done.
  cbn [ctx outdated negb]. rewrite take_ge, drop_ge by lia. cbn [map]. rewrite app_nil_r.
  by destruct c.
Qed.

Lemma wrap_size_t_small (n : N) : (n < 2 ^ 64)%N -> wrap_size_t (Z.of_N n) = n.
Proof. intros Hn. unfold wrap_size_t, to_size_t. rewrite Z.mod_small by lia. lia. Qed.

End UpdateFacts.

(** X26. [update] keeps the books: when the limit and the memory of the
    old index add up to a value that is not zero and fits a [size_t], the
    new limit and the memory of the new index add up to the same value,
    whatever [load] returns. *)
Theorem update_conserves_budget `{Externals} (fs : file_system) (this : filter)
    (mem_limit : N) :
  (0 < mem_limit + approx_mem (pimpl this) < 2 ^ 64)%N ->
  (fst (update fs this mem_limit) + approx_mem (pimpl (snd (update fs this mem_limit)))
   = mem_limit + approx_mem (pimpl this))%N.
Proof.
  intros Hsum. unfold update. cbn [fst snd params].
  replace (Z.of_N mem_limit + Z.of_N (approx_mem (pimpl this)))%Z
    with (Z.of_N (mem_limit + approx_mem (pimpl this))) by lia.
  rewrite wrap_size_t_small by lia.
  set (limit := (mem_limit + approx_mem (pimpl this))%N) in *.
  set (this0 := {| params := params this; pimpl := new_impl |}).
  pose proof (load_approx_mem_le fs this0 (params this) limit ltac:(lia)) as Hle.
  assert (Hmem : approx_mem (pimpl (snd (load fs this0 (params this) limit)))
                 = snd (fst (load fs this0 (params this) limit))).
  { destruct (in_memory (params this)) eqn:Hm;
      [|destruct (fs_open fs (data (params this))) as [content|] eqn:Hopen].
    3: { by rewrite load_unreadable. }
    all: destruct (load_readable fs this0 (params this) limit) as [-> ->];
      [first [by rewrite Hm | by rewrite Hopen]|]; done. }
  rewrite Hmem.
  replace (Z.of_N limit - Z.of_N (snd (fst (load fs this0 (params this) limit))))%Z
    with (Z.of_N (limit - snd (fst (load fs this0 (params this) limit)))) by lia.
  rewrite wrap_size_t_small by lia. lia.
Qed.

Lemma update_conserves_budget_witness :
  (fst (@update Reference.externals MoreExamples.rules_fs MoreExamples.rules_filter 1000)
   + approx_mem
       (pimpl (snd (@update Reference.externals MoreExamples.rules_fs
                      MoreExamples.rules_filter 1000)))
   = 1000 + approx_mem (pimpl MoreExamples.rules_filter))%N.
Proof.
  apply (@update_conserves_budget Reference.externals MoreExamples.rules_fs
           MoreExamples.rules_filter 1000).
  vm_compute. split; reflexivity.
Defined.

(** X27. When the file of a file-backed filter cannot be opened, [update]
    still drops the old index: the filter is left with its parameters and
    an empty index, the limit grows by the memory of the old index, and a
    match against the filter afterwards finds nothing and returns [true],
    so the filter is never reported outdated. *)
Theorem update_unreadable_file `{Externals} (fs : file_system) (this : filter)
    (mem_limit : N) (c : match_context) :
  in_memory (params this) = false ->
  fs_open fs (data (params this)) = None ->
  update fs this mem_limit
  = (wrap_size_t (Z.of_N mem_limit + Z.of_N (approx_mem (pimpl this))),
     {| params := params this; pimpl := new_impl |})
  /\ filter_match fs (snd (update fs this mem_limit)) c = (true, c).
Proof.
  intros Hmem Hopen.
  assert (Hupdate : update fs this mem_limit
                    = (wrap_size_t (Z.of_N mem_limit + Z.of_N (approx_mem (pimpl this))),
                       {| params := params this; pimpl := new_impl |})).
  { unfold update. rewrite load_unreadable by done. cbn [fst snd]. f_equal.
    unfold wrap_size_t, to_size_t. rewrite Z.sub_0_r, Z2N.id by (apply Z.mod_pos_bound; lia).
    by rewrite Z.mod_mod. }
  split; [exact Hupdate|]. rewrite Hupdate. cbn [snd].
  apply filter_match_no_candidate, has_candidate_new_impl.
Qed.

Lemma update_unreadable_file_witness :
  @update Reference.externals MoreExamples.no_fs MoreExamples.rules_filter 1000
  = (@wrap_size_t (1000 + Z.of_N (approx_mem (pimpl MoreExamples.rules_filter))),
     {| params := params MoreExamples.rules_filter; pimpl := new_impl |})
  /\ @filter_match Reference.externals MoreExamples.no_fs
       (snd (@update Reference.externals MoreExamples.no_fs MoreExamples.rules_filter 1000))
       Examples.org_query
     = (true, Examples.org_query).
Proof.
  apply (@update_unreadable_file Reference.externals MoreExamples.no_fs
           MoreExamples.rules_filter 1000 Examples.org_query).
  - vm_compute. reflexivity.
  - reflexivity.
Defined.

(** ** From the load to the match *)

Section LoadAndMatch.
Context `{Externals}.





End LoadAndMatch.


